(** * stock-analysis: the alert evaluation engine

    A shallow embedding of [src/utils/send-discord.ts] (the rule parser
    [parsePriceLevels], the notifier [sendDiscord] and the on-demand
    evaluator [runAlertsOnce]) and of the scheduled evaluator [runCron] of
    [src/index.ts], followed by the properties the specification states
    about them.

    Conventions of the embedding:
    - a JavaScript [number] is an IEEE 754 binary64 value ([spec_float] with
      [prec = 53], [emax = 1024]); arithmetic and comparisons are the
      correctly rounded ones of [SpecFloat];
    - a JavaScript string is a [string]; plain objects used as dictionaries
      ([Record<string, _>]) are [gmap string _] (their keys are uppercased
      symbols and the four condition names, none of which is a property
      inherited from [Object.prototype]);
    - [undefined]/[null] are [None];
    - the effects of the evaluator (KV namespace, clock, webhook) are threaded
      explicitly through a state-and-exception monad. *)

From Stdlib Require Import ZArith String Ascii List Bool Lia.
From Stdlib Require Import Floats.SpecFloat.
From stdpp Require Import base option list strings gmap.

Local Open Scope string_scope.
Local Open Scope list_scope.
Local Open Scope Z_scope.

(* ===================================================================== *)
(** * JavaScript values and builtins used by the code                     *)
(* ===================================================================== *)

Module JS.

(** ** Numbers *)

Definition prec : Z := 53.
Definition emax : Z := 1024.

Definition number : Type := spec_float.

Definition NaN : number := S754_nan.
Definition add : number → number → number := SFadd prec emax.
Definition sub : number → number → number := SFsub prec emax.
Definition mul : number → number → number := SFmul prec emax.
Definition div : number → number → number := SFdiv prec emax.
Definition neg : number → number := SFopp.

(** [x < y], [x <= y], [x > y], [x >= y]: all false when an operand is NaN. *)
Definition lt (x y : number) : bool := SFltb x y.
Definition le (x y : number) : bool := SFleb x y.
Definition gt (x y : number) : bool := SFltb y x.
Definition ge (x y : number) : bool := SFleb y x.

(** The number denoted by an integer literal. *)
Definition ofZ (z : Z) : number := binary_normalize prec emax z 0 false.

(** [Number.isFinite]. *)
Definition isFinite (x : number) : bool :=
  match x with
  | S754_zero _ | S754_finite _ _ _ => true
  | S754_infinity _ | S754_nan => false
  end.

(** [ToBoolean] on a number: [0], [-0] and [NaN] are falsy. *)
Definition truthy (x : number) : bool :=
  match x with
  | S754_zero _ | S754_nan => false
  | S754_infinity _ | S754_finite _ _ _ => true
  end.

(** ** Strings *)

(** [ToBoolean] on a string: only the empty string is falsy. *)
Definition nonempty (s : string) : bool :=
  match s with
  | EmptyString => false
  | String _ _ => true
  end.

(** [s.split(sep)] for a one-character separator. *)
Fixpoint split (sep : ascii) (s : string) : list string :=
  match s with
  | EmptyString => [EmptyString]
  | String c s' =>
      if Ascii.eqb c sep then EmptyString :: split sep s'
      else match split sep s' with
           | h :: t => String c h :: t
           | [] => [String c EmptyString]
           end
  end.

(** The string builtins whose definition depends on the Unicode tables of
    the host, and the string-to-number conversion.  The evaluator is written
    against this interface; [ascii_builtins] below implements it for strings
    of ASCII characters. *)
Class Builtins : Type := {
  trim : string → string;
  toUpperCase : string → string;
  (** [Number(v)]; the argument [undefined] is [None]. *)
  Number : option string → number;
}.

(** ** The builtins on ASCII strings *)

Definition code (c : ascii) : Z := Z.of_N (N_of_ascii c).

(** White space and line terminators below U+0080. *)
Definition is_space (c : ascii) : bool :=
  let n := code c in ((9 <=? n) && (n <=? 13)) || (n =? 32).

Fixpoint trimStart (s : string) : string :=
  match s with
  | String c s' => if is_space c then trimStart s' else s
  | EmptyString => EmptyString
  end.

Fixpoint trimEnd (s : string) : string :=
  match s with
  | String c s' =>
      match trimEnd s' with
      | EmptyString => if is_space c then EmptyString else String c EmptyString
      | r => String c r
      end
  | EmptyString => EmptyString
  end.

Definition ascii_trim (s : string) : string := trimEnd (trimStart s).

Definition upper (c : ascii) : ascii :=
  let n := code c in
  if (97 <=? n) && (n <=? 122) then ascii_of_N (Z.to_N (n - 32)) else c.

Fixpoint ascii_toUpperCase (s : string) : string :=
  match s with
  | String c s' => String (upper c) (ascii_toUpperCase s')
  | EmptyString => EmptyString
  end.

(** ** [StringToNumber] on ASCII strings

    The conversion applied by [Number(s)]: the trimmed string is empty
    (giving [+0]), a non-decimal integer literal ([0x], [0o], [0b], no sign),
    or an optionally signed [Infinity] or decimal literal with an optional
    fraction and exponent; anything else is [NaN].  The mathematical value
    is rounded to the nearest binary64 number, ties to even. *)

Definition digit_val (radix : Z) (c : ascii) : option Z :=
  let n := code c in
  let v := if (48 <=? n) && (n <=? 57) then n - 48
           else if (97 <=? n) && (n <=? 102) then n - 87
           else if (65 <=? n) && (n <=? 70) then n - 55
           else 16 in
  if v <? radix then Some v else None.

(** Reads the longest prefix of digits of [s] in the given radix: the value
    accumulated on [acc], how many digits were read, and the rest. *)
Fixpoint read_digits (radix : Z) (s : string) (acc : Z) (n : Z)
  : Z * Z * string :=
  match s with
  | String c s' =>
      match digit_val radix c with
      | Some d => read_digits radix s' (radix * acc + d) (n + 1)
      | None => (acc, n, s)
      end
  | EmptyString => (acc, n, s)
  end.

(** [sign * m * 10^e] rounded to binary64. *)
Definition of_decimal (sign : bool) (m e : Z) : number :=
  match m with
  | Zpos p =>
      if 0 <=? e
      then binary_normalize prec emax ((if sign then Zneg p else Zpos p) * 10 ^ e) 0 sign
      else div (S754_finite sign p 0) (S754_finite false (Z.to_pos (10 ^ (- e))) 0)
  | _ => S754_zero sign
  end.

(** A non-decimal integer literal without its prefix. *)
Definition non_decimal (radix : Z) (s : string) : number :=
  match read_digits radix s 0 0 with
  | (m, n, EmptyString) => if 0 <? n then ofZ m else NaN
  | _ => NaN
  end.

(** The optional exponent part and the end of the literal. *)
Definition exponent_part (s : string) : option Z :=
  match s with
  | EmptyString => Some 0
  | String c s' =>
      if (code c =? 101) || (code c =? 69) then
        let '(esign, s'') :=
          match s' with
          | String c' t =>
              if code c' =? 45 then (true, t)
              else if code c' =? 43 then (false, t)
              else (false, s')
          | EmptyString => (false, s')
          end in
        match read_digits 10 s'' 0 0 with
        | (x, n, EmptyString) =>
            if 0 <? n then Some (if esign then - x else x) else None
        | _ => None
        end
      else None
  end.

Definition unsigned_decimal (sign : bool) (s : string) : number :=
  if String.eqb s "Infinity" then S754_infinity sign
  else
    let '(m1, n1, s1) := read_digits 10 s 0 0 in
    let '(m, n2, s2) :=
      match s1 with
      | String c t =>
          if code c =? 46 then read_digits 10 t m1 0 else (m1, 0, s1)
      | EmptyString => (m1, 0, s1)
      end in
    if (n1 + n2 =? 0) then NaN
    else match exponent_part s2 with
         | Some x => of_decimal sign m (x - n2)
         | None => NaN
         end.

Definition StringToNumber (s : string) : number :=
  match ascii_trim s with
  | EmptyString => S754_zero false
  | String c t as s' =>
      let radix :=
        if code c =? 48 then
          match t with
          | String p _ =>
              let n := code p in
              if (n =? 120) || (n =? 88) then 16
              else if (n =? 111) || (n =? 79) then 8
              else if (n =? 98) || (n =? 66) then 2
              else 10
          | EmptyString => 10
          end
        else 10 in
      if radix =? 10 then
        if code c =? 45 then unsigned_decimal true t
        else if code c =? 43 then unsigned_decimal false t
        else unsigned_decimal false s'
      else match t with
           | String _ u => non_decimal radix u
           | EmptyString => NaN
           end
  end.

#[global] Instance ascii_builtins : Builtins := {|
  trim := ascii_trim;
  toUpperCase := ascii_toUpperCase;
  Number := λ v, match v with Some s => StringToNumber s | None => NaN end;
|}.

End JS.

Import JS.

(* ===================================================================== *)
(** * Data model                                                          *)
(* ===================================================================== *)

(** The rule of one symbol, [{ below?: number; above?: number }]. *)
Record Rules : Type := mkRules {
  below : option number;
  above : option number;
}.

Definition no_rules : Rules := {| below := None; above := None |}.

(** [AlertState] ([src/model/alert-model.ts]): both dictionaries are
    optional, keyed by condition name. *)
Record AlertState : Type := mkAlertState {
  lastSentAt : option (gmap string number);
  lastCond : option (gmap string bool);
}.

(** [{ p: number; t: string }] and [{ c: number; t: string }]. *)
Record Trade : Type := mkTrade { p : number; trade_t : string }.
Record Bar : Type := mkBar { c : number; bar_t : string }.

(** [AlpacaSnapshot] ([src/model/alpaca-model.ts]). *)
Record AlpacaSnapshot : Type := mkSnapshot {
  latestTrade : option Trade;
  minuteBar : option Bar;
  dailyBar : option Bar;
  prevDailyBar : option Bar;
}.

(** The configuration part of [Env] ([src/model/config-env.ts]); the KV
    namespace [STOCK_STATE] lives in the [World] below.  [WATCHLIST] is read
    through [?? "AAPL,TSLA"], hence optional here. *)
Record Env : Type := mkEnv {
  DISCORD_WEBHOOK_URL : string;
  ALPACA_API_KEY : string;
  ALPACA_API_SECRET : string;
  WATCHLIST : option string;
  PRICE_LEVELS : option string;
  PCT_THRESHOLD : option string;
  ALERT_COOLDOWN_MINUTES : option string;
  TRIGGER_TOKEN : string;
}.

(** [opts?: { force?: boolean; symbols?: string[] }]. *)
Record Opts : Type := mkOpts {
  force : option bool;
  symbols : option (list string);
}.

(* ===================================================================== *)
(** * Rule parser: [parsePriceLevels]                                     *)
(* ===================================================================== *)

Section Parser.
Context `{Builtins}.

(** One iteration of the inner loop (lines 33-39): a clause [k=v] of an
    entry, applied to the rules collected so far. *)
Definition parse_clause (rules : Rules) (kv : string) : Rules :=
  let kvs := List.map trim (split "=" kv) in
  let k := kvs !! 0%nat in
  let v := kvs !! 1%nat in
  let num := Number v in
  if negb (isFinite num) then rules
  else
    let rules1 :=
      if decide (k = Some "below")
      then {| below := Some num; above := above rules |} else rules in
    if decide (k = Some "above")
    then {| below := below rules1; above := Some num |} else rules1.

(** One iteration of the outer loop (lines 24-42): an entry [SYMBOL:clauses]
    applied to the mapping built so far; [continue] leaves it as it is. *)
Definition parse_entry (out : gmap string Rules) (chunk : string)
  : gmap string Rules :=
  let part := trim chunk in
  if negb (nonempty part) then out
  else
    let parts := split ":" part in
    let symRaw := parts !! 0%nat in
    let rulesRaw := parts !! 1%nat in
    let symbol := toUpperCase (trim (default "" symRaw)) in
    match rulesRaw with
    | Some rulesRaw =>
        if negb (nonempty symbol) || negb (nonempty rulesRaw) then out
        else
          let rules := foldl parse_clause no_rules (split "," rulesRaw) in
          <[symbol := rules]> out
    | None => out
    end.

Definition parsePriceLevels (input : string) : gmap string Rules :=
  if negb (nonempty input) || String.eqb (trim input) "" then ∅
  else foldl parse_entry ∅ (split ";" input).

End Parser.

(* ===================================================================== *)
(** * Effects: the world outside the evaluator                            *)
(* ===================================================================== *)

(** The content of a notification.  The source renders it with a template
    literal (lines 187-212; [src/index.ts], lines 126-155) from exactly these
    values; the record keeps what the text is rendered from: condition key,
    symbol, current price, the threshold named in the text (rule level or
    percent threshold), previous close and percent change.  The templates
    of the two evaluators are the same character for character for each
    key, except that of [pct_down] in [runCron] ([src/index.ts], line 155),
    whose heading has a space before its emoji: [m_lead] is the text between
    the rule line and the emoji, a space there and empty everywhere else. *)
Record Message : Type := mkMessage {
  m_key : string;
  m_symbol : string;
  m_price : number;
  m_level : number;
  m_prevClose : option number;
  m_changePct : option number;
  m_lead : string;
}.

(** What the outside answers during one run: the snapshot batch returned for
    the requested symbols ([None]: a non-ok response), the value of the
    [n]-th call of [Date.now()], and whether the [n]-th webhook POST gets an
    ok response ([false] also stands for a rejected [fetch]). *)
Record Host : Type := mkHost {
  alpaca : list string → option (gmap string AlpacaSnapshot);
  dateNow : nat → number;
  webhookOk : nat → bool;
}.

(** The state that outlives a run: the KV namespace [STOCK_STATE], the
    number of clock reads and webhook POSTs made so far, and the messages
    the webhook accepted.  A stored JSON document is identified with the
    state object it was serialized from: the numbers written are clock
    values and the flags are booleans, on which [JSON.stringify] followed by
    the ["json"] read is the identity.  Reads and writes of the namespace
    are taken to succeed. *)
Record World : Type := mkWorld {
  STOCK_STATE : gmap string AlertState;
  clock : nat;
  posts : nat;
  delivered : list Message;
}.

Inductive Error : Type :=
| WebhookMissing      (* "DISCORD_WEBHOOK_URL is missing (undefined/empty)" *)
| WebhookFailed       (* "Discord webhook failed: <status>" *)
| SnapshotsError      (* "Alpaca snapshots error <status>: <text>" *)
| TypeError.          (* property write on [undefined]; [String] of a value
                         without a string conversion *)

Inductive Completion (A : Type) : Type :=
| Normal (a : A)
| Throw (e : Error).
Arguments Normal {A} a.
Arguments Throw {A} e.

(** The variables a run mutates besides the world: the counter [sent] and the
    list [sentKeys] of the symbol being processed. *)
Record Run : Type := mkRun {
  world : World;
  sent : nat;
  sentKeys : list string;
}.

(** Computations of the evaluator: state passing over [Run], with
    exceptions; the state reached when an exception is thrown is kept, as
    [catch] observes it. *)
Definition M (A : Type) : Type := Run → Completion A * Run.

#[global] Instance M_ret : MRet M := λ A a r, (Normal a, r).
#[global] Instance M_bind : MBind M := λ A B f m r,
  match m r with
  | (Normal a, r') => f a r'
  | (Throw e, r') => (Throw e, r')
  end.

Definition throw {A : Type} (e : Error) : M A := λ r, (Throw e, r).
Definition gets {A : Type} (f : Run → A) : M A := λ r, (Normal (f r), r).
Definition modify (f : Run → Run) : M unit := λ r, (Normal tt, f r).
Definition with_world (f : World → World) (r : Run) : Run :=
  {| world := f (world r); sent := sent r; sentKeys := sentKeys r |}.

(** The world after a clock read, after a webhook POST that was accepted,
    and after one that was refused. *)
Definition tick (w : World) : World :=
  {| STOCK_STATE := STOCK_STATE w; clock := S (clock w);
     posts := posts w; delivered := delivered w |}.
Definition accepted (payload : Message) (w : World) : World :=
  {| STOCK_STATE := STOCK_STATE w; clock := clock w;
     posts := S (posts w); delivered := delivered w ++ [payload] |}.
Definition refused (w : World) : World :=
  {| STOCK_STATE := STOCK_STATE w; clock := clock w;
     posts := S (posts w); delivered := delivered w |}.

Section Effects.
Context `{Builtins} (host : Host).

(** [Date.now()]. *)
Definition DateNow : M number := λ r,
  (Normal (dateNow host (clock (world r))), with_world tick r).

(** [!webhookUrl || webhookUrl.trim() === ""] (line 6). *)
Definition webhook_missing (webhookUrl : string) : bool :=
  negb (nonempty webhookUrl) || String.eqb (trim webhookUrl) "".

(** [sendDiscord(webhookUrl, { content: message })] (lines 5-15). *)
Definition sendDiscord (webhookUrl : string) (payload : Message) : M unit :=
  if webhook_missing webhookUrl
  then throw WebhookMissing
  else λ r,
    if webhookOk host (posts (world r))
    then (Normal tt, with_world (accepted payload) r)
    else (Throw WebhookFailed, with_world refused r).

(** [fetchSnapshotsAlpaca(symbols, env)] (lines 47-68). *)
Definition fetchSnapshotsAlpaca (symbols : list string) (env : Env)
  : M (gmap string AlpacaSnapshot) :=
  match alpaca host symbols with
  | Some snaps => mret snaps
  | None => throw SnapshotsError
  end.

(** [env.STOCK_STATE.get(key, "json")] and
    [env.STOCK_STATE.put(key, JSON.stringify(state))].  Both are awaited
    inside the [try] of the loop (lines 133-134 and 215-217; [src/index.ts],
    lines 87-88 and 158): a read or a write that the namespace rejects
    aborts the iteration as a failed delivery does, with nothing written.
    The namespace of the model always answers, so the only iterations it
    aborts are those of a failed delivery.  What is stated about an
    iteration that runs to its end is therefore stated of an iteration that
    is not aborted, never of one whose deliveries succeed. *)
Definition kv_get (key : string) : M (option AlertState) :=
  gets (λ r, STOCK_STATE (world r) !! key).
Definition kv_put (key : string) (state : AlertState) : M unit :=
  modify (with_world (λ w, {| STOCK_STATE := <[key := state]> (STOCK_STATE w);
                              clock := clock w; posts := posts w;
                              delivered := delivered w |})).

End Effects.

(* ===================================================================== *)
(** * The on-demand evaluator: [runAlertsOnce]                            *)
(* ===================================================================== *)

(** The per-symbol record of the summary (type [Detail], lines 70-78).  A
    property that was never assigned is [None]; [prevClose] and [changePct]
    may also be assigned [null], which is [Some None]. *)
Module Detail.
Record t : Type := mk {
  symbol : string;
  sent : list string;
  currentPrice : option number;
  prevClose : option (option number);
  changePct : option (option number);
  rules : option Rules;
  note : option string;
}.
End Detail.

(** The value [runAlertsOnce] resolves to (line 227). *)
Module Summary.
Record t : Type := mk {
  ok : bool;
  symbols : nat;
  sent : nat;
  details : list Detail.t;
}.
End Summary.

(** [opts?.force] as a condition. *)
Definition forced (opts : option Opts) : bool :=
  match opts with
  | Some o => default false (force o)
  | None => false
  end.

(** [`alerts:${symbol}`]. *)
Definition stateKey (symbol : string) : string := "alerts:" +:+ symbol.

(** [snap.latestTrade?.p ?? snap.minuteBar?.c ?? null] (line 113). *)
Definition currentPrice_of (snap : AlpacaSnapshot) : option number :=
  match latestTrade snap with
  | Some t => Some (p t)
  | None => match minuteBar snap with
            | Some b => Some (c b)
            | None => None
            end
  end.

(** [snap.prevDailyBar?.c ?? null] (line 114). *)
Definition prevClose_of (snap : AlpacaSnapshot) : option number :=
  match prevDailyBar snap with
  | Some b => Some (c b)
  | None => None
  end.

(** [changePct] (lines 125-128). *)
Definition changePct_of (currentPrice : number) (prevClose : option number)
  : option number :=
  match prevClose with
  | Some prevClose =>
      if truthy prevClose && gt prevClose (ofZ 0)
      then Some (mul (div (sub currentPrice prevClose) prevClose) (ofZ 100))
      else None
  | None => None
  end.

(** The four conditions (lines 141-148). *)
Definition condPriceBelow (rules : Rules) (currentPrice : number) : bool :=
  match below rules with
  | Some level => le currentPrice level
  | None => false
  end.

Definition condPriceAbove (rules : Rules) (currentPrice : number) : bool :=
  match above rules with
  | Some level => ge currentPrice level
  | None => false
  end.

Definition condPctUp (changePct : option number) (pctThreshold : number) : bool :=
  match changePct with
  | Some changePct => ge changePct pctThreshold
  | None => false
  end.

Definition condPctDown (changePct : option number) (pctThreshold : number) : bool :=
  match changePct with
  | Some changePct => le changePct (neg pctThreshold)
  | None => false
  end.

(** [state.lastSentAt![key] = now] and [state.lastCond![key] = cond]: a
    write into a dictionary that is not there is a [TypeError]. *)
Definition set_lastSentAt (key : string) (now : number) (state : AlertState)
  : M AlertState :=
  match lastSentAt state with
  | Some m => mret {| lastSentAt := Some (<[key := now]> m);
                      lastCond := lastCond state |}
  | None => throw TypeError
  end.

Definition set_lastCond (key : string) (cond : bool) (state : AlertState)
  : M AlertState :=
  match lastCond state with
  | Some m => mret {| lastSentAt := lastSentAt state;
                      lastCond := Some (<[key := cond]> m) |}
  | None => throw TypeError
  end.

(** [sent++; sentKeys.push(key)]. *)
Definition counted (key : string) (r : Run) : Run :=
  {| world := world r; sent := S (sent r); sentKeys := sentKeys r ++ [key] |}.
Definition count_sent (key : string) : M unit := modify (counted key).

(** [state.lastCond?.[key] ?? false] and [state.lastSentAt?.[key] ?? 0]. *)
Definition prev_of (state : AlertState) (key : string) : bool :=
  default false (lastCond state ≫= (.!! key)).
Definition last_of (state : AlertState) (key : string) : number :=
  default (ofZ 0) (lastSentAt state ≫= (.!! key)).

Section Evaluator.
Context `{Builtins} (host : Host) (env : Env) (opts : option Opts).

(** The closure [tryAlert] of [runAlertsOnce] (lines 150-174).  The object
    [state] it mutates is passed in and returned. *)
Definition tryAlert (cooldownMs : number)
    (key : string) (cond : bool) (message : Message) (state : AlertState)
  : M AlertState :=
  now ← DateNow host;
  if forced opts then
    (if cond
     then sendDiscord host (DISCORD_WEBHOOK_URL env) message;; count_sent key
     else mret tt);;
    mret state
  else
    let prev := prev_of state key in
    let last := last_of state key in
    state ← (if cond && negb prev && ge (sub now last) cooldownMs
             then sendDiscord host (DISCORD_WEBHOOK_URL env) message;;
                  state ← set_lastSentAt key now state;
                  count_sent key;;
                  mret state
             else mret state);
    set_lastCond key cond state.

(** The part of the loop body after the current price is known
    (lines 125-217): the four condition checks and the conditional write of
    the state. *)
Definition check_conditions (priceLevels : gmap string Rules)
    (pctThreshold cooldownMs : number) (symbol : string)
    (currentPrice : number) (prevClose : option number) : M unit :=
  let changePct := changePct_of currentPrice prevClose in
  state ← kv_get (stateKey symbol);
  let state := default {| lastSentAt := None; lastCond := None |} state in
  let state := {| lastSentAt := Some (default ∅ (lastSentAt state));
                  lastCond := lastCond state |} in
  let state := {| lastSentAt := lastSentAt state;
                  lastCond := Some (default ∅ (lastCond state)) |} in
  let rules := default no_rules (priceLevels !! symbol) in
  let msg key level :=
    {| m_key := key; m_symbol := symbol; m_price := currentPrice;
       m_level := level; m_prevClose := prevClose; m_changePct := changePct;
       m_lead := "" |} in
  state ← match below rules with
          | Some level =>
              tryAlert cooldownMs "price_below"
                (condPriceBelow rules currentPrice) (msg "price_below" level) state
          | None => mret state
          end;
  state ← match above rules with
          | Some level =>
              tryAlert cooldownMs "price_above"
                (condPriceAbove rules currentPrice) (msg "price_above" level) state
          | None => mret state
          end;
  state ← tryAlert cooldownMs "pct_up"
            (condPctUp changePct pctThreshold) (msg "pct_up" pctThreshold) state;
  state ← tryAlert cooldownMs "pct_down"
            (condPctDown changePct pctThreshold) (msg "pct_down" pctThreshold) state;
  if negb (forced opts) then kv_put (stateKey symbol) state else mret tt.

(** One iteration of the loop over the symbols (lines 101-225): the run
    state and the [details] collected so far, before and after.  Every path
    pushes exactly one detail; [catch] turns an exception into the note
    ["error"]. *)
Definition process_symbol (snapshots : gmap string AlpacaSnapshot)
    (priceLevels : gmap string Rules) (pctThreshold cooldownMs : number)
    (acc : Run * list Detail.t) (symbol : string) : Run * list Detail.t :=
  let '(r, details) := acc in
  let r := {| world := world r; sent := sent r; sentKeys := [] |} in
  match snapshots !! symbol with
  | None =>
      (r, details ++ [Detail.mk symbol [] None None None None (Some "no snapshot")])
  | Some snap =>
      let currentPrice := currentPrice_of snap in
      let prevClose := prevClose_of snap in
      match currentPrice with
      | None =>
          (r, details ++ [Detail.mk symbol [] None (Some prevClose) None None
                            (Some "no current price")])
      | Some currentPrice =>
          let changePct := changePct_of currentPrice prevClose in
          let rules := default no_rules (priceLevels !! symbol) in
          let '(res, r') :=
            check_conditions priceLevels pctThreshold cooldownMs symbol
              currentPrice prevClose r in
          let note := match res with
                      | Normal _ => None
                      | Throw _ => Some "error"
                      end in
          (r', details ++ [Detail.mk symbol (sentKeys r') (Some currentPrice)
                             (Some prevClose) (Some changePct) (Some rules) note])
      end
  end.

(** The symbols of the run (lines 84-89). *)
Definition watchlist : list string :=
  List.filter nonempty
    (List.map (λ s, toUpperCase (trim s))
       (split "," (default "AAPL,TSLA" (WATCHLIST env)))).

Definition run_symbols : list string :=
  match opts ≫= symbols with
  | Some ((_ :: _) as l) =>
      List.filter nonempty (List.map (λ s, toUpperCase (trim s)) l)
  | _ => watchlist
  end.

Definition runAlertsOnce : World → Completion Summary.t * World := λ w,
  let symbols := run_symbols in
  let priceLevels := parsePriceLevels (default "" (PRICE_LEVELS env)) in
  let pctThreshold := Number (Some (default "10" (PCT_THRESHOLD env))) in
  let cooldownMin := Number (Some (default "30" (ALERT_COOLDOWN_MINUTES env))) in
  let cooldownMs := mul (mul cooldownMin (ofZ 60)) (ofZ 1000) in
  let r0 := {| world := w; sent := 0%nat; sentKeys := [] |} in
  match fetchSnapshotsAlpaca host symbols env r0 with
  | (Throw e, r) => (Throw e, world r)
  | (Normal snapshots, r) =>
      let '(r', details) :=
        foldl (process_symbol snapshots priceLevels pctThreshold cooldownMs)
          (r, []) symbols in
      (Normal (Summary.mk true (length symbols) (sent r') details), world r')
  end.

End Evaluator.

(* ===================================================================== *)
(** * The scheduled evaluator: [runCron] ([src/index.ts])                 *)
(* ===================================================================== *)

(** [runCron] duplicates the loop of [runAlertsOnce] without the force mode,
    the counter and the details, and with a text of its own for [pct_down]
    (line 155); of a [Run] it only uses the world. *)
Module Cron.
Section Cron.
Context `{Builtins} (host : Host) (env : Env).

(** The closure [tryAlert] of [runCron] (lines 103-114). *)
Definition tryAlert (cooldownMs : number)
    (key : string) (cond : bool) (message : Message) (state : AlertState)
  : M AlertState :=
  let prev := prev_of state key in
  let last := last_of state key in
  now ← DateNow host;
  state ← (if cond && negb prev && ge (sub now last) cooldownMs
           then sendDiscord host (DISCORD_WEBHOOK_URL env) message;;
                set_lastSentAt key now state
           else mret state);
  set_lastCond key cond state.

(** Lines 81-158 of the loop body. *)
Definition check_conditions (priceLevels : gmap string Rules)
    (pctThreshold cooldownMs : number) (symbol : string)
    (currentPrice : number) (prevClose : option number) : M unit :=
  let changePct := changePct_of currentPrice prevClose in
  state ← kv_get (stateKey symbol);
  let state := default {| lastSentAt := None; lastCond := None |} state in
  let state := {| lastSentAt := Some (default ∅ (lastSentAt state));
                  lastCond := lastCond state |} in
  let state := {| lastSentAt := lastSentAt state;
                  lastCond := Some (default ∅ (lastCond state)) |} in
  let rules := default no_rules (priceLevels !! symbol) in
  let msg lead key level :=
    {| m_key := key; m_symbol := symbol; m_price := currentPrice;
       m_level := level; m_prevClose := prevClose; m_changePct := changePct;
       m_lead := lead |} in
  state ← match below rules with
          | Some level =>
              tryAlert cooldownMs "price_below"
                (condPriceBelow rules currentPrice) (msg "" "price_below" level)
                state
          | None => mret state
          end;
  state ← match above rules with
          | Some level =>
              tryAlert cooldownMs "price_above"
                (condPriceAbove rules currentPrice) (msg "" "price_above" level)
                state
          | None => mret state
          end;
  state ← tryAlert cooldownMs "pct_up"
            (condPctUp changePct pctThreshold) (msg "" "pct_up" pctThreshold)
            state;
  state ← tryAlert cooldownMs "pct_down"
            (condPctDown changePct pctThreshold) (msg " " "pct_down" pctThreshold)
            state;
  kv_put (stateKey symbol) state.

(** One iteration of the loop (lines 70-162); [catch] only logs. *)
Definition process_symbol (snapshots : gmap string AlpacaSnapshot)
    (priceLevels : gmap string Rules) (pctThreshold cooldownMs : number)
    (r : Run) (symbol : string) : Run :=
  match snapshots !! symbol with
  | None => r
  | Some snap =>
      match currentPrice_of snap with
      | None => r
      | Some currentPrice =>
          snd (check_conditions priceLevels pctThreshold cooldownMs symbol
                 currentPrice (prevClose_of snap) r)
      end
  end.

Definition runCron : World → Completion unit * World := λ w,
  let symbols := watchlist env in
  let priceLevels := parsePriceLevels (default "" (PRICE_LEVELS env)) in
  let pctThreshold := Number (Some (default "10" (PCT_THRESHOLD env))) in
  let cooldownMin := Number (Some (default "30" (ALERT_COOLDOWN_MINUTES env))) in
  let cooldownMs := mul (mul cooldownMin (ofZ 60)) (ofZ 1000) in
  let r0 := {| world := w; sent := 0%nat; sentKeys := [] |} in
  match fetchSnapshotsAlpaca host symbols env r0 with
  | (Throw e, r) => (Throw e, world r)
  | (Normal snapshots, r) =>
      let r' :=
        foldl (process_symbol snapshots priceLevels pctThreshold cooldownMs)
          r symbols in
      (Normal tt, world r')
  end.

End Cron.
End Cron.


(* ===================================================================== *)
(** * The on-demand endpoint: [POST /trigger-alerts] ([src/index.ts])     *)
(* ===================================================================== *)

(** An element of the array [body.symbols].  The handler passes the array
    as it was parsed, whatever its elements are (line 43), and
    [runAlertsOnce] applies [String(s)] to each of them
    ([src/utils/send-discord.ts], line 85): the element itself when it is a
    string; for any other JSON value a text, or a [TypeError] (an object
    whose own property [toString] is not callable, such as
    [{"toString": 1}]).  A value that is not a string carries the outcome of
    its conversion. *)
Inductive JsonValue : Type :=
| JsonString (s : string)
| JsonOther (text : option string).

(** [String(s)]; [None] is the [TypeError]. *)
Definition ToString (v : JsonValue) : option string :=
  match v with
  | JsonString s => Some s
  | JsonOther text => text
  end.

(** The JSON body as the handler reads it (lines 41-43): [Boolean(body?.force)]
    and [body.symbols] when it is an array, [undefined] otherwise. *)
Record Body : Type := mkBody {
  body_force : bool;
  body_symbols : option (list JsonValue);
}.

Inductive Response : Type :=
| Unauthorized                 (* 401 *)
| Json (result : Summary.t).

(** The handler.  The conversion of the elements of [symbols] is the first
    thing [runAlertsOnce] does with its options (line 85), before any
    effect and outside the [try] of the loop: it is made here, at the
    boundary between the parsed body and the typed options. *)
Definition trigger_alerts `{Builtins} (host : Host) (env : Env)
    (token : option string) (body : Body) : World → Completion Response * World :=
  λ w,
  match token with
  | Some token =>
      if negb (nonempty token) || negb (String.eqb token (TRIGGER_TOKEN env))
      then (Normal Unauthorized, w)
      else
        let force := body_force body in
        let symbols := body_symbols body in
        let run symbols :=
          match runAlertsOnce host env
                  (Some {| force := Some force; symbols := symbols |}) w with
          | (Normal result, w') => (Normal (Json result), w')
          | (Throw e, w') => (Throw e, w')
          end in
        match symbols with
        | Some elements =>
            match mapM ToString elements with
            | Some strings => run (Some strings)
            | None => (Throw TypeError, w)
            end
        | None => run None
        end
  | None => (Normal Unauthorized, w)
  end.

(* ===================================================================== *)
(** * The bars endpoint: [fetchClosesAlpaca] and [GET /test-alpaca]        *)
(* ===================================================================== *)

(** The response of the bars request ([src/api/fetch-data-alpaca.ts]): its
    status, its text, and the [bars] field of its JSON document, which may
    be absent; of a bar only the close [c] is used. *)
Record BarsResponse : Type := mkBarsResponse {
  res_status : nat;
  res_text : string;
  data_bars : option (list Bar);
}.

(** [res.ok]: a status in the range 200-299. *)
Definition res_ok (res : BarsResponse) : bool :=
  Nat.leb 200 (res_status res) && Nat.leb (res_status res) 299.

(** [Error(`Alpaca error ${res.status}: ${text}`)]. *)
Inductive ClosesError : Type :=
| AlpacaError (status : nat) (text : string).

(** [fetchClosesAlpaca(symbol, env)] (lines 3-26); [fetchBars] is the
    provider answering the request for the bars of [symbol]. *)
Definition fetchClosesAlpaca (fetchBars : string → Env → BarsResponse)
    (symbol : string) (env : Env) : ClosesError + list number :=
  let res := fetchBars symbol env in
  if negb (res_ok res)
  then inl (AlpacaError (res_status res) (res_text res))
  else
    let bars := default [] (data_bars res) in
    inr (c <$> bars).

(** The JSON answer of [GET /test-alpaca] ([src/index.ts], lines 25-32);
    [closes.at(-1)] is [undefined] on an empty array. *)
Module TestAlpaca.
Record t : Type := mk {
  symbol : string;
  lastClose : option number;
  count : nat;
}.
End TestAlpaca.

Definition test_alpaca (fetchBars : string → Env → BarsResponse) (env : Env)
  : ClosesError + TestAlpaca.t :=
  match fetchClosesAlpaca fetchBars "NVDA" env with
  | inl e => inl e
  | inr closes =>
      inr (TestAlpaca.mk "NVDA" (last closes) (length closes))
  end.
(* ===================================================================== *)
(** * Vocabulary of the specification                                     *)
(* ===================================================================== *)

(** A number above zero is positive, finite or infinite. *)
Definition positive_number (x : number) : Prop :=
  match x with
  | S754_finite false _ _ | S754_infinity false => True
  | _ => False
  end.

(** Every threshold of a rule is a finite number. *)
Definition finite_rules (r : Rules) : Prop :=
  (∀ x, below r = Some x → isFinite x = true)
  ∧ (∀ x, above r = Some x → isFinite x = true).

(** ** The condition checks of one symbol as a list

    The loop body calls [tryAlert] up to four times in a fixed order; the
    calls it makes are the elements of [alerts_of]: the key, the value of the
    condition and the message of each. *)
Definition Alert : Type := string * bool * Message.

Definition alerts_of (rules : Rules) (pctThreshold : number) (symbol : string)
    (currentPrice : number) (prevClose : option number) : list Alert :=
  let changePct := changePct_of currentPrice prevClose in
  let msg key level :=
    {| m_key := key; m_symbol := symbol; m_price := currentPrice;
       m_level := level; m_prevClose := prevClose; m_changePct := changePct;
       m_lead := "" |} in
  match below rules with
  | Some level => [("price_below", condPriceBelow rules currentPrice,
                    msg "price_below" level)]
  | None => []
  end ++
  match above rules with
  | Some level => [("price_above", condPriceAbove rules currentPrice,
                    msg "price_above" level)]
  | None => []
  end ++
  [("pct_up", condPctUp changePct pctThreshold, msg "pct_up" pctThreshold);
   ("pct_down", condPctDown changePct pctThreshold, msg "pct_down" pctThreshold)].

Fixpoint run_alerts (tryAlert : string → bool → Message → AlertState → M AlertState)
    (alerts : list Alert) (state : AlertState) : M AlertState :=
  match alerts with
  | [] => mret state
  | (key, cond, message) :: alerts =>
      state ← tryAlert key cond message state;
      run_alerts tryAlert alerts state
  end.

(** The state object after [?? {}] and the two [??= {}] (lines 133-136). *)
Definition init_state (stored : option AlertState) : AlertState :=
  let state := default {| lastSentAt := None; lastCond := None |} stored in
  {| lastSentAt := Some (default ∅ (lastSentAt state));
     lastCond := Some (default ∅ (lastCond state)) |}.

(** ** Outcomes of a computation

    [triple m r Q E]: run from [r], [m] either returns a value and a state
    satisfying [Q] or throws in a state satisfying [E]. *)
Definition triple {A : Type} (m : M A) (r : Run)
    (Q : A → Run → Prop) (E : Run → Prop) : Prop :=
  match m r with
  | (Normal a, r') => Q a r'
  | (Throw _, r') => E r'
  end.

(** [related Rr Ra m1 m2]: from states related by [Rr], [m1] and [m2]
    complete the same way (both return, with values related by [Ra], or both
    throw the same error) in states related by [Rr]. *)
Definition related {A B : Type} (Rr : Run → Run → Prop) (Ra : A → B → Prop)
    (m1 : M A) (m2 : M B) : Prop :=
  ∀ r1 r2, Rr r1 r2 →
    match m1 r1, m2 r2 with
    | (Normal a1, r1'), (Normal a2, r2') => Ra a1 a2 ∧ Rr r1' r2'
    | (Throw e1, r1'), (Throw e2, r2') => e1 = e2 ∧ Rr r1' r2'
    | _, _ => False
    end.

(** The outcome of an attempted delivery followed by [k]. *)
Definition deliver_then `{Builtins} (host : Host) (env : Env) {A : Type}
    (message : Message) (r : Run)
    (k : Run → Completion A * Run) : Completion A * Run :=
  if webhook_missing (DISCORD_WEBHOOK_URL env) then (Throw WebhookMissing, r)
  else if webhookOk host (posts (world r))
       then k (with_world (accepted message) r)
       else (Throw WebhookFailed, with_world refused r).

(** Both dictionaries of the state object are present, as they are after
    the two [??=]. *)
Definition well_formed (state : AlertState) : Prop :=
  is_Some (lastSentAt state) ∧ is_Some (lastCond state).

(** ** What a sequence of condition checks can change

    [fires alerts r r']: the alerts that fired between [r] and [r'], a
    subsequence [fired] of [alerts] whose conditions were all true, account
    for every delivered message, every key pushed on [sentKeys] and the
    increase of [sent]. *)
Definition fires (alerts : list Alert) (r r' : Run) : Prop :=
  ∃ fired : list Alert,
    fired `sublist_of` alerts
    ∧ Forall (λ a : Alert, a.1.2 = true) fired
    ∧ delivered (world r') = delivered (world r) ++ fired.*2
    ∧ sentKeys r' = sentKeys r ++ fired.*1.*1
    ∧ sent r' = (sent r + length fired)%nat.

(** The KV namespace is the same in both states. *)
Definition same_kv (r r' : Run) : Prop :=
  STOCK_STATE (world r') = STOCK_STATE (world r).

(** The condition checks a cycle makes for a symbol: none when the symbol has
    no snapshot or no current price. *)
Definition cycle_alerts (snapshots : gmap string AlpacaSnapshot)
    (priceLevels : gmap string Rules) (pctThreshold : number)
    (symbol : string) : list Alert :=
  match snapshots !! symbol with
  | Some snap =>
      match currentPrice_of snap with
      | Some currentPrice =>
          alerts_of (default no_rules (priceLevels !! symbol)) pctThreshold
            symbol currentPrice (prevClose_of snap)
      | None => []
      end
  | None => []
  end.

(** [sentKeys] as the loop body starts with it. *)
Definition fresh_keys (r : Run) : Run :=
  {| world := world r; sent := sent r; sentKeys := [] |}.


(** ** The configuration of a run

    The values [runAlertsOnce] and [runCron] derive from the environment
    (lines 91-94), and the loop body they iterate. *)
Definition priceLevels_of `{Builtins} (env : Env) : gmap string Rules :=
  parsePriceLevels (default "" (PRICE_LEVELS env)).
Definition pctThreshold_of `{Builtins} (env : Env) : number :=
  Number (Some (default "10" (PCT_THRESHOLD env))).
Definition cooldownMs_of `{Builtins} (env : Env) : number :=
  mul (mul (Number (Some (default "30" (ALERT_COOLDOWN_MINUTES env)))) (ofZ 60))
      (ofZ 1000).

Definition run_step `{Builtins} (host : Host) (env : Env) (opts : option Opts)
    (snapshots : gmap string AlpacaSnapshot)
  : Run * list Detail.t → string → Run * list Detail.t :=
  process_symbol host env opts snapshots
    (priceLevels_of env) (pctThreshold_of env) (cooldownMs_of env).

(** ** Observations of the world *)

(** The delivered messages about a symbol. *)
Definition notified (symbol : string) (w : World) : list Message :=
  filter (λ m, m_symbol m = symbol) (delivered w).

(** The delivered messages about a condition of a symbol. *)
Definition fired (symbol key : string) (w : World) : list Message :=
  filter (λ m, m_symbol m = symbol ∧ m_key m = key) (delivered w).

(** The persisted state of a symbol, read as the evaluator reads it:
    [wasMet] and [lastFiredAt] of a condition, with their defaults. *)
Definition stored (w : World) (symbol : string) : AlertState :=
  default {| lastSentAt := None; lastCond := None |}
          (STOCK_STATE w !! stateKey symbol).
Definition wasMet (w : World) (symbol key : string) : bool :=
  prev_of (stored w symbol) key.
Definition lastFiredAt (w : World) (symbol key : string) : number :=
  last_of (stored w symbol) key.

(** A symbol of the batch for which no current price can be resolved. *)
Definition no_price (snapshots : gmap string AlpacaSnapshot) (symbol : string)
  : Prop :=
  snapshots !! symbol = None
  ∨ ∃ snap, snapshots !! symbol = Some snap
            ∧ latestTrade snap = None ∧ minuteBar snap = None.

(** ** A concrete scenario

    Watchlist [AAPL, TSLA, MSFT]; rule [AAPL: below 170, above 200]; AAPL
    trades at 165 after closing at 200 (so [price_below] and [pct_down]
    hold), TSLA has a snapshot without any price, MSFT has no snapshot;
    percent threshold and cooldown are the defaults. *)
Definition ex_env : Env :=
  {| DISCORD_WEBHOOK_URL := "https://discord.example/webhook";
     ALPACA_API_KEY := "key"; ALPACA_API_SECRET := "secret";
     WATCHLIST := Some "aapl, tsla,msft";
     PRICE_LEVELS := Some "AAPL:below=170,above=200";
     PCT_THRESHOLD := None; ALERT_COOLDOWN_MINUTES := None;
     TRIGGER_TOKEN := "token" |}.

Definition ex_snapshots : gmap string AlpacaSnapshot :=
  {[ "AAPL" := {| latestTrade := Some {| p := ofZ 165; trade_t := "" |};
                  minuteBar := None; dailyBar := None;
                  prevDailyBar := Some {| c := ofZ 200; bar_t := "" |} |};
     "TSLA" := {| latestTrade := None; minuteBar := None; dailyBar := None;
                  prevDailyBar := Some {| c := ofZ 250; bar_t := "" |} |} ]}.

(** The clock starts at [t0] and advances one millisecond per read. *)
Definition ex_t0 : Z := 1700000000000.
Definition ex_host (ok : nat → bool) : Host :=
  {| alpaca := λ _, Some ex_snapshots;
     dateNow := λ n, ofZ (ex_t0 + Z.of_nat n);
     webhookOk := ok |}.

Definition ex_world : World :=
  {| STOCK_STATE := ∅; clock := 0; posts := 0; delivered := [] |}.

Definition ex_force : option Opts := Some {| force := Some true; symbols := None |}.


(** ** Runs that differ in the State Store only *)

(** The world with its KV namespace replaced. *)
Definition with_store (kv : gmap string AlertState) (w : World) : World :=
  {| STOCK_STATE := kv; clock := clock w; posts := posts w;
     delivered := delivered w |}.

(** Two run states that agree on everything but the KV namespace. *)
Definition agree (r1 r2 : Run) : Prop :=
  clock (world r1) = clock (world r2)
  ∧ posts (world r1) = posts (world r2)
  ∧ delivered (world r1) = delivered (world r2)
  ∧ sent r1 = sent r2
  ∧ sentKeys r1 = sentKeys r2.

(** A stored state in which AAPL's [price_below] was met and fired at [ex_t0]. *)
Definition ex_met_store : gmap string AlertState :=
  {[ stateKey "AAPL" :=
       {| lastSentAt := Some {[ "price_below" := ofZ ex_t0 ]};
          lastCond := Some {[ "price_below" := true ]} |} ]}.

(** The normal run of the scenario from [ex_world] with a webhook that
    accepts every POST, its summary and the detail of AAPL. *)
Definition ex_normal_run : Completion Summary.t * World :=
  runAlertsOnce (ex_host (λ _, true)) ex_env None ex_world.
Definition ex_summary : Summary.t :=
  match ex_normal_run.1 with
  | Normal summary => summary
  | Throw _ => Summary.mk false 0 0 []
  end.
Definition ex_detail : Detail.t :=
  default (Detail.mk "" [] None None None None None)
          (head (Summary.details ex_summary)).

(** ** Cycles

    The value of the condition [key] among a list of checks; [None] when
    the condition is not checked. *)
Fixpoint checked (alerts : list Alert) (key : string) : option bool :=
  match alerts with
  | [] => None
  | (k, cond, _) :: alerts =>
      if decide (k = key) then Some cond else checked alerts key
  end.

(** One evaluation cycle of a symbol: an iteration of the loop of [runCron]
    ([cy_scheduled]) or of [runAlertsOnce], with everything the iteration
    depends on. *)
Record Cycle : Type := mkCycle {
  cy_scheduled : bool;
  cy_host : Host;
  cy_env : Env;
  cy_opts : option Opts;
  cy_snapshots : gmap string AlpacaSnapshot;
  cy_priceLevels : gmap string Rules;
  cy_pctThreshold : number;
  cy_cooldownMs : number;
  cy_symbol : string;
}.

(** The cycle evaluates in normal mode. *)
Definition normal (cy : Cycle) : Prop :=
  cy_scheduled cy = true ∨ forced (cy_opts cy) = false.

(** The value of a condition of the cycle's symbol in the cycle. *)
Definition cycle_cond (cy : Cycle) (key : string) : option bool :=
  checked (cycle_alerts (cy_snapshots cy) (cy_priceLevels cy)
             (cy_pctThreshold cy) (cy_symbol cy)) key.

(** The world after a cycle. *)
Definition cycle_step `{Builtins} (w : World) (cy : Cycle) : World :=
  let r := {| world := w; sent := 0; sentKeys := [] |} in
  if cy_scheduled cy
  then world (Cron.process_symbol (cy_host cy) (cy_env cy) (cy_snapshots cy)
                (cy_priceLevels cy) (cy_pctThreshold cy) (cy_cooldownMs cy)
                r (cy_symbol cy))
  else world (process_symbol (cy_host cy) (cy_env cy) (cy_opts cy)
                (cy_snapshots cy) (cy_priceLevels cy) (cy_pctThreshold cy)
                (cy_cooldownMs cy) (r, []) (cy_symbol cy)).1.

(** The world after a sequence of cycles. *)
Definition cycles_run `{Builtins} (w : World) (cycles : list Cycle) : World :=
  foldl cycle_step w cycles.

(** A cycle in which the condition [key] of [symbol] is evaluated false. *)
Definition condition_false (symbol key : string) (cy : Cycle) : Prop :=
  cy_symbol cy = symbol ∧ cycle_cond cy key = Some false.

(** The cycles of a run of [runAlertsOnce] and of [runCron] for a batch of
    snapshots. *)
Definition on_demand_cycles `{Builtins} (host : Host) (env : Env)
    (opts : option Opts) (snapshots : gmap string AlpacaSnapshot) : list Cycle :=
  mkCycle false host env opts snapshots
    (priceLevels_of env) (pctThreshold_of env) (cooldownMs_of env)
  <$> run_symbols env opts.
Definition scheduled_cycles `{Builtins} (host : Host) (env : Env)
    (snapshots : gmap string AlpacaSnapshot) : list Cycle :=
  mkCycle true host env None snapshots
    (priceLevels_of env) (pctThreshold_of env) (cooldownMs_of env)
  <$> watchlist env.

(** Two run states with the same world. *)
Definition same_world (r1 r2 : Run) : Prop := world r1 = world r2.

(** The returned state objects are equal and well formed. *)
Definition same_state (state1 state2 : AlertState) : Prop :=
  state1 = state2 ∧ well_formed state1.


(** ** The texts of the scheduled evaluator

    [as_scheduled m]: the message [runCron] sends for the check whose message
    in [runAlertsOnce] is [m]: the same values, and for [pct_down] the
    heading with its leading space. *)
Definition as_scheduled (m : Message) : Message :=
  {| m_key := m_key m; m_symbol := m_symbol m; m_price := m_price m;
     m_level := m_level m; m_prevClose := m_prevClose m;
     m_changePct := m_changePct m;
     m_lead := if decide (m_key m = "pct_down") then " " else m_lead m |}.

(** The condition checks of [runCron]: those of [runAlertsOnce] with its own
    texts. *)
Definition scheduled_alerts (alerts : list Alert) : list Alert :=
  (λ a : Alert, (a.1, as_scheduled a.2)) <$> alerts.

(** [scheduled_texts base w1 w2]: the worlds have the same KV namespace, the
    same numbers of clock reads and webhook POSTs, and after the messages
    [base] the first has delivered, with the texts of [runCron], the
    messages the second has delivered. *)
Definition scheduled_texts (base : list Message) (w1 w2 : World) : Prop :=
  STOCK_STATE w1 = STOCK_STATE w2
  ∧ clock w1 = clock w2
  ∧ posts w1 = posts w2
  ∧ ∃ new, delivered w2 = base ++ new
           ∧ delivered w1 = base ++ (as_scheduled <$> new).

Definition retexted (base : list Message) (r1 r2 : Run) : Prop :=
  scheduled_texts base (world r1) (world r2).

(** ** The clock read of a check, and aborted cycles

    [checks_before alerts key]: how many checks precede that of [key]. *)
Fixpoint checks_before (alerts : list Alert) (key : string) : nat :=
  match alerts with
  | [] => 0
  | (k, _, _) :: alerts =>
      if decide (k = key) then 0 else S (checks_before alerts key)
  end.

(** Every check reads the clock once, first thing: in a cycle started in
    the world [w], the check of [key] makes the clock read number
    [cycle_read w cy key]. *)
Definition cycle_read (w : World) (cy : Cycle) (key : string) : nat :=
  (clock w
   + checks_before (cycle_alerts (cy_snapshots cy) (cy_priceLevels cy)
                      (cy_pctThreshold cy) (cy_symbol cy)) key)%nat.

(** The outcome of the [try] block of a cycle once the current price is
    known; [None] when the symbol is skipped before. *)
Definition cycle_checks `{Builtins} (w : World) (cy : Cycle)
  : option (Completion unit * Run) :=
  let r := {| world := w; sent := 0; sentKeys := [] |} in
  match cy_snapshots cy !! cy_symbol cy with
  | Some snap =>
      match currentPrice_of snap with
      | Some currentPrice =>
          Some (if cy_scheduled cy
                then Cron.check_conditions (cy_host cy) (cy_env cy)
                       (cy_priceLevels cy) (cy_pctThreshold cy) (cy_cooldownMs cy)
                       (cy_symbol cy) currentPrice (prevClose_of snap) r
                else check_conditions (cy_host cy) (cy_env cy) (cy_opts cy)
                       (cy_priceLevels cy) (cy_pctThreshold cy) (cy_cooldownMs cy)
                       (cy_symbol cy) currentPrice (prevClose_of snap) r)
      | None => None
      end
  | None => None
  end.

(** The cycle is aborted: its [try] block throws and its [catch] runs. *)
Definition cycle_aborted `{Builtins} (w : World) (cy : Cycle) : bool :=
  match cycle_checks w cy with
  | Some (Throw _, _) => true
  | _ => false
  end.


(** ** A suppressed edge in the scenario

    AAPL's [price_below] fired a minute before [ex_t0] and was then recorded
    false; the cycle [ex_cycle] sees it true again, within the cooldown of
    30 minutes.  [ex_refire] is a cycle in which the price is back above the
    level, followed two hours later by one in which it is below again. *)
Definition ex_cooling : World :=
  {| STOCK_STATE :=
       {[ stateKey "AAPL" :=
            {| lastSentAt := Some {[ "price_below" := ofZ (ex_t0 - 60000) ]};
               lastCond := Some {[ "price_below" := false ]} |} ]};
     clock := 0; posts := 0; delivered := [] |}.

Definition ex_cycle_with (host : Host) (snapshots : gmap string AlpacaSnapshot)
  : Cycle :=
  mkCycle false host ex_env None snapshots
    (priceLevels_of ex_env) (pctThreshold_of ex_env) (cooldownMs_of ex_env) "AAPL".

Definition ex_cycle : Cycle := ex_cycle_with (ex_host (λ _, true)) ex_snapshots.

Definition ex_met_world : World := cycle_step ex_cooling ex_cycle.

Definition ex_high_snapshots : gmap string AlpacaSnapshot :=
  {[ "AAPL" := {| latestTrade := Some {| p := ofZ 175; trade_t := "" |};
                  minuteBar := None; dailyBar := None;
                  prevDailyBar := Some {| c := ofZ 180; bar_t := "" |} |} ]}.

Definition ex_late_host : Host :=
  {| alpaca := λ _, Some ex_snapshots;
     dateNow := λ n, ofZ (ex_t0 + 7200000 + Z.of_nat n);
     webhookOk := λ _, true |}.

Definition ex_refire : list Cycle :=
  [ex_cycle_with (ex_host (λ _, true)) ex_high_snapshots;
   ex_cycle_with ex_late_host ex_snapshots].

(** The cycle [ex_cycle] with a webhook that refuses every POST, and the
    same cycle two hours later with a webhook that accepts them. *)
Definition ex_abort_cycle : Cycle := ex_cycle_with (ex_host (λ _, false)) ex_snapshots.
Definition ex_late_cycle : Cycle := ex_cycle_with ex_late_host ex_snapshots.

(** ** Accounting of a run *)

(** The symbol and the condition a message is about. *)
Definition about (m : Message) : string * string := (m_symbol m, m_key m).

(** The notifications a list of details reports: for each detail in order,
    its symbol with each of its sent keys. *)
Definition listed (details : list Detail.t) : list (string * string) :=
  details ≫= λ d, pair (Detail.symbol d) <$> Detail.sent d.

(** ** Settled worlds

    A cycle evaluates a batch under given rules and threshold; a world is
    settled for a symbol when every condition of the symbol that the batch
    makes true is recorded as met. *)
Definition evaluates (snapshots : gmap string AlpacaSnapshot)
    (priceLevels : gmap string Rules) (pctThreshold : number) (cy : Cycle) : Prop :=
  cy_snapshots cy = snapshots ∧ cy_priceLevels cy = priceLevels
  ∧ cy_pctThreshold cy = pctThreshold.

Definition settled (snapshots : gmap string AlpacaSnapshot)
    (priceLevels : gmap string Rules) (pctThreshold : number)
    (symbol : string) (w : World) : Prop :=
  ∀ key,
    checked (cycle_alerts snapshots priceLevels pctThreshold symbol) key = Some true →
    wasMet w symbol key = true.

(** ** Force mode *)

(** The checks whose condition is true, in the order of the checks. *)
Definition true_alerts (alerts : list Alert) : list Alert :=
  filter (λ a : Alert, a.1.2 = true) alerts.

(** A force-mode run of the scenario whose deliveries succeed, and its
    summary. *)
Definition ex_forced_run : Completion Summary.t * World :=
  runAlertsOnce (ex_host (λ _, true)) ex_env ex_force ex_cooling.
Definition ex_forced_summary : Summary.t :=
  match ex_forced_run.1 with
  | Normal summary => summary
  | Throw _ => Summary.mk false 0 0 []
  end.

(** ** A malformed cooldown

    The environment of the scenario with a cooldown that is not a number. *)
Definition ex_malformed_env : Env :=
  {| DISCORD_WEBHOOK_URL := DISCORD_WEBHOOK_URL ex_env;
     ALPACA_API_KEY := ALPACA_API_KEY ex_env;
     ALPACA_API_SECRET := ALPACA_API_SECRET ex_env;
     WATCHLIST := WATCHLIST ex_env;
     PRICE_LEVELS := PRICE_LEVELS ex_env;
     PCT_THRESHOLD := PCT_THRESHOLD ex_env;
     ALERT_COOLDOWN_MINUTES := Some "30m";
     TRIGGER_TOKEN := TRIGGER_TOKEN ex_env |}.

(** ** Runs that reach no webhook *)

(** Between two states no POST was made, nothing was delivered and nothing
    was counted. *)
Definition no_post (r r' : Run) : Prop :=
  posts (world r') = posts (world r)
  ∧ delivered (world r') = delivered (world r)
  ∧ sent r' = sent r.

(** The environment of the scenario with a blank webhook URL. *)
Definition ex_blank_env : Env :=
  {| DISCORD_WEBHOOK_URL := "   ";
     ALPACA_API_KEY := ALPACA_API_KEY ex_env;
     ALPACA_API_SECRET := ALPACA_API_SECRET ex_env;
     WATCHLIST := WATCHLIST ex_env;
     PRICE_LEVELS := PRICE_LEVELS ex_env;
     PCT_THRESHOLD := PCT_THRESHOLD ex_env;
     ALERT_COOLDOWN_MINUTES := ALERT_COOLDOWN_MINUTES ex_env;
     TRIGGER_TOKEN := TRIGGER_TOKEN ex_env |}.

(** ** Soundness of the sent keys

    [condition_holds pctThreshold d key]: the numbers the detail [d] reports
    make the condition [key] true under the rules it reports. *)
Definition condition_holds (pctThreshold : number) (d : Detail.t) (key : string)
  : Prop :=
  ∃ currentPrice prevClose rules,
    Detail.currentPrice d = Some currentPrice
    ∧ Detail.prevClose d = Some prevClose
    ∧ Detail.rules d = Some rules
    ∧ Detail.changePct d = Some (changePct_of currentPrice prevClose)
    ∧ ((key = "price_below"
        ∧ ∃ level, below rules = Some level ∧ le currentPrice level = true)
       ∨ (key = "price_above"
          ∧ ∃ level, above rules = Some level ∧ ge currentPrice level = true)
       ∨ (key = "pct_up"
          ∧ ∃ pct, changePct_of currentPrice prevClose = Some pct
                   ∧ ge pct pctThreshold = true)
       ∨ (key = "pct_down"
          ∧ ∃ pct, changePct_of currentPrice prevClose = Some pct
                   ∧ le pct (neg pctThreshold) = true)).

(** The keys of the four conditions, in the order of their checks. *)
Definition condition_keys : list string :=
  ["price_below"; "price_above"; "pct_up"; "pct_down"].

(** ** The symbols of a request body

    The array [body.symbols] with its elements converted by [String];
    [None] when a conversion throws, [Some None] when the body has no such
    array. *)
Definition body_strings (body : Body) : option (option (list string)) :=
  match body_symbols body with
  | Some elements => Some <$> mapM ToString elements
  | None => Some None
  end.

(** ** Provider answers of the scenario

    A host whose snapshot request fails, and a bars answer with two bars. *)
Definition ex_down_host : Host :=
  {| alpaca := λ _, None;
     dateNow := λ n, ofZ (ex_t0 + Z.of_nat n);
     webhookOk := λ _, true |}.

Definition ex_bars (symbol : string) (env : Env) : BarsResponse :=
  {| res_status := 200; res_text := "";
     data_bars := Some [ {| c := ofZ 120; bar_t := "" |};
                         {| c := ofZ 125; bar_t := "" |} ] |}.
(* ===================================================================== *)
(** * Properties of number comparisons                                    *)
(* ===================================================================== *)

Section NumberFacts.

Lemma gt_zero_positive (x : number) :
  gt x (ofZ 0) = true ↔ positive_number x.
Proof.
  unfold gt, ofZ, SFltb. cbn.
  destruct x as [s|[|]| |[|] m e]; cbn; intuition congruence.
Qed.

Lemma gt_zero_truthy (x : number) : gt x (ofZ 0) = true → truthy x = true.
Proof.
  intros Hx. apply gt_zero_positive in Hx.
  destruct x as [s|[|]| |[|] m e]; cbn in *; tauto.
Qed.

(** Exchanging the operands of a comparison exchanges [Lt] and [Gt]. *)
Lemma SFcompare_swap (x y : number) :
  SFcompare y x = option_map CompOpp (SFcompare x y).
Proof.
  destruct x as [sx|sx| |sx mx ex], y as [sy|sy| |sy my ey]; cbn;
    try reflexivity;
    try (destruct sx; reflexivity); try (destruct sy; reflexivity);
    try (destruct sx, sy; reflexivity).
  destruct sx, sy; cbn; try reflexivity;
    rewrite (Z.compare_antisym ey ex);
    destruct (ey ?= ex) eqn:E; cbn; try reflexivity;
    rewrite (Pos.compare_cont_antisym mx my Eq); cbn;
    try rewrite CompOpp_involutive; reflexivity.
Qed.

(** [x < y] excludes [x >= y]. *)
Lemma lt_not_ge (x y : number) : lt x y = true → ge x y = false.
Proof.
  unfold lt, ge, SFltb, SFleb. rewrite (SFcompare_swap x y).
  destruct (SFcompare x y) as [[| |]|]; cbn; congruence.
Qed.

(** A number at least a positive one is positive. *)
Lemma ge_positive (x t : number) :
  positive_number t → ge x t = true → positive_number x.
Proof.
  unfold ge, SFleb.
  destruct t as [s|[|]| |[|] m e]; cbn; try tauto; intros _;
    destruct x as [sx|[|]| |[|] mx ex]; cbn; congruence || tauto.
Qed.

(** A positive number is not at most the opposite of a positive one. *)
Lemma positive_not_le_neg (x t : number) :
  positive_number t → positive_number x → le x (neg t) = false.
Proof.
  unfold le, SFleb.
  destruct t as [s|[|]| |[|] m e]; cbn; try tauto; intros _;
    destruct x as [sx|[|]| |[|] mx ex]; cbn; tauto || reflexivity.
Qed.

End NumberFacts.

(* ===================================================================== *)
(** * Percent change and the percent conditions                           *)
(* ===================================================================== *)

Lemma changePct_of_gt (currentPrice : number) (prevClose : option number) :
  changePct_of currentPrice prevClose =
    match prevClose with
    | Some v =>
        if gt v (ofZ 0)
        then Some (mul (div (sub currentPrice v) v) (ofZ 100))
        else None
    | None => None
    end.
Proof.
  destruct prevClose as [v|]; [|reflexivity]. unfold changePct_of.
  destruct (gt v (ofZ 0)) eqn:Hv.
  - now rewrite (gt_zero_truthy v Hv).
  - now rewrite andb_false_r.
Qed.

(** C6. [changePct] is [(currentPrice - prevClose) / prevClose * 100]
    exactly when [prevClose] is present and above zero, and is absent
    otherwise, in which case both percent conditions are false; with
    [currentPrice = 110] and [prevClose = 100] it is exactly [10], which
    with [pctThreshold = 10] makes [pct_up] true (the bound is inclusive)
    and [pct_down] false. *)
Theorem changePct_computation :
  (∀ currentPrice prevClose,
     changePct_of currentPrice prevClose =
       match prevClose with
       | Some v =>
           if gt v (ofZ 0)
           then Some (mul (div (sub currentPrice v) v) (ofZ 100))
           else None
       | None => None
       end)
  ∧ (∀ currentPrice prevClose pctThreshold,
       changePct_of currentPrice prevClose = None →
       condPctUp (changePct_of currentPrice prevClose) pctThreshold = false
       ∧ condPctDown (changePct_of currentPrice prevClose) pctThreshold = false)
  ∧ changePct_of (ofZ 110) (Some (ofZ 100)) = Some (ofZ 10)
  ∧ condPctUp (changePct_of (ofZ 110) (Some (ofZ 100))) (ofZ 10) = true
  ∧ condPctDown (changePct_of (ofZ 110) (Some (ofZ 100))) (ofZ 10) = false.
Proof.
  split; [exact changePct_of_gt|].
  split; [intros cp pc t ->; split; reflexivity|].
  repeat split; vm_compute; reflexivity.
Qed.

Lemma changePct_computation_witness :
  changePct_of (ofZ 110) (Some (ofZ 0)) = None
  ∧ condPctUp (changePct_of (ofZ 110) (Some (ofZ 0))) (ofZ 10) = false
  ∧ condPctDown (changePct_of (ofZ 110) (Some (ofZ 0))) (ofZ 10) = false.
Proof.
  split; [reflexivity|].
  apply (proj1 (proj2 changePct_computation) (ofZ 110) (Some (ofZ 0)) (ofZ 10)).
  reflexivity.
Defined.

Lemma pct_conditions_exclusive (changePct : option number) (pctThreshold : number) :
  gt pctThreshold (ofZ 0) = true →
  condPctUp changePct pctThreshold = true →
  condPctDown changePct pctThreshold = true → False.
Proof.
  intros Ht Hup Hdown. apply gt_zero_positive in Ht.
  destruct changePct as [x|]; cbn in *; [|discriminate].
  pose proof (ge_positive x pctThreshold Ht Hup) as Hx.
  rewrite (positive_not_le_neg x pctThreshold Ht Hx) in Hdown. discriminate.
Qed.

(* ===================================================================== *)
(** * The rule parser                                                     *)
(* ===================================================================== *)

Section ParserFacts.
Context `{Builtins}.

(** An entry either leaves the mapping as it is or binds one symbol; what it
    binds does not depend on the mapping it is applied to. *)
Lemma parse_entry_lookup (out : gmap string Rules) (chunk sym : string) :
  parse_entry out chunk !! sym =
    match parse_entry ∅ chunk !! sym with
    | Some r => Some r
    | None => out !! sym
    end.
Proof.
  unfold parse_entry.
  destruct (negb (nonempty (trim chunk))); [now rewrite lookup_empty|].
  destruct (split ":" (trim chunk) !! 1%nat) as [rulesRaw|];
    [|now rewrite lookup_empty].
  destruct (negb (nonempty _) || negb (nonempty rulesRaw));
    [now rewrite lookup_empty|].
  set (symbol := toUpperCase _). set (rules := foldl _ _ _).
  destruct (decide (symbol = sym)) as [->|Hne].
  - now rewrite !lookup_insert_eq.
  - rewrite !lookup_insert_ne by done. now rewrite lookup_empty.
Qed.

Lemma foldl_parse_entry_skip (l : list string) (out : gmap string Rules) (sym : string) :
  (∀ chunk, chunk ∈ l → parse_entry ∅ chunk !! sym = None) →
  foldl parse_entry out l !! sym = out !! sym.
Proof.
  revert out. induction l as [|chunk l IH]; intros out Hl; [reflexivity|].
  cbn. rewrite IH by (intros ? ?; apply Hl; now right).
  rewrite parse_entry_lookup, Hl by now left. reflexivity.
Qed.

Lemma parse_clause_finite (rules : Rules) (kv : string) :
  finite_rules rules → finite_rules (parse_clause rules kv).
Proof.
  unfold parse_clause. intros [Hb Ha].
  destruct (isFinite (Number _)) eqn:Hfin; cbn; [|now split].
  repeat case_decide; split; cbn; intros x Hx;
    try (injection Hx as <-; assumption); auto.
Qed.

Lemma foldl_parse_clause_finite (l : list string) (rules : Rules) :
  finite_rules rules → finite_rules (foldl parse_clause rules l).
Proof.
  revert rules. induction l as [|kv l IH]; intros rules Hr; [assumption|].
  cbn. apply IH, parse_clause_finite, Hr.
Qed.

Lemma parse_entry_finite (out : gmap string Rules) (chunk : string) :
  map_Forall (λ _, finite_rules) out →
  map_Forall (λ _, finite_rules) (parse_entry out chunk).
Proof.
  intros Hout. unfold parse_entry.
  destruct (negb (nonempty (trim chunk))); [assumption|].
  destruct (split ":" (trim chunk) !! 1%nat) as [rulesRaw|]; [|assumption].
  destruct (negb (nonempty _) || negb (nonempty rulesRaw)); [assumption|].
  apply map_Forall_insert_2; [|assumption].
  apply foldl_parse_clause_finite. split; intros x; discriminate.
Qed.

Lemma parsePriceLevels_finite (input : string) :
  map_Forall (λ _, finite_rules) (parsePriceLevels input).
Proof.
  unfold parsePriceLevels.
  destruct (negb (nonempty input) || String.eqb (trim input) "");
    [apply map_Forall_empty|].
  generalize (split ";" input). intros l.
  assert (Hinit : map_Forall (λ _ : string, finite_rules) ∅)
    by apply map_Forall_empty.
  revert Hinit. generalize (∅ : gmap string Rules).
  induction l as [|chunk l IH]; intros out Hout; [assumption|].
  cbn. apply IH, parse_entry_finite, Hout.
Qed.

End ParserFacts.

(** C7. On the reference string the parser returns the two expected rules;
    on every input, with whatever string builtins, it returns a mapping, and
    every threshold in it is finite: a clause whose value is not a finite
    number is dropped (for instance [below=abc] and [above=Infinity]). *)
Theorem parsePriceLevels_reference_and_total :
  parsePriceLevels "AAPL:below=170,above=200;TSLA:below=180"
  = {[ "AAPL" := {| below := Some (ofZ 170); above := Some (ofZ 200) |};
       "TSLA" := {| below := Some (ofZ 180); above := None |} ]}
  ∧ parsePriceLevels "AAPL:below=abc,above=Infinity;TSLA:below=180"
    = {[ "AAPL" := no_rules;
         "TSLA" := {| below := Some (ofZ 180); above := None |} ]}
  ∧ ∀ (builtins : Builtins) (input : string),
      ∃ out : gmap string Rules,
        parsePriceLevels input = out
        ∧ ∀ symbol rules, out !! symbol = Some rules → finite_rules rules.
Proof.
  split; [vm_compute; reflexivity|].
  split; [vm_compute; reflexivity|].
  intros builtins input. eexists. split; [reflexivity|].
  intros symbol rules Hr. exact (parsePriceLevels_finite input symbol rules Hr).
Qed.

Lemma parsePriceLevels_reference_and_total_witness :
  parsePriceLevels "AAPL:below=1e999,above=5" !! "AAPL"
  = Some {| below := None; above := Some (ofZ 5) |}
  ∧ finite_rules {| below := None; above := Some (ofZ 5) |}.
Proof.
  split; [vm_compute; reflexivity|].
  destruct (proj2 (proj2 parsePriceLevels_reference_and_total) ascii_builtins
              "AAPL:below=1e999,above=5") as (out & Hout & Hfinite).
  apply (Hfinite "AAPL"). rewrite <- Hout. vm_compute. reflexivity.
Defined.

(** The claim of a per-key merge across entries fails: the second entry of
    ["AAPL:below=170;AAPL:above=200"] replaces the first, and [below] is
    lost. *)
Lemma parsePriceLevels_no_merge :
  parsePriceLevels "AAPL:below=170;AAPL:above=200"
  ≠ {[ "AAPL" := {| below := Some (ofZ 170); above := Some (ofZ 200) |} ]}.
Proof.
  intros Heq.
  assert (Hl : parsePriceLevels "AAPL:below=170;AAPL:above=200" !! "AAPL"
               = Some {| below := Some (ofZ 170); above := Some (ofZ 200) |})
    by (rewrite Heq; vm_compute; reflexivity).
  vm_compute in Hl. discriminate Hl.
Qed.

(** C3 (amended). When a symbol appears in several entries, the mapping holds
    for it the rules of the last entry that binds it, and nothing else: the
    later entry replaces the earlier one as a whole, so a key that only an
    earlier entry defines is absent (["AAPL:below=170;AAPL:above=200"] yields
    [{AAPL: {above: 200}}]). *)
Theorem parsePriceLevels_last_entry_wins :
  (∀ (builtins : Builtins) (input : string) (before after : list string)
     (chunk symbol : string) (rules : Rules),
     input ≠ "" → trim input ≠ "" →
     split ";" input = before ++ chunk :: after →
     parse_entry ∅ chunk !! symbol = Some rules →
     (∀ later, later ∈ after → parse_entry ∅ later !! symbol = None) →
     parsePriceLevels input !! symbol = Some rules)
  ∧ parsePriceLevels "AAPL:below=170;AAPL:above=200"
    = {[ "AAPL" := {| below := None; above := Some (ofZ 200) |} ]}.
Proof.
  split; [|vm_compute; reflexivity].
  intros builtins input before after chunk symbol rules
    Hinput Htrim Hsplit Hchunk Hafter.
  unfold parsePriceLevels.
  assert (Hne : nonempty input = true) by (now destruct input).
  rewrite Hne. cbn [negb orb].
  destruct (String.eqb_spec (trim input) "") as [Heq|_]; [contradiction|].
  rewrite Hsplit, foldl_app. cbn [foldl].
  rewrite foldl_parse_entry_skip by assumption.
  rewrite parse_entry_lookup, Hchunk. reflexivity.
Qed.

Lemma parsePriceLevels_last_entry_wins_witness :
  parsePriceLevels "AAPL:below=170;AAPL:above=200" !! "AAPL"
  = Some {| below := None; above := Some (ofZ 200) |}.
Proof.
  apply (proj1 parsePriceLevels_last_entry_wins ascii_builtins
           "AAPL:below=170;AAPL:above=200" ["AAPL:below=170"] []
           "AAPL:above=200" "AAPL").
  - discriminate.
  - vm_compute. discriminate.
  - reflexivity.
  - vm_compute. reflexivity.
  - intros later Hin. inversion Hin.
Defined.

(* ===================================================================== *)
(** * Reasoning about computations                                        *)
(* ===================================================================== *)

Section Triples.
Context {A B : Type}.

Lemma triple_ret (a : A) (r : Run) (Q : A → Run → Prop) (E : Run → Prop) :
  Q a r → triple (mret a) r Q E.
Proof. intros HQ. exact HQ. Qed.

Lemma triple_throw (e : Error) (r : Run) (Q : A → Run → Prop) (E : Run → Prop) :
  E r → triple (throw e) r Q E.
Proof. intros HE. exact HE. Qed.

Lemma triple_bind (m : M A) (f : A → M B) (r : Run)
    (Q : B → Run → Prop) (E : Run → Prop) :
  triple m r (λ a r', triple (f a) r' Q E) E → triple (m ≫= f) r Q E.
Proof.
  unfold triple, mbind, M_bind. destruct (m r) as [[a|e] r']; auto.
Qed.

Lemma triple_mono (m : M A) (r : Run)
    (Q Q' : A → Run → Prop) (E E' : Run → Prop) :
  triple m r Q E →
  (∀ a r', Q a r' → Q' a r') → (∀ r', E r' → E' r') →
  triple m r Q' E'.
Proof.
  unfold triple. destruct (m r) as [[a|e] r']; auto.
Qed.

End Triples.

Section Related.
Context {A1 A2 B1 B2 : Type} (Rr : Run → Run → Prop).

Lemma related_ret (Ra : A1 → A2 → Prop) (a1 : A1) (a2 : A2) :
  Ra a1 a2 → related Rr Ra (mret a1) (mret a2).
Proof. intros Ha r1 r2 Hr. split; assumption. Qed.

Lemma related_throw (Ra : A1 → A2 → Prop) (e : Error) :
  related Rr Ra (throw e) (throw e).
Proof. intros r1 r2 Hr. split; [reflexivity|assumption]. Qed.

Lemma related_bind (Ra : A1 → A2 → Prop) (Rb : B1 → B2 → Prop)
    (m1 : M A1) (m2 : M A2) (f1 : A1 → M B1) (f2 : A2 → M B2) :
  related Rr Ra m1 m2 →
  (∀ a1 a2, Ra a1 a2 → related Rr Rb (f1 a1) (f2 a2)) →
  related Rr Rb (m1 ≫= f1) (m2 ≫= f2).
Proof.
  intros Hm Hf r1 r2 Hr. specialize (Hm r1 r2 Hr).
  unfold mbind, M_bind.
  destruct (m1 r1) as [[a1|e1] r1'], (m2 r2) as [[a2|e2] r2']; try tauto.
  destruct Hm as [Ha Hr']. exact (Hf a1 a2 Ha r1' r2' Hr').
Qed.

End Related.

(* ===================================================================== *)
(** * The loop body as a list of condition checks                         *)
(* ===================================================================== *)

Ltac step_alert :=
  match goal with
  | |- context [tryAlert ?h ?e ?o ?cd ?k ?c ?m ?s ?r] =>
      destruct (tryAlert h e o cd k c m s r) as [[?|?] ?]; cbn
  | |- context [Cron.tryAlert ?h ?e ?cd ?k ?c ?m ?s ?r] =>
      destruct (Cron.tryAlert h e cd k c m s r) as [[?|?] ?]; cbn
  end.

Section AlertList.
Context `{Builtins} (host : Host) (env : Env) (opts : option Opts).

Lemma check_conditions_alerts (priceLevels : gmap string Rules)
    (pctThreshold cooldownMs : number) (symbol : string)
    (currentPrice : number) (prevClose : option number) (r : Run) :
  check_conditions host env opts priceLevels pctThreshold cooldownMs symbol
    currentPrice prevClose r
  = (stored ← kv_get (stateKey symbol);
     state ← run_alerts (tryAlert host env opts cooldownMs)
               (alerts_of (default no_rules (priceLevels !! symbol))
                  pctThreshold symbol currentPrice prevClose)
               (init_state stored);
     if negb (forced opts) then kv_put (stateKey symbol) state else mret tt) r.
Proof.
  unfold check_conditions, alerts_of, init_state.
  unfold mbind, M_bind, kv_get, gets. cbn.
  destruct (below _), (above _); cbn; unfold mbind, M_bind; cbn;
    repeat step_alert; reflexivity.
Qed.

(** The checks of [runCron], written out. *)
Lemma scheduled_alerts_of (rules : Rules) (pctThreshold : number)
    (symbol : string) (currentPrice : number) (prevClose : option number) :
  scheduled_alerts (alerts_of rules pctThreshold symbol currentPrice prevClose)
  = let changePct := changePct_of currentPrice prevClose in
    let msg lead key level :=
      {| m_key := key; m_symbol := symbol; m_price := currentPrice;
         m_level := level; m_prevClose := prevClose; m_changePct := changePct;
         m_lead := lead |} in
    match below rules with
    | Some level => [("price_below", condPriceBelow rules currentPrice,
                      msg "" "price_below" level)]
    | None => []
    end ++
    match above rules with
    | Some level => [("price_above", condPriceAbove rules currentPrice,
                      msg "" "price_above" level)]
    | None => []
    end ++
    [("pct_up", condPctUp changePct pctThreshold, msg "" "pct_up" pctThreshold);
     ("pct_down", condPctDown changePct pctThreshold,
      msg " " "pct_down" pctThreshold)].
Proof.
  unfold scheduled_alerts, alerts_of.
  destruct (below rules), (above rules); reflexivity.
Qed.

Lemma cron_check_conditions_alerts (priceLevels : gmap string Rules)
    (pctThreshold cooldownMs : number) (symbol : string)
    (currentPrice : number) (prevClose : option number) (r : Run) :
  Cron.check_conditions host env priceLevels pctThreshold cooldownMs symbol
    currentPrice prevClose r
  = (stored ← kv_get (stateKey symbol);
     state ← run_alerts (Cron.tryAlert host env cooldownMs)
               (scheduled_alerts
                  (alerts_of (default no_rules (priceLevels !! symbol))
                     pctThreshold symbol currentPrice prevClose))
               (init_state stored);
     kv_put (stateKey symbol) state) r.
Proof.
  rewrite scheduled_alerts_of. unfold Cron.check_conditions, init_state.
  unfold mbind, M_bind, kv_get, gets. cbn.
  destruct (below _), (above _); cbn; unfold mbind, M_bind; cbn;
    repeat step_alert; reflexivity.
Qed.

End AlertList.

(* ===================================================================== *)
(** * What one call of [tryAlert] does                                    *)
(* ===================================================================== *)

Section TryAlert.
Context `{Builtins} (host : Host) (env : Env) (opts : option Opts).

Lemma sendDiscord_bind {A : Type} (message : Message) (f : unit → M A) (r : Run) :
  (sendDiscord host (DISCORD_WEBHOOK_URL env) message ≫= f) r
  = deliver_then host env message r (f tt).
Proof.
  unfold deliver_then, sendDiscord, mbind, M_bind.
  destruct (webhook_missing _); [reflexivity|].
  destruct (webhookOk _ _); reflexivity.
Qed.

(** Normal mode: the rising-edge test decides the delivery, and the
    condition is recorded whether or not it fired. *)
Lemma tryAlert_normal (cooldownMs : number) (key : string) (cond : bool)
    (message : Message) (state : AlertState)
    (ms : gmap string number) (mc : gmap string bool) (r : Run) :
  forced opts = false →
  lastSentAt state = Some ms → lastCond state = Some mc →
  tryAlert host env opts cooldownMs key cond message state r =
    let now := dateNow host (clock (world r)) in
    if cond && negb (prev_of state key) && ge (sub now (last_of state key)) cooldownMs
    then deliver_then host env message (with_world tick r) (λ r',
           (Normal {| lastSentAt := Some (<[key := now]> ms);
                      lastCond := Some (<[key := cond]> mc) |},
            counted key r'))
    else (Normal {| lastSentAt := Some ms; lastCond := Some (<[key := cond]> mc) |},
          with_world tick r).
Proof.
  intros Hf Hms Hmc. unfold tryAlert. rewrite Hf.
  unfold mbind at 1. unfold M_bind at 1. unfold DateNow at 1. cbn zeta.
  destruct (cond && negb (prev_of state key) && ge _ _).
  - unfold mbind at 1. unfold M_bind at 1. rewrite sendDiscord_bind.
    unfold deliver_then.
    destruct (webhook_missing _); [reflexivity|].
    destruct (webhookOk _ _); [|reflexivity].
    unfold set_lastSentAt, set_lastCond. rewrite Hms.
    unfold mbind, M_bind, mret, M_ret, count_sent, modify. cbn.
    rewrite Hmc. reflexivity.
  - unfold set_lastCond, mbind, M_bind, mret, M_ret. cbn.
    rewrite Hmc, Hms. reflexivity.
Qed.

(** Force mode: the condition alone decides the delivery, and the state
    object is returned as it was passed. *)
Lemma tryAlert_forced (cooldownMs : number) (key : string) (cond : bool)
    (message : Message) (state : AlertState) (r : Run) :
  forced opts = true →
  tryAlert host env opts cooldownMs key cond message state r =
    if cond
    then deliver_then host env message (with_world tick r) (λ r', (Normal state, counted key r'))
    else (Normal state, with_world tick r).
Proof.
  intros Hf. unfold tryAlert. rewrite Hf.
  unfold mbind at 1. unfold M_bind at 1. unfold DateNow at 1. cbn zeta.
  destruct cond; [|reflexivity].
  unfold mbind at 1. unfold M_bind at 1.
  rewrite sendDiscord_bind. unfold deliver_then.
  destruct (webhook_missing _); [reflexivity|].
  destruct (webhookOk _ _); reflexivity.
Qed.

(** The scheduled evaluator's [tryAlert] is the normal mode without the
    counter. *)
Lemma cron_tryAlert (cooldownMs : number) (key : string) (cond : bool)
    (message : Message) (state : AlertState)
    (ms : gmap string number) (mc : gmap string bool) (r : Run) :
  lastSentAt state = Some ms → lastCond state = Some mc →
  Cron.tryAlert host env cooldownMs key cond message state r =
    let now := dateNow host (clock (world r)) in
    if cond && negb (prev_of state key) && ge (sub now (last_of state key)) cooldownMs
    then deliver_then host env message (with_world tick r) (λ r',
           (Normal {| lastSentAt := Some (<[key := now]> ms);
                      lastCond := Some (<[key := cond]> mc) |}, r'))
    else (Normal {| lastSentAt := Some ms; lastCond := Some (<[key := cond]> mc) |},
          with_world tick r).
Proof.
  intros Hms Hmc. unfold Cron.tryAlert. cbn zeta.
  unfold mbind at 1. unfold M_bind at 1. unfold DateNow at 1.
  destruct (cond && negb (prev_of state key) && ge _ _).
  - unfold mbind at 1. unfold M_bind at 1. rewrite sendDiscord_bind.
    unfold deliver_then.
    destruct (webhook_missing _); [reflexivity|].
    destruct (webhookOk _ _); [|reflexivity].
    unfold set_lastSentAt, set_lastCond. rewrite Hms.
    unfold mbind, M_bind, mret, M_ret. cbn.
    rewrite Hmc. reflexivity.
  - unfold set_lastCond, mbind, M_bind, mret, M_ret. cbn.
    rewrite Hmc, Hms. reflexivity.
Qed.

End TryAlert.

(* ===================================================================== *)
(** * Effects of the condition checks                                     *)
(* ===================================================================== *)

Section Effects.
Context `{Builtins} (host : Host) (env : Env) (opts : option Opts).

Lemma fires_refl (alerts : list Alert) (r r' : Run) :
  delivered (world r') = delivered (world r) →
  sentKeys r' = sentKeys r → sent r' = sent r →
  fires alerts r r'.
Proof.
  intros Hd Hk Hs. exists []. cbn. rewrite !app_nil_r, Nat.add_0_r.
  repeat split; auto using sublist_nil_l.
Qed.

Lemma fires_cons (a : Alert) (alerts : list Alert) (r1 r2 r3 : Run) :
  fires [a] r1 r2 → fires alerts r2 r3 → fires (a :: alerts) r1 r3.
Proof.
  intros (f1 & Hsub1 & Hc1 & Hd1 & Hk1 & Hs1)
         (f2 & Hsub2 & Hc2 & Hd2 & Hk2 & Hs2).
  exists (f1 ++ f2). repeat split.
  - change (a :: alerts) with ([a] ++ alerts). now apply sublist_app.
  - now apply Forall_app.
  - rewrite Hd2, Hd1, fmap_app, app_assoc. reflexivity.
  - rewrite Hk2, Hk1, !fmap_app, app_assoc. reflexivity.
  - rewrite Hs2, Hs1, length_app. lia.
Qed.

Lemma fires_weaken (a : Alert) (alerts : list Alert) (r r' : Run) :
  fires [a] r r' → fires (a :: alerts) r r'.
Proof.
  intros (f & Hsub & Hrest). exists f. split; [|exact Hrest].
  change (a :: alerts) with ([a] ++ alerts).
  now apply sublist_inserts_r.
Qed.

Lemma init_state_well_formed (stored : option AlertState) :
  well_formed (init_state stored).
Proof. split; eexists; reflexivity. Qed.

(** One call of [tryAlert], in either mode, fires its own alert or nothing,
    and does not write the KV namespace. *)
Lemma tryAlert_effects (cooldownMs : number) (key : string) (cond : bool)
    (message : Message) (state : AlertState) (r : Run) :
  well_formed state →
  triple (tryAlert host env opts cooldownMs key cond message state) r
    (λ state' r', well_formed state' ∧ same_kv r r'
                  ∧ fires [(key, cond, message)] r r')
    (λ r', same_kv r r' ∧ fires [(key, cond, message)] r r').
Proof.
  intros [[ms Hms] [mc Hmc]].
  assert (Hfire : cond = true → ∀ r',
            delivered (world r') = delivered (world r) ++ [message] →
            sentKeys r' = sentKeys r ++ [key] → sent r' = S (sent r) →
            fires [(key, cond, message)] r r').
  { intros Hc r' Hd Hk Hs. exists [(key, cond, message)]. cbn.
    split; [reflexivity|]. split; [repeat constructor; assumption|].
    repeat split; auto. lia. }
  unfold triple, same_kv. destruct (forced opts) eqn:Hf.
  - rewrite tryAlert_forced by assumption. unfold deliver_then.
    destruct cond; cbn;
      try destruct (webhook_missing _); cbn;
      try destruct (webhookOk _ _); cbn;
      repeat split; eauto;
      first [ now apply fires_refl | now apply Hfire ].
  - rewrite (tryAlert_normal host env opts cooldownMs key cond message state ms mc)
      by assumption.
    unfold deliver_then. cbn zeta.
    destruct cond; cbn;
      destruct (prev_of state key); cbn;
      try destruct (ge _ _); cbn;
      try destruct (webhook_missing _); cbn;
      try destruct (webhookOk _ _); cbn;
      repeat split; eauto;
      first [ now apply fires_refl | now apply Hfire ].
Qed.

Lemma run_alerts_effects (cooldownMs : number) (alerts : list Alert)
    (state : AlertState) (r : Run) :
  well_formed state →
  triple (run_alerts (tryAlert host env opts cooldownMs) alerts state) r
    (λ state' r', well_formed state' ∧ same_kv r r' ∧ fires alerts r r')
    (λ r', same_kv r r' ∧ fires alerts r r').
Proof.
  revert state r. induction alerts as [|[[key cond] message] alerts IH];
    intros state r Hwf.
  - apply triple_ret. repeat split; [apply Hwf..|]. now apply fires_refl.
  - cbn [run_alerts]. apply triple_bind.
    eapply triple_mono; [now apply tryAlert_effects| |].
    + intros state' r' (Hwf' & Hkv & He). cbn beta.
      eapply triple_mono; [now apply IH| |]; cbn beta.
      * intros state'' r'' (Hwf'' & Hkv' & He'). split; [assumption|].
        split; [unfold same_kv in *; congruence|].
        eapply fires_cons; eassumption.
      * intros r'' [Hkv' He']. split; [unfold same_kv in *; congruence|].
        eapply fires_cons; eassumption.
    + intros r' [Hkv He]. split; [assumption|]. now apply fires_weaken.
Qed.

(** The condition checks of one symbol: the alerts fire as above; the state
    of the symbol is written once, at the end, in normal mode, and not at all
    when an exception is thrown. *)
Lemma check_conditions_effects (priceLevels : gmap string Rules)
    (pctThreshold cooldownMs : number) (symbol : string)
    (currentPrice : number) (prevClose : option number) (r : Run) :
  let alerts := alerts_of (default no_rules (priceLevels !! symbol))
                  pctThreshold symbol currentPrice prevClose in
  triple (check_conditions host env opts priceLevels pctThreshold cooldownMs
            symbol currentPrice prevClose) r
    (λ _ r', fires alerts r r'
             ∧ if forced opts then same_kv r r'
               else ∃ state, well_formed state
                      ∧ STOCK_STATE (world r')
                        = <[stateKey symbol := state]> (STOCK_STATE (world r)))
    (λ r', fires alerts r r' ∧ same_kv r r').
Proof.
  intros alerts. unfold triple. rewrite check_conditions_alerts.
  fold alerts. unfold mbind at 1. unfold M_bind at 1. unfold kv_get, gets.
  unfold mbind at 1. unfold M_bind at 1.
  pose proof (run_alerts_effects cooldownMs alerts
                (init_state (STOCK_STATE (world r) !! stateKey symbol)) r
                (init_state_well_formed _)) as Hrun.
  unfold triple in Hrun.
  destruct (run_alerts _ _ _ r) as [[state|e] r1].
  - destruct Hrun as (Hwf & Hkv & Hf).
    destruct (forced opts); cbn.
    + split; assumption.
    + split.
      * destruct Hf as (f & ? & ? & ? & ? & ?). exists f. cbn. auto.
      * exists state. split; [assumption|]. cbn. now rewrite Hkv.
  - destruct Hrun as [Hkv Hf]. split; assumption.
Qed.

End Effects.

(* ===================================================================== *)
(** * One iteration of the loop                                           *)
(* ===================================================================== *)

Section ProcessSymbol.
Context `{Builtins} (host : Host) (env : Env) (opts : option Opts).
Context (snapshots : gmap string AlpacaSnapshot) (priceLevels : gmap string Rules).
Context (pctThreshold cooldownMs : number).

Abbreviation process :=
  (process_symbol host env opts snapshots priceLevels pctThreshold cooldownMs).
Abbreviation alerts_for := (cycle_alerts snapshots priceLevels pctThreshold).

(** A symbol without a current price is skipped with a note and no effect. *)
Lemma process_symbol_skip (r : Run) (details : list Detail.t) (symbol : string) :
  alerts_for symbol = [] →
  ∃ d, process (r, details) symbol = (fresh_keys r, details ++ [d])
       ∧ Detail.symbol d = symbol ∧ Detail.sent d = []
       ∧ Detail.note d
         = Some (match snapshots !! symbol with
                 | None => "no snapshot"
                 | Some _ => "no current price"
                 end).
Proof.
  unfold cycle_alerts, process_symbol.
  destruct (snapshots !! symbol) as [snap|]; [|intros _; eexists; now repeat split].
  destruct (currentPrice_of snap) as [currentPrice|];
    [|intros _; eexists; now repeat split].
  unfold alerts_of. intros Hnil. apply app_eq_nil in Hnil as [_ Hnil].
  apply app_eq_nil in Hnil as [_ Hnil]. discriminate.
Qed.

(** Every iteration pushes one detail for its symbol; the alerts it fires
    are among the symbol's condition checks; it writes at most the state of
    its symbol, and nothing in force mode or when it notes an error. *)
Lemma process_symbol_effects (r : Run) (details : list Detail.t) (symbol : string) :
  ∃ r' d,
    process (r, details) symbol = (r', details ++ [d])
    ∧ Detail.symbol d = symbol
    ∧ Detail.sent d = sentKeys r'
    ∧ fires (alerts_for symbol) (fresh_keys r) r'
    ∧ (forced opts = true → same_kv r r')
    ∧ (Detail.note d ≠ None → same_kv r r')
    ∧ (∀ key, key ≠ stateKey symbol →
         STOCK_STATE (world r') !! key = STOCK_STATE (world r) !! key).
Proof.
  destruct (alerts_for symbol) as [|a alerts] eqn:Halerts.
  { destruct (process_symbol_skip r details symbol Halerts) as (d & -> & Hs & Hk & Hn).
    exists (fresh_keys r), d. repeat split; auto.
    now apply fires_refl. }
  rewrite <- Halerts. clear a alerts Halerts.
  unfold cycle_alerts, process_symbol.
  destruct (snapshots !! symbol) as [snap|];
    [|eexists _, _; repeat split; auto; now apply fires_refl].
  destruct (currentPrice_of snap) as [currentPrice|];
    [|eexists _, _; repeat split; auto; now apply fires_refl].
  pose proof (check_conditions_effects host env opts priceLevels pctThreshold
                cooldownMs symbol currentPrice (prevClose_of snap) (fresh_keys r))
    as Hcheck.
  cbn zeta in Hcheck. unfold triple in Hcheck.
  change {| world := world r; sent := sent r; sentKeys := [] |} with (fresh_keys r).
  destruct (check_conditions _ _ _ _ _ _ _ _ _ (fresh_keys r)) as [[[]|e] r'].
  - destruct Hcheck as [Hf Hkv]. eexists _, _. split; [reflexivity|].
    cbn. repeat split; auto.
    + intros Hforced. rewrite Hforced in Hkv. exact Hkv.
    + intros Hnote. now contradiction Hnote.
    + intros key Hkey. destruct (forced opts).
      * now rewrite Hkv.
      * destruct Hkv as (state & _ & ->). cbn. now rewrite lookup_insert_ne.
  - destruct Hcheck as [Hf Hkv]. eexists _, _. split; [reflexivity|].
    cbn. repeat split; auto. intros key _. now rewrite Hkv.
Qed.

End ProcessSymbol.

(* ===================================================================== *)
(** * The loop over the symbols                                           *)
(* ===================================================================== *)

Section Loop.
Context {S X : Type} (step : S → X → S).

(** Invariants of a left fold. *)
Lemma foldl_invariant (P : S → Prop) (xs : list X) (s : S) :
  P s → (∀ s x, x ∈ xs → P s → P (step s x)) → P (foldl step s xs).
Proof.
  revert s. induction xs as [|x xs IH]; intros s Hs Hstep; [exact Hs|].
  cbn. apply IH.
  - apply Hstep; [left|exact Hs].
  - intros s' x' Hx'. apply Hstep. now right.
Qed.

End Loop.

Section Run.
Context `{Builtins} (host : Host) (env : Env) (opts : option Opts).

(** The value and the world of a run whose snapshot fetch succeeds. *)
Lemma runAlertsOnce_fetched (w : World) (snapshots : gmap string AlpacaSnapshot) :
  alpaca host (run_symbols env opts) = Some snapshots →
  runAlertsOnce host env opts w =
    let acc := foldl (run_step host env opts snapshots)
                 ({| world := w; sent := 0%nat; sentKeys := [] |}, [])
                 (run_symbols env opts) in
    (Normal (Summary.mk true (length (run_symbols env opts)) (sent acc.1) acc.2),
     world acc.1).
Proof.
  intros Hfetch. unfold runAlertsOnce, fetchSnapshotsAlpaca. rewrite Hfetch.
  cbn. fold (priceLevels_of env) (pctThreshold_of env) (cooldownMs_of env).
  fold (run_step host env opts snapshots).
  destruct (foldl _ _ _) as [r' details]. reflexivity.
Qed.

(** A run whose snapshot fetch fails throws and changes nothing. *)
Lemma runAlertsOnce_fetch_failed (w : World) :
  alpaca host (run_symbols env opts) = None →
  runAlertsOnce host env opts w = (Throw SnapshotsError, w).
Proof.
  intros Hfetch. unfold runAlertsOnce, fetchSnapshotsAlpaca. rewrite Hfetch.
  reflexivity.
Qed.

End Run.

(* ===================================================================== *)
(** * Force mode does not write the State Store                           *)
(* ===================================================================== *)

(** C2. A force-mode run, whatever the symbols, snapshots, rules, stored
    state and delivery outcomes, leaves the KV namespace as it was: the
    persisted state of every symbol after the run is the one before it. *)
Theorem force_mode_frame `{Builtins} (host : Host) (env : Env)
    (opts : option Opts) (w : World) :
  forced opts = true →
  STOCK_STATE (runAlertsOnce host env opts w).2 = STOCK_STATE w
  ∧ ∀ symbol,
      STOCK_STATE (runAlertsOnce host env opts w).2 !! stateKey symbol
      = STOCK_STATE w !! stateKey symbol.
Proof.
  intros Hforced.
  assert (Hkv : STOCK_STATE (runAlertsOnce host env opts w).2 = STOCK_STATE w);
    [|split; [exact Hkv|intros symbol; now rewrite Hkv]].
  destruct (alpaca host (run_symbols env opts)) as [snapshots|] eqn:Hfetch.
  - rewrite (runAlertsOnce_fetched host env opts w snapshots Hfetch).
    cbn [snd fst].
    apply (foldl_invariant _
             (λ acc : Run * list Detail.t, STOCK_STATE (world acc.1) = STOCK_STATE w));
      [reflexivity|].
    intros [r details] symbol _ Hacc. cbn in Hacc.
    unfold run_step.
    destruct (process_symbol_effects host env opts snapshots
                (priceLevels_of env) (pctThreshold_of env) (cooldownMs_of env)
                r details symbol) as (r' & d & -> & _ & _ & _ & Hkv & _).
    cbn [snd fst]. rewrite (Hkv Hforced). exact Hacc.
  - now rewrite (runAlertsOnce_fetch_failed host env opts w Hfetch).
Qed.

Lemma force_mode_frame_witness :
  STOCK_STATE (runAlertsOnce (ex_host (λ _, true)) ex_env ex_force ex_world).2
  = STOCK_STATE ex_world
  ∧ ∀ symbol,
      STOCK_STATE (runAlertsOnce (ex_host (λ _, true)) ex_env ex_force ex_world).2
        !! stateKey symbol
      = STOCK_STATE ex_world !! stateKey symbol.
Proof. apply force_mode_frame. reflexivity. Defined.

(* ===================================================================== *)
(** * Frame lemmas: what an iteration does not touch                      *)
(* ===================================================================== *)

Lemma stateKey_inj (s s' : string) : stateKey s = stateKey s' → s = s'.
Proof. unfold stateKey. cbn. intros Heq. now injection Heq. Qed.

Lemma alerts_of_about (rules : Rules) (pctThreshold : number) (symbol : string)
    (currentPrice : number) (prevClose : option number) (a : Alert) :
  a ∈ alerts_of rules pctThreshold symbol currentPrice prevClose →
  m_symbol a.2 = symbol ∧ m_key a.2 = a.1.1.
Proof.
  unfold alerts_of. rewrite !elem_of_app.
  destruct (below rules), (above rules);
    rewrite ?elem_of_cons, ?elem_of_nil; intros Ha;
    repeat destruct Ha as [Ha|Ha]; try contradiction; subst a;
    split; reflexivity.
Qed.

Lemma cycle_alerts_about (snapshots : gmap string AlpacaSnapshot)
    (priceLevels : gmap string Rules) (pctThreshold : number)
    (symbol : string) (a : Alert) :
  a ∈ cycle_alerts snapshots priceLevels pctThreshold symbol →
  m_symbol a.2 = symbol ∧ m_key a.2 = a.1.1.
Proof.
  unfold cycle_alerts.
  destruct (snapshots !! symbol) as [snap|]; [|now rewrite elem_of_nil].
  destruct (currentPrice_of snap); [|now rewrite elem_of_nil].
  apply alerts_of_about.
Qed.

Lemma filter_none {A : Type} (P : A → Prop) `{!∀ x, Decision (P x)} (l : list A) :
  Forall (λ x, ¬ P x) l → filter P l = [].
Proof.
  induction 1 as [|x l Hx _ IH]; [reflexivity|].
  now rewrite filter_cons_False.
Qed.

(** Alerts that are not about a symbol deliver nothing about it. *)
Lemma fires_notified (alerts : list Alert) (symbol : string) (r r' : Run) :
  fires alerts r r' →
  (∀ a, a ∈ alerts → m_symbol a.2 ≠ symbol) →
  notified symbol (world r') = notified symbol (world r).
Proof.
  intros (f & Hsub & _ & Hd & _) Hother. unfold notified.
  rewrite Hd, filter_app.
  assert (Hnil : filter (λ m, m_symbol m = symbol) f.*2 = []).
  { apply filter_none, Forall_fmap, Forall_forall. intros a Ha. cbn.
    apply Hother. eapply sublist_subseteq; eassumption. }
  rewrite Hnil. apply app_nil_r.
Qed.

Section RunFacts.
Context `{Builtins} (host : Host) (env : Env) (opts : option Opts).
Context (snapshots : gmap string AlpacaSnapshot).

(** Every symbol of the run gets its detail, in order, whatever happens
    while the others are processed. *)
Lemma run_details_symbols (symbols : list string) (acc : Run * list Detail.t) :
  Detail.symbol <$> (foldl (run_step host env opts snapshots) acc symbols).2
  = (Detail.symbol <$> acc.2) ++ symbols.
Proof.
  revert acc. induction symbols as [|symbol symbols IH]; intros [r details].
  - cbn. now rewrite app_nil_r.
  - cbn [foldl]. rewrite IH. unfold run_step.
    destruct (process_symbol_effects host env opts snapshots
                (priceLevels_of env) (pctThreshold_of env) (cooldownMs_of env)
                r details symbol) as (r' & d & -> & Hd & _).
    cbn [snd]. rewrite fmap_app. cbn. rewrite Hd, <- app_assoc. reflexivity.
Qed.

End RunFacts.

(* ===================================================================== *)
(** * Symbols without a price                                             *)
(* ===================================================================== *)

Lemma no_price_no_alerts (snapshots : gmap string AlpacaSnapshot)
    (priceLevels : gmap string Rules) (pctThreshold : number) (symbol : string) :
  no_price snapshots symbol →
  cycle_alerts snapshots priceLevels pctThreshold symbol = [].
Proof.
  unfold cycle_alerts, currentPrice_of.
  intros [->|(snap & -> & -> & ->)]; reflexivity.
Qed.

(** C4. A symbol absent from the batch, or whose snapshot has neither a
    latest trade price nor a minute bar close, is skipped: its iteration
    pushes a detail with the note ["no snapshot"] or ["no current price"]
    and no sent key and changes nothing else; in the summary of the run
    every detail of the symbol is such a detail, no message about the symbol
    was delivered, and its persisted state is the one before the run. *)
Theorem no_price_skip `{Builtins} (host : Host) (env : Env) (opts : option Opts)
    (w : World) (snapshots : gmap string AlpacaSnapshot) (symbol : string) :
  alpaca host (run_symbols env opts) = Some snapshots →
  no_price snapshots symbol →
  let note := match snapshots !! symbol with
              | None => "no snapshot"
              | Some _ => "no current price"
              end in
  (∀ r details, ∃ d,
     run_step host env opts snapshots (r, details) symbol
       = (fresh_keys r, details ++ [d])
     ∧ Detail.symbol d = symbol ∧ Detail.sent d = []
     ∧ Detail.note d = Some note)
  ∧ ∃ summary w',
      runAlertsOnce host env opts w = (Normal summary, w')
      ∧ (∀ d, d ∈ Summary.details summary → Detail.symbol d = symbol →
           Detail.sent d = [] ∧ Detail.note d = Some note)
      ∧ (symbol ∈ run_symbols env opts →
           ∃ d, d ∈ Summary.details summary ∧ Detail.symbol d = symbol)
      ∧ notified symbol w' = notified symbol w
      ∧ STOCK_STATE w' !! stateKey symbol = STOCK_STATE w !! stateKey symbol.
Proof.
  intros Hfetch Hno note.
  assert (Hskip : ∀ r details, ∃ d,
            run_step host env opts snapshots (r, details) symbol
              = (fresh_keys r, details ++ [d])
            ∧ Detail.symbol d = symbol ∧ Detail.sent d = []
            ∧ Detail.note d = Some note).
  { intros r details. apply process_symbol_skip. now apply no_price_no_alerts. }
  split; [exact Hskip|].
  rewrite (runAlertsOnce_fetched host env opts w snapshots Hfetch). cbn zeta.
  eexists _, _. split; [reflexivity|]. cbn [Summary.details].
  set (r0 := {| world := w; sent := 0%nat; sentKeys := [] |}).
  pose proof (run_details_symbols host env opts snapshots
                (run_symbols env opts) (r0, [])) as Hsymbols.
  cbn [snd fmap list_fmap app] in Hsymbols.
  assert (Hinv :
    (λ acc : Run * list Detail.t,
       (∀ d, d ∈ acc.2 → Detail.symbol d = symbol →
          Detail.sent d = [] ∧ Detail.note d = Some note)
       ∧ notified symbol (world acc.1) = notified symbol w
       ∧ STOCK_STATE (world acc.1) !! stateKey symbol
         = STOCK_STATE w !! stateKey symbol)
      (foldl (run_step host env opts snapshots) (r0, []) (run_symbols env opts))).
  { apply foldl_invariant.
    - cbn. split; [|split; reflexivity]. intros d Hd. now apply elem_of_nil in Hd.
    - intros [r details] s _ (Hdetails & Hnotified & Hkv). cbn [fst snd] in *.
      destruct (decide (s = symbol)) as [->|Hs].
      + destruct (Hskip r details) as (d & -> & Hd1 & Hd2 & Hd3). cbn [fst snd].
        split; [|split; assumption].
        intros d' Hd' Hsym. apply elem_of_app in Hd' as [Hd'|Hd'];
          [now apply Hdetails|].
        apply list_elem_of_singleton in Hd' as ->. now split.
      + unfold run_step.
        destruct (process_symbol_effects host env opts snapshots
                    (priceLevels_of env) (pctThreshold_of env) (cooldownMs_of env)
                    r details s) as (r' & d & -> & Hd & _ & Hf & _ & _ & Hframe).
        cbn [fst snd]. split; [|split].
        * intros d' Hd' Hsym. apply elem_of_app in Hd' as [Hd'|Hd'];
            [now apply Hdetails|].
          apply list_elem_of_singleton in Hd' as ->. congruence.
        * rewrite <- Hnotified.
          apply (fires_notified _ symbol (fresh_keys r) r' Hf).
          intros a Ha. apply cycle_alerts_about in Ha as [-> _]. exact Hs.
        * rewrite <- Hkv. apply Hframe. intros Heq.
          apply stateKey_inj in Heq. congruence. }
  destruct Hinv as (Hdetails & Hnotified & Hkv).
  repeat split; try assumption.
  - now apply Hdetails.
  - now apply Hdetails.
  - intros Hin. rewrite <- Hsymbols in Hin.
    apply list_elem_of_fmap in Hin as (d & -> & Hd). now exists d.
Qed.

Lemma no_price_skip_witness :
  no_price ex_snapshots "TSLA"
  ∧ ∃ summary w',
      runAlertsOnce (ex_host (λ _, true)) ex_env None ex_world
        = (Normal summary, w')
      ∧ (∀ d, d ∈ Summary.details summary → Detail.symbol d = "TSLA" →
           Detail.sent d = [] ∧ Detail.note d = Some "no current price")
      ∧ notified "TSLA" w' = notified "TSLA" ex_world
      ∧ STOCK_STATE w' !! stateKey "TSLA" = STOCK_STATE ex_world !! stateKey "TSLA".
Proof.
  assert (Hno : no_price ex_snapshots "TSLA").
  { right. eexists. split; [reflexivity|]. split; reflexivity. }
  split; [exact Hno|].
  destruct (no_price_skip (ex_host (λ _, true)) ex_env None ex_world
              ex_snapshots "TSLA" eq_refl Hno)
    as (_ & summary & w' & Hrun & Hdetails & _ & Hnotified & Hkv).
  exists summary, w'. repeat split; try assumption; now apply Hdetails.
Defined.

(* ===================================================================== *)
(** * Delivery failures                                                   *)
(* ===================================================================== *)

Section Failure.
Context `{Builtins} (host : Host) (env : Env) (opts : option Opts).

(** Running a list of checks runs its prefix, then the rest. *)
Lemma run_alerts_app (tryAlert : string → bool → Message → AlertState → M AlertState)
    (before after : list Alert) (state : AlertState) (r : Run) :
  run_alerts tryAlert (before ++ after) state r
  = (state ← run_alerts tryAlert before state; run_alerts tryAlert after state) r.
Proof.
  revert state r. induction before as [|[[key cond] message] before IH];
    intros state r; cbn [run_alerts app].
  - reflexivity.
  - unfold mbind, M_bind. destruct (tryAlert key cond message state r) as [[state'|e] r'].
    + apply IH.
    + reflexivity.
Qed.

End Failure.



(* ===================================================================== *)
(** * The symbols of a run                                                *)
(* ===================================================================== *)

(** C10. A run whose [symbols] override is the empty array is the run with
    the override absent: its symbols are the configured watchlist, split on
    commas, trimmed, uppercased, without empty items, and every one of them
    is evaluated; the same holds through the endpoint. *)
Theorem empty_override_fallback `{Builtins} (host : Host) (env : Env)
    (force : option bool) (w : World) :
  runAlertsOnce host env (Some {| force := force; symbols := Some [] |}) w
  = runAlertsOnce host env (Some {| force := force; symbols := None |}) w
  ∧ run_symbols env (Some {| force := force; symbols := Some [] |})
    = List.filter nonempty
        (List.map (λ s, toUpperCase (trim s))
           (split "," (default "AAPL,TSLA" (WATCHLIST env))))
  ∧ (∀ token b,
       trigger_alerts host env token {| body_force := b; body_symbols := Some [] |} w
       = trigger_alerts host env token {| body_force := b; body_symbols := None |} w)
  ∧ match alpaca host (watchlist env) with
    | Some _ =>
        ∃ summary w',
          runAlertsOnce host env (Some {| force := force; symbols := Some [] |}) w
            = (Normal summary, w')
          ∧ Detail.symbol <$> Summary.details summary = watchlist env
          ∧ Summary.symbols summary = length (watchlist env)
    | None =>
        runAlertsOnce host env (Some {| force := force; symbols := Some [] |}) w
        = (Throw SnapshotsError, w)
    end.
Proof.
  split; [reflexivity|]. split; [reflexivity|]. split; [reflexivity|].
  set (opts := Some {| force := force; symbols := Some [] |}).
  change (watchlist env) with (run_symbols env opts).
  destruct (alpaca host (run_symbols env opts)) as [snapshots|] eqn:Hfetch.
  - rewrite (runAlertsOnce_fetched host env opts w snapshots Hfetch). cbn zeta.
    eexists _, _. split; [reflexivity|]. cbn [Summary.details Summary.symbols].
    split; [|reflexivity]. now rewrite run_details_symbols.
  - now apply runAlertsOnce_fetch_failed.
Qed.

Lemma empty_override_fallback_witness :
  run_symbols ex_env (Some {| force := None; symbols := Some [] |})
  = ["AAPL"; "TSLA"; "MSFT"]
  ∧ ∃ summary w',
      runAlertsOnce (ex_host (λ _, true)) ex_env
        (Some {| force := None; symbols := Some [] |}) ex_world
        = (Normal summary, w')
      ∧ Detail.symbol <$> Summary.details summary = ["AAPL"; "TSLA"; "MSFT"]
      ∧ Summary.symbols summary = 3%nat.
Proof.
  split; [vm_compute; reflexivity|].
  exact (proj2 (proj2 (proj2 (empty_override_fallback (ex_host (λ _, true))
                                ex_env None ex_world)))).
Defined.

(* ===================================================================== *)
(** * Force mode does not read the State Store                            *)
(* ===================================================================== *)

Section ForceNoninterference.
Context `{Builtins} (host : Host) (env : Env) (opts : option Opts).
Hypothesis Hforced : forced opts = true.

Lemma tryAlert_forced_related (cooldownMs : number) (key : string) (cond : bool)
    (message : Message) (state1 state2 : AlertState) :
  related agree (λ _ _, True)
    (tryAlert host env opts cooldownMs key cond message state1)
    (tryAlert host env opts cooldownMs key cond message state2).
Proof.
  intros r1 r2 (Hclock & Hposts & Hdelivered & Hsent & Hkeys).
  rewrite !tryAlert_forced by assumption. unfold deliver_then.
  destruct cond; cbn.
  - destruct (webhook_missing _); cbn.
    + unfold agree. cbn. repeat split; congruence.
    + rewrite Hposts. destruct (webhookOk _ _); cbn;
        unfold agree; cbn; repeat split; congruence.
  - unfold agree. cbn. repeat split; congruence.
Qed.

Lemma run_alerts_forced_related (cooldownMs : number) (alerts : list Alert)
    (state1 state2 : AlertState) :
  related agree (λ _ _, True)
    (run_alerts (tryAlert host env opts cooldownMs) alerts state1)
    (run_alerts (tryAlert host env opts cooldownMs) alerts state2).
Proof.
  revert state1 state2.
  induction alerts as [|[[key cond] message] alerts IH]; intros state1 state2.
  - now apply related_ret.
  - cbn [run_alerts]. eapply related_bind; [apply tryAlert_forced_related|].
    intros s1 s2 _. apply IH.
Qed.

Lemma check_conditions_forced_related (priceLevels : gmap string Rules)
    (pctThreshold cooldownMs : number) (symbol : string)
    (currentPrice : number) (prevClose : option number) :
  related agree eq
    (check_conditions host env opts priceLevels pctThreshold cooldownMs symbol
       currentPrice prevClose)
    (check_conditions host env opts priceLevels pctThreshold cooldownMs symbol
       currentPrice prevClose).
Proof.
  intros r1 r2 Hagree. rewrite !check_conditions_alerts. rewrite Hforced.
  revert r1 r2 Hagree.
  eapply (related_bind agree (λ _ _, True)).
  - intros r1 r2 Hagree. cbn. tauto.
  - intros s1 s2 _. eapply related_bind; [apply run_alerts_forced_related|].
    intros s1' s2' _. now apply related_ret.
Qed.

(** An iteration from agreeing states with the same details gives agreeing
    states and the same details. *)
Lemma process_symbol_forced_related (snapshots : gmap string AlpacaSnapshot)
    (priceLevels : gmap string Rules) (pctThreshold cooldownMs : number)
    (r1 r2 : Run) (details : list Detail.t) (symbol : string) :
  agree r1 r2 →
  let acc1 := process_symbol host env opts snapshots priceLevels pctThreshold
                cooldownMs (r1, details) symbol in
  let acc2 := process_symbol host env opts snapshots priceLevels pctThreshold
                cooldownMs (r2, details) symbol in
  agree acc1.1 acc2.1 ∧ acc1.2 = acc2.2.
Proof.
  intros Hagree.
  assert (Hfresh : agree (fresh_keys r1) (fresh_keys r2)).
  { destruct Hagree as (? & ? & ? & ? & ?). unfold agree. cbn. tauto. }
  unfold process_symbol. cbn zeta.
  destruct (snapshots !! symbol) as [snap|]; [|split; [exact Hfresh|reflexivity]].
  destruct (currentPrice_of snap) as [currentPrice|];
    [|split; [exact Hfresh|reflexivity]].
  pose proof (check_conditions_forced_related priceLevels pctThreshold cooldownMs
                symbol currentPrice (prevClose_of snap) _ _ Hfresh) as Hrel.
  unfold fresh_keys in Hrel.
  destruct (check_conditions _ _ _ _ _ _ _ _ _ _) as [[[]|e1] r1'],
           (check_conditions _ _ _ _ _ _ _ _ _ _) as [[[]|e2] r2'];
    try contradiction; destruct Hrel as [_ Hagree']; cbn;
    (split; [exact Hagree'|]);
    destruct Hagree' as (_ & _ & _ & _ & ->); reflexivity.
Qed.

Lemma run_forced_related (snapshots : gmap string AlpacaSnapshot)
    (symbols : list string) (r1 r2 : Run) (details : list Detail.t) :
  agree r1 r2 →
  let acc1 := foldl (run_step host env opts snapshots) (r1, details) symbols in
  let acc2 := foldl (run_step host env opts snapshots) (r2, details) symbols in
  agree acc1.1 acc2.1 ∧ acc1.2 = acc2.2.
Proof.
  revert r1 r2 details. induction symbols as [|symbol symbols IH];
    intros r1 r2 details Hagree; cbn zeta.
  - split; [exact Hagree|reflexivity].
  - cbn [foldl].
    assert (Hstep :
      agree (run_step host env opts snapshots (r1, details) symbol).1
            (run_step host env opts snapshots (r2, details) symbol).1
      ∧ (run_step host env opts snapshots (r1, details) symbol).2
        = (run_step host env opts snapshots (r2, details) symbol).2)
      by (now apply process_symbol_forced_related).
    destruct (run_step host env opts snapshots (r1, details) symbol) as [r1' d1'],
             (run_step host env opts snapshots (r2, details) symbol) as [r2' d2'].
    cbn [fst snd] in Hstep. destruct Hstep as [Hagree' ->].
    now apply IH.
Qed.

End ForceNoninterference.

(** C9. In force mode the stored state decides nothing: two runs from worlds
    that differ in the KV namespace only return the same summary (the same
    sent keys for the same symbols, the same count) and deliver the same
    messages, with the same clock reads and webhook POSTs. *)
Theorem force_mode_ignores_store `{Builtins} (host : Host) (env : Env)
    (opts : option Opts) (w : World) (kv1 kv2 : gmap string AlertState) :
  forced opts = true →
  let run1 := runAlertsOnce host env opts (with_store kv1 w) in
  let run2 := runAlertsOnce host env opts (with_store kv2 w) in
  run1.1 = run2.1
  ∧ delivered run1.2 = delivered run2.2
  ∧ clock run1.2 = clock run2.2
  ∧ posts run1.2 = posts run2.2.
Proof.
  intros Hforced run1 run2. subst run1 run2.
  destruct (alpaca host (run_symbols env opts)) as [snapshots|] eqn:Hfetch.
  - rewrite !(runAlertsOnce_fetched host env opts _ snapshots Hfetch). cbn zeta.
    set (r1 := {| world := with_store kv1 w; sent := 0%nat; sentKeys := [] |}).
    set (r2 := {| world := with_store kv2 w; sent := 0%nat; sentKeys := [] |}).
    assert (Hinit : agree r1 r2) by (unfold agree; cbn; tauto).
    pose proof (run_forced_related host env opts Hforced snapshots
                  (run_symbols env opts) r1 r2 [] Hinit) as Hrun.
    cbn zeta in Hrun. destruct Hrun as [(? & ? & ? & ? & ?) Hdetails].
    cbn [fst snd]. repeat split; congruence.
  - rewrite !(runAlertsOnce_fetch_failed host env opts _ Hfetch). cbn. tauto.
Qed.

Lemma force_mode_ignores_store_witness :
  (runAlertsOnce (ex_host (λ _, true)) ex_env ex_force (with_store ∅ ex_world)).1
  = (runAlertsOnce (ex_host (λ _, true)) ex_env ex_force
       (with_store ex_met_store ex_world)).1
  ∧ delivered (runAlertsOnce (ex_host (λ _, true)) ex_env ex_force
                 (with_store ∅ ex_world)).2
    = delivered (runAlertsOnce (ex_host (λ _, true)) ex_env ex_force
                   (with_store ex_met_store ex_world)).2.
Proof.
  destruct (force_mode_ignores_store (ex_host (λ _, true)) ex_env ex_force
              ex_world ∅ ex_met_store eq_refl) as (Hsummary & Hdelivered & _).
  split; assumption.
Defined.

(* ===================================================================== *)
(** * The two percent conditions                                          *)
(* ===================================================================== *)

(** The sent keys of every detail a run pushes are the keys of checks of
    its symbol whose condition was true. *)
Lemma run_details_fired `{Builtins} (host : Host) (env : Env) (opts : option Opts)
    (snapshots : gmap string AlpacaSnapshot) (symbols : list string)
    (acc : Run * list Detail.t) (d : Detail.t) :
  d ∈ (foldl (run_step host env opts snapshots) acc symbols).2 →
  d ∈ acc.2
  ∨ ∃ fired : list Alert,
      fired `sublist_of` cycle_alerts snapshots (priceLevels_of env)
                           (pctThreshold_of env) (Detail.symbol d)
      ∧ Forall (λ a : Alert, a.1.2 = true) fired
      ∧ Detail.sent d = fired.*1.*1.
Proof.
  revert d.
  apply (foldl_invariant (run_step host env opts snapshots)
           (λ acc' : Run * list Detail.t, ∀ d, d ∈ acc'.2 → d ∈ acc.2 ∨ _)).
  - intros d Hd. now left.
  - intros [r details] symbol _ IH d Hd. unfold run_step in Hd.
    destruct (process_symbol_effects host env opts snapshots
                (priceLevels_of env) (pctThreshold_of env) (cooldownMs_of env)
                r details symbol) as (r' & d' & Heq & Hsym & Hsent & Hf & _).
    rewrite Heq in Hd. cbn [snd] in Hd.
    apply elem_of_app in Hd as [Hd|Hd]; [now apply IH|].
    apply list_elem_of_singleton in Hd as ->. right.
    destruct Hf as (fired & Hsub & Hall & _ & Hkeys & _).
    exists fired. rewrite Hsym, Hsent, Hkeys. now repeat split.
Qed.

Lemma alerts_of_pct (rules : Rules) (pctThreshold : number) (symbol : string)
    (currentPrice : number) (prevClose : option number) (a : Alert) :
  a ∈ alerts_of rules pctThreshold symbol currentPrice prevClose →
  (a.1.1 = "pct_up" →
     a.1.2 = condPctUp (changePct_of currentPrice prevClose) pctThreshold)
  ∧ (a.1.1 = "pct_down" →
       a.1.2 = condPctDown (changePct_of currentPrice prevClose) pctThreshold).
Proof.
  unfold alerts_of. rewrite !elem_of_app.
  destruct (below rules), (above rules);
    rewrite ?elem_of_cons, ?elem_of_nil; intros Ha;
    repeat destruct Ha as [Ha|Ha]; try contradiction; subst a; cbn;
    split; intros Hkey; try discriminate Hkey; reflexivity.
Qed.

(** C8. With a percent threshold above zero, [pct_up] and [pct_down] are
    never both true for the same price and previous close; so in a run no
    two details of the same symbol (in particular no single detail) list
    [pct_up] and [pct_down] as sent: at most one of the two percent
    conditions fires per symbol and cycle. *)
Theorem pct_conditions_mutually_exclusive :
  (∀ changePct pctThreshold,
     gt pctThreshold (ofZ 0) = true →
     condPctUp changePct pctThreshold && condPctDown changePct pctThreshold = false)
  ∧ (∀ (builtins : Builtins) host env opts w summary w' d1 d2,
       gt (pctThreshold_of env) (ofZ 0) = true →
       runAlertsOnce host env opts w = (Normal summary, w') →
       d1 ∈ Summary.details summary → d2 ∈ Summary.details summary →
       Detail.symbol d1 = Detail.symbol d2 →
       ¬ ("pct_up" ∈ Detail.sent d1 ∧ "pct_down" ∈ Detail.sent d2)).
Proof.
  split.
  - intros changePct pctThreshold Ht.
    destruct (condPctUp changePct pctThreshold) eqn:Hup; [|reflexivity].
    destruct (condPctDown changePct pctThreshold) eqn:Hdown; [|reflexivity].
    destruct (pct_conditions_exclusive changePct pctThreshold Ht Hup Hdown).
  - intros builtins host env opts w summary w' d1 d2 Ht Hrun Hd1 Hd2 Hsym
      [Hup Hdown].
    destruct (alpaca host (run_symbols env opts)) as [snapshots|] eqn:Hfetch;
      [|now rewrite (runAlertsOnce_fetch_failed host env opts w Hfetch) in Hrun].
    rewrite (runAlertsOnce_fetched host env opts w snapshots Hfetch) in Hrun.
    cbn zeta in Hrun. injection Hrun as <- _. cbn [Summary.details] in Hd1, Hd2.
    apply run_details_fired in Hd1 as [Hd1|(fired1 & Hsub1 & Hall1 & Hsent1)];
      [now apply elem_of_nil in Hd1|].
    apply run_details_fired in Hd2 as [Hd2|(fired2 & Hsub2 & Hall2 & Hsent2)];
      [now apply elem_of_nil in Hd2|].
    rewrite Hsent1 in Hup. rewrite Hsent2 in Hdown. rewrite <- Hsym in Hsub2.
    apply list_elem_of_fmap in Hup as (x & Hx & Hup).
    apply list_elem_of_fmap in Hup as (up & -> & Hup).
    apply list_elem_of_fmap in Hdown as (y & Hy & Hdown).
    apply list_elem_of_fmap in Hdown as (down & -> & Hdown).
    pose proof (proj1 (Forall_forall _ _) Hall1 _ Hup) as Hcu.
    pose proof (proj1 (Forall_forall _ _) Hall2 _ Hdown) as Hcd.
    cbn beta in Hcu, Hcd.
    apply (sublist_subseteq _ _ Hsub1) in Hup.
    apply (sublist_subseteq _ _ Hsub2) in Hdown.
    unfold cycle_alerts in Hup, Hdown.
    destruct (snapshots !! Detail.symbol d1) as [snap|];
      [|now apply elem_of_nil in Hup].
    destruct (currentPrice_of snap) as [currentPrice|];
      [|now apply elem_of_nil in Hup].
    apply alerts_of_pct in Hup as [Hup _], Hdown as [_ Hdown].
    specialize (Hup (eq_sym Hx)). specialize (Hdown (eq_sym Hy)).
    rewrite Hcu in Hup. rewrite Hcd in Hdown.
    now apply (pct_conditions_exclusive _ _ Ht (eq_sym Hup) (eq_sym Hdown)).
Qed.

Lemma pct_conditions_mutually_exclusive_witness :
  condPctUp (Some (ofZ (-20))) (ofZ 10) && condPctDown (Some (ofZ (-20))) (ofZ 10)
  = false
  ∧ Detail.sent ex_detail = ["price_below"; "pct_down"]
  ∧ ¬ ("pct_up" ∈ Detail.sent ex_detail ∧ "pct_down" ∈ Detail.sent ex_detail).
Proof.
  split; [|split].
  - apply (proj1 pct_conditions_mutually_exclusive). reflexivity.
  - vm_compute. reflexivity.
  - apply (proj2 pct_conditions_mutually_exclusive ascii_builtins
             (ex_host (λ _, true)) ex_env None ex_world ex_summary
             ex_normal_run.2 ex_detail ex_detail).
    + reflexivity.
    + vm_compute. reflexivity.
    + vm_compute. left.
    + vm_compute. left.
    + reflexivity.
Defined.

(* ===================================================================== *)
(** * The state machine of one condition                                  *)
(* ===================================================================== *)

Lemma fired_app (symbol key : string) (w w' : World) (new : list Message) :
  delivered w' = delivered w ++ new →
  fired symbol key w'
  = fired symbol key w ++ filter (λ m, m_symbol m = symbol ∧ m_key m = key) new.
Proof. intros Hd. unfold fired. now rewrite Hd, filter_app. Qed.

Lemma prev_of_init (stored : option AlertState) (key : string) :
  prev_of (init_state stored) key
  = prev_of (default {| lastSentAt := None; lastCond := None |} stored) key.
Proof.
  unfold prev_of, init_state.
  destruct stored as [[ls [lc|]]|]; cbn; try reflexivity;
    now rewrite lookup_empty.
Qed.

Lemma last_of_init (stored : option AlertState) (key : string) :
  last_of (init_state stored) key
  = last_of (default {| lastSentAt := None; lastCond := None |} stored) key.
Proof.
  unfold last_of, init_state.
  destruct stored as [[[ls|] lc]|]; cbn; try reflexivity;
    now rewrite lookup_empty.
Qed.

Lemma prev_of_some (state : AlertState) (mc : gmap string bool) (key : string) :
  lastCond state = Some mc → prev_of state key = default false (mc !! key).
Proof. unfold prev_of. now intros ->. Qed.

Lemma last_of_some (state : AlertState) (ms : gmap string number) (key : string) :
  lastSentAt state = Some ms → last_of state key = default (ofZ 0) (ms !! key).
Proof. unfold last_of. now intros ->. Qed.

Lemma prev_of_set (ls : option (gmap string number)) (mc : gmap string bool)
    (k : string) (cond : bool) (key : string) :
  prev_of {| lastSentAt := ls; lastCond := Some (<[k := cond]> mc) |} key
  = if decide (k = key) then cond else default false (mc !! key).
Proof.
  unfold prev_of. cbn. case_decide as Hk.
  - subst. now rewrite lookup_insert_eq.
  - now rewrite lookup_insert_ne.
Qed.

Lemma last_of_set (ms : gmap string number) (lc : option (gmap string bool))
    (k : string) (t : number) (key : string) :
  last_of {| lastSentAt := Some (<[k := t]> ms); lastCond := lc |} key
  = if decide (k = key) then t else default (ofZ 0) (ms !! key).
Proof.
  unfold last_of. cbn. case_decide as Hk.
  - subst. now rewrite lookup_insert_eq.
  - now rewrite lookup_insert_ne.
Qed.

Section Condition.
Context `{Builtins} (host : Host) (env : Env) (opts : option Opts).
Context (cooldownMs : number) (symbol key : string).
Hypothesis Hnormal : forced opts = false.

(** Checks of other conditions leave the condition as it is: nothing about
    it is delivered, and its recorded flag and time do not change. *)
Lemma run_alerts_other (alerts : list Alert) (state : AlertState) (r : Run) :
  well_formed state →
  Forall (λ a : Alert, a.1.1 ≠ key ∧ m_key a.2 = a.1.1) alerts →
  triple (run_alerts (tryAlert host env opts cooldownMs) alerts state) r
    (λ state' r',
       well_formed state'
       ∧ prev_of state' key = prev_of state key
       ∧ last_of state' key = last_of state key
       ∧ fired symbol key (world r') = fired symbol key (world r)
       ∧ clock (world r') = (clock (world r) + length alerts)%nat)
    (λ r', fired symbol key (world r') = fired symbol key (world r)).
Proof.
  intros Hwf Halerts. revert state r Hwf.
  induction Halerts as [|[[k cond] message] alerts [Hk Hm] _ IH];
    intros state r Hwf.
  - apply triple_ret. split; [assumption|]. cbn. now rewrite Nat.add_0_r.
  - cbn in Hk, Hm. cbn [run_alerts]. apply triple_bind.
    destruct Hwf as [[ms Hms] [mc Hmc]]. unfold triple at 1.
    rewrite (tryAlert_normal host env opts cooldownMs k cond message state ms mc)
      by assumption.
    cbn zeta. unfold deliver_then.
    assert (Hquiet : ∀ w', delivered w' = delivered (world r) ++ [message] →
                           fired symbol key w' = fired symbol key (world r)).
    { intros w' Hd. rewrite (fired_app _ _ _ _ _ Hd).
      rewrite filter_cons_False, filter_nil, app_nil_r; [reflexivity|].
      intros [_ Hkey]. congruence. }
    rewrite (prev_of_some state mc key Hmc), (last_of_some state ms key Hms).
    destruct (cond && negb (prev_of state k) && ge _ _).
    + destruct (webhook_missing _); [reflexivity|].
      destruct (webhookOk _ _); [|reflexivity].
      eapply triple_mono; [apply IH; split; eexists; reflexivity| |]; cbn beta.
      * intros state' r' (Hwf' & Hprev & Hlast & Hfired & Hclock).
        split; [assumption|]. rewrite Hprev, Hlast, Hfired, Hclock.
        rewrite prev_of_set, last_of_set, !decide_False by assumption.
        repeat split; [now apply Hquiet|cbn; lia].
      * intros r' ->. now apply Hquiet.
    + eapply triple_mono; [apply IH; split; eexists; reflexivity| |]; cbn beta.
      * intros state' r' (Hwf' & Hprev & Hlast & Hfired & Hclock).
        split; [assumption|]. rewrite Hprev, Hlast, Hfired, Hclock.
        rewrite prev_of_set, !decide_False by assumption.
        rewrite (last_of_some {| lastSentAt := Some ms; lastCond := _ |} ms key eq_refl).
        repeat split. cbn. lia.
      * intros r' ->. reflexivity.
Qed.

Lemma checked_absent (alerts : list Alert) :
  Forall (λ a : Alert, a.1.1 ≠ key) alerts → checked alerts key = None.
Proof.
  induction 1 as [|[[k cond] message] alerts Hk _ IH]; [reflexivity|].
  cbn in *. now rewrite decide_False.
Qed.

(** The checks of one cycle and a condition: a message about the condition
    is delivered only on a rising edge whose cooldown has elapsed, and the
    flag recorded for the condition is its value in the cycle. *)
Lemma run_alerts_key (alerts : list Alert) (state : AlertState) (r : Run) :
  well_formed state →
  NoDup alerts.*1.*1 →
  Forall (λ a : Alert, m_key a.2 = a.1.1) alerts →
  let outcome r' :=
    fired symbol key (world r') = fired symbol key (world r)
    ∨ (prev_of state key = false
       ∧ checked alerts key = Some true
       ∧ ∃ n, (clock (world r) ≤ n < clock (world r) + length alerts)%nat
              ∧ ge (sub (dateNow host n) (last_of state key)) cooldownMs = true) in
  triple (run_alerts (tryAlert host env opts cooldownMs) alerts state) r
    (λ state' r',
       well_formed state'
       ∧ prev_of state' key = default (prev_of state key) (checked alerts key)
       ∧ outcome r')
    (λ r', outcome r').
Proof.
  intros Hwf Hnodup Habout. revert state r Hwf Hnodup.
  induction Habout as [|[[k cond] message] alerts Hm Habout IH];
    intros state r Hwf Hnodup; cbn zeta.
  - apply triple_ret. split; [assumption|]. split; [reflexivity|]. now left.
  - cbn in Hm. cbn [fmap list_fmap fst] in Hnodup.
    apply NoDup_cons in Hnodup as [Hfresh Hnodup].
    destruct (decide (k = key)) as [->|Hk].
    + (* the check of the condition itself, then checks of other conditions *)
      assert (Hrest : Forall (λ a : Alert, a.1.1 ≠ key ∧ m_key a.2 = a.1.1) alerts).
      { apply Forall_forall. intros a Ha. split.
        - intros Heq. apply Hfresh. rewrite <- Heq.
          apply list_elem_of_fmap. exists a.1. split; [reflexivity|].
          apply list_elem_of_fmap. now exists a.
        - now apply (proj1 (Forall_forall _ _) Habout). }
      cbn [run_alerts checked]. rewrite decide_True by reflexivity. cbn [default].
      apply triple_bind. destruct Hwf as [[ms Hms] [mc Hmc]]. unfold triple at 1.
      rewrite (tryAlert_normal host env opts cooldownMs key cond message state ms mc)
        by assumption.
      cbn zeta. unfold deliver_then.
      destruct (cond && negb (prev_of state key) && ge _ _) eqn:Hfire.
      * apply andb_prop in Hfire as [Hfire Hge].
        apply andb_prop in Hfire as [-> Hprev]. apply negb_true_iff in Hprev.
        destruct (webhook_missing _); [now left|].
        destruct (webhookOk _ _); [|now left].
        eapply triple_mono;
          [apply run_alerts_other;
           [split; eexists; reflexivity|exact Hrest]| |]; cbn beta.
        -- intros state' r' (Hwf' & Hprev' & _ & _).
           split; [assumption|]. rewrite Hprev', prev_of_set, decide_True by done.
           split; [reflexivity|]. right. repeat split; [assumption|].
           exists (clock (world r)). split; [cbn; lia|assumption].
        -- intros r' _. right. repeat split; [assumption|].
           exists (clock (world r)). split; [cbn; lia|assumption].
      * eapply triple_mono;
          [apply run_alerts_other;
           [split; eexists; reflexivity|exact Hrest]| |]; cbn beta.
        -- intros state' r' (Hwf' & Hprev' & _ & Hfired & _).
           split; [assumption|]. rewrite Hprev', prev_of_set, decide_True by done.
           split; [reflexivity|]. left. exact Hfired.
        -- intros r' Hfired. left. exact Hfired.
    + (* a check of another condition, then the rest *)
      cbn [checked]. rewrite decide_False by assumption.
      change ((k, cond, message) :: alerts) with ([(k, cond, message)] ++ alerts).
      unfold triple. rewrite run_alerts_app. fold (triple (A := AlertState)).
      apply triple_bind.
      eapply triple_mono;
        [apply (run_alerts_other [(k, cond, message)] state r Hwf);
         repeat constructor; assumption| |]; cbn beta.
      * intros state1 r1 (Hwf1 & Hprev1 & Hlast1 & Hfired1 & Hclock1).
        assert (Hshift :
          (fired symbol key (world r1) = fired symbol key (world r) →
           ∀ r',
             fired symbol key (world r') = fired symbol key (world r1)
             ∨ (prev_of state1 key = false
                ∧ checked alerts key = Some true
                ∧ ∃ n, (clock (world r1) ≤ n < clock (world r1) + length alerts)%nat
                       ∧ ge (sub (dateNow host n) (last_of state1 key)) cooldownMs
                         = true) →
             fired symbol key (world r') = fired symbol key (world r)
             ∨ (prev_of state key = false
                ∧ checked alerts key = Some true
                ∧ ∃ n, (clock (world r) ≤ n
                        < clock (world r) + length ((k, cond, message) :: alerts))%nat
                       ∧ ge (sub (dateNow host n) (last_of state key)) cooldownMs
                         = true))).
        { intros Hf r' [Hsame|(Hp & Hc & n & Hn & Hge)].
          - left. congruence.
          - right. rewrite <- Hprev1, <- Hlast1. repeat split; try assumption.
            exists n. split; [|assumption].
            cbn [length] in Hclock1 |- *. unfold Alert in *. lia. }
        eapply triple_mono; [apply (IH state1 r1 Hwf1 Hnodup)| |]; cbn beta.
        -- intros state' r' (Hwf' & Hprev' & Hout).
           split; [assumption|]. rewrite Hprev', Hprev1. split; [reflexivity|].
           now apply Hshift.
        -- intros r' Hout. now apply Hshift.
      * intros r1 Hfired1. now left.
Qed.

(** When every delivery succeeds the checks complete. *)
Lemma run_alerts_completes (alerts : list Alert) (state : AlertState) (r : Run) :
  webhook_missing (DISCORD_WEBHOOK_URL env) = false →
  (∀ n, webhookOk host n = true) →
  well_formed state →
  ∃ state' r',
    run_alerts (tryAlert host env opts cooldownMs) alerts state r
    = (Normal state', r').
Proof.
  intros Hurl Hok. revert state r.
  induction alerts as [|[[k cond] message] alerts IH]; intros state r Hwf.
  - now eexists _, _.
  - cbn [run_alerts]. unfold mbind, M_bind.
    destruct Hwf as [[ms Hms] [mc Hmc]].
    rewrite (tryAlert_normal host env opts cooldownMs k cond message state ms mc)
      by assumption.
    cbn zeta. unfold deliver_then. rewrite Hurl, Hok.
    destruct (cond && negb (prev_of state k) && ge _ _);
      apply IH; split; eexists; reflexivity.
Qed.

End Condition.

Lemma alerts_of_keys (rules : Rules) (pctThreshold : number) (symbol : string)
    (currentPrice : number) (prevClose : option number) :
  NoDup (alerts_of rules pctThreshold symbol currentPrice prevClose).*1.*1.
Proof.
  unfold alerts_of. destruct (below rules), (above rules); cbn;
    repeat (apply NoDup_cons; split;
            [rewrite ?elem_of_cons, ?elem_of_nil; intuition discriminate|]);
    apply NoDup_nil_2.
Qed.

Lemma alerts_of_keyed (rules : Rules) (pctThreshold : number) (symbol : string)
    (currentPrice : number) (prevClose : option number) :
  Forall (λ a : Alert, m_key a.2 = a.1.1)
    (alerts_of rules pctThreshold symbol currentPrice prevClose).
Proof.
  apply Forall_forall. intros a Ha. now apply alerts_of_about in Ha.
Qed.

(** The value of each condition among the checks of a symbol: the price
    conditions are checked when their level is defined, the percent
    conditions always. *)
Lemma checked_alerts_of (rules : Rules) (pctThreshold : number) (symbol : string)
    (currentPrice : number) (prevClose : option number) :
  let alerts := alerts_of rules pctThreshold symbol currentPrice prevClose in
  checked alerts "price_below" = (λ level, le currentPrice level) <$> below rules
  ∧ checked alerts "price_above" = (λ level, ge currentPrice level) <$> above rules
  ∧ checked alerts "pct_up"
    = Some (condPctUp (changePct_of currentPrice prevClose) pctThreshold)
  ∧ checked alerts "pct_down"
    = Some (condPctDown (changePct_of currentPrice prevClose) pctThreshold).
Proof.
  unfold alerts_of, condPriceBelow, condPriceAbove.
  destruct (below rules), (above rules); cbn; repeat split; reflexivity.
Qed.

Section CycleOfSymbol.
Context `{Builtins} (host : Host) (env : Env) (opts : option Opts).
Context (snapshots : gmap string AlpacaSnapshot) (priceLevels : gmap string Rules).
Context (pctThreshold cooldownMs : number) (symbol key : string).
Hypothesis Hnormal : forced opts = false.

Abbreviation cy :=
  (mkCycle false host env opts snapshots priceLevels pctThreshold cooldownMs symbol).

(** The checks of a cycle of [symbol], seen from one of its conditions. *)
Lemma check_conditions_key (currentPrice : number) (prevClose : option number)
    (r : Run) :
  let alerts := alerts_of (default no_rules (priceLevels !! symbol))
                  pctThreshold symbol currentPrice prevClose in
  let outcome r' :=
    fired symbol key (world r') = fired symbol key (world r)
    ∨ (wasMet (world r) symbol key = false
       ∧ checked alerts key = Some true
       ∧ ∃ n, (clock (world r) ≤ n < clock (world r) + length alerts)%nat
              ∧ ge (sub (dateNow host n) (lastFiredAt (world r) symbol key))
                  cooldownMs = true) in
  triple (check_conditions host env opts priceLevels pctThreshold cooldownMs
            symbol currentPrice prevClose) r
    (λ _ r',
       wasMet (world r') symbol key
       = default (wasMet (world r) symbol key) (checked alerts key)
       ∧ outcome r')
    (λ r', same_kv r r' ∧ outcome r').
Proof.
  intros alerts outcome. unfold triple.
  rewrite check_conditions_alerts. fold alerts.
  unfold mbind at 1. unfold M_bind at 1. unfold kv_get, gets.
  unfold mbind at 1. unfold M_bind at 1.
  set (state := init_state (STOCK_STATE (world r) !! stateKey symbol)).
  pose proof (run_alerts_key host env opts cooldownMs symbol key Hnormal alerts
                state r (init_state_well_formed _)
                (alerts_of_keys _ _ _ _ _) (alerts_of_keyed _ _ _ _ _)) as Hkey.
  pose proof (run_alerts_effects host env opts cooldownMs alerts state r
                (init_state_well_formed _)) as Heff.
  cbn zeta in Hkey. unfold triple in Hkey, Heff.
  assert (Hprev : prev_of state key = wasMet (world r) symbol key)
    by apply prev_of_init.
  assert (Hlast : last_of state key = lastFiredAt (world r) symbol key)
    by apply last_of_init.
  rewrite Hprev, Hlast in Hkey.
  destruct (run_alerts _ alerts state r) as [[state'|e] r'].
  - destruct Hkey as (_ & Hprev' & Hout). rewrite Hnormal. cbn.
    split; [|exact Hout].
    unfold wasMet at 1. unfold stored. cbn. now rewrite lookup_insert_eq.
  - destruct Heff as [Hkv _]. split; [exact Hkv|exact Hkey].
Qed.

(** A normal on-demand cycle of [symbol], seen from one of its conditions:
    the flag it persists, unless it is aborted or skipped, is the value of
    the condition; and it delivers a message about the condition only on a
    rising edge whose cooldown has elapsed. *)
Lemma cycle_key_step (w : World) :
  let w' := cycle_step w cy in
  (STOCK_STATE w' = STOCK_STATE w
   ∨ wasMet w' symbol key = default (wasMet w symbol key) (cycle_cond cy key))
  ∧ (fired symbol key w' = fired symbol key w
     ∨ (wasMet w symbol key = false
        ∧ cycle_cond cy key = Some true
        ∧ ∃ n, (clock w ≤ n < clock w + 4)%nat
               ∧ ge (sub (dateNow host n) (lastFiredAt w symbol key)) cooldownMs
                 = true)).
Proof.
  unfold cycle_step, cycle_cond, cycle_alerts, process_symbol. cbn.
  destruct (snapshots !! symbol) as [snap|]; cbn; [|now repeat split; left].
  destruct (currentPrice_of snap) as [currentPrice|]; cbn;
    [|now repeat split; left].
  pose proof (check_conditions_key currentPrice (prevClose_of snap)
                {| world := w; sent := 0; sentKeys := [] |}) as Hcheck.
  cbn zeta in Hcheck. unfold triple in Hcheck. cbn [world] in Hcheck.
  set (alerts := alerts_of _ _ _ _ _) in *.
  assert (Hlen : (length alerts ≤ 4)%nat).
  { unfold alerts, alerts_of. destruct (below _), (above _); cbn; lia. }
  assert (Hbound : ∀ w' : World,
    fired symbol key w' = fired symbol key w
    ∨ (wasMet w symbol key = false ∧ checked alerts key = Some true
       ∧ ∃ n, (clock w ≤ n < clock w + length alerts)%nat
              ∧ ge (sub (dateNow host n) (lastFiredAt w symbol key)) cooldownMs
                = true) →
    fired symbol key w' = fired symbol key w
    ∨ (wasMet w symbol key = false ∧ checked alerts key = Some true
       ∧ ∃ n, (clock w ≤ n < clock w + 4)%nat
              ∧ ge (sub (dateNow host n) (lastFiredAt w symbol key)) cooldownMs
                = true)).
  { intros w' [Hsame|(Hp & Hc & n & Hn & Hge)]; [now left|right].
    repeat split; try assumption. exists n. split; [lia|assumption]. }
  destruct (check_conditions _ _ _ _ _ _ _ _ _ _) as [[[]|e] r']; cbn.
  - destruct Hcheck as [Hmet Hout]. split; [now right|]. now apply Hbound.
  - destruct Hcheck as (Hkv & Hout). split; [now left|]. now apply Hbound.
Qed.

(** A cycle of another symbol, in either mode, delivers nothing about
    [symbol] and does not write its state. *)
Lemma cycle_other_step (other : string) (w : World) :
  other ≠ symbol →
  let w' := cycle_step w (mkCycle false host env opts snapshots priceLevels
                            pctThreshold cooldownMs other) in
  fired symbol key w' = fired symbol key w
  ∧ STOCK_STATE w' !! stateKey symbol = STOCK_STATE w !! stateKey symbol.
Proof.
  intros Hother. unfold cycle_step. cbn -[process_symbol].
  destruct (process_symbol_effects host env opts snapshots priceLevels
              pctThreshold cooldownMs {| world := w; sent := 0; sentKeys := [] |}
              [] other) as (r' & d & -> & _ & _ & Hf & _ & _ & Hframe).
  cbn. split.
  - destruct Hf as (f & Hsub & _ & Hd & _). cbn in Hd.
    rewrite (fired_app symbol key w (world r') _ Hd).
    rewrite filter_none; [apply app_nil_r|].
    apply Forall_fmap, Forall_forall. intros a Ha [Hsym _]. cbn in Hsym.
    apply (sublist_subseteq _ _ Hsub), cycle_alerts_about in Ha as [Ha _].
    congruence.
  - apply Hframe. intros Heq. apply stateKey_inj in Heq. congruence.
Qed.

End CycleOfSymbol.

(* ===================================================================== *)
(** * Cycles depend on the world only                                     *)
(* ===================================================================== *)

Ltac same_world_cases :=
  unfold deliver_then; cbn;
  repeat match goal with
         | |- context [if ?b then _ else _] => destruct b; cbn
         end;
  unfold same_world; cbn; repeat split; eauto.

Section SameWorld.
Context `{Builtins} (host : Host) (env : Env).

Lemma tryAlert_same_world (opts : option Opts) (cooldownMs : number)
    (key : string) (cond : bool) (message : Message) (state : AlertState) :
  well_formed state →
  related same_world same_state
    (tryAlert host env opts cooldownMs key cond message state)
    (tryAlert host env opts cooldownMs key cond message state).
Proof.
  intros Hwf [w1 s1 k1] [w2 s2 k2] Hw. unfold same_world in Hw. cbn in Hw.
  subst w2. destruct (forced opts) eqn:Hf.
  - rewrite !tryAlert_forced by assumption. unfold same_state.
    same_world_cases; apply Hwf.
  - destruct Hwf as [[ms Hms] [mc Hmc]].
    rewrite !(tryAlert_normal host env opts cooldownMs key cond message state ms mc)
      by assumption.
    unfold same_state, well_formed. same_world_cases.
Qed.

Lemma cron_tryAlert_same_world (cooldownMs : number)
    (key : string) (cond : bool) (message : Message) (state : AlertState) :
  well_formed state →
  related same_world same_state
    (Cron.tryAlert host env cooldownMs key cond message state)
    (Cron.tryAlert host env cooldownMs key cond message state).
Proof.
  intros [[ms Hms] [mc Hmc]] [w1 s1 k1] [w2 s2 k2] Hw.
  unfold same_world in Hw. cbn in Hw. subst w2.
  rewrite !(cron_tryAlert host env cooldownMs key cond message state ms mc)
    by assumption.
  unfold same_state, well_formed. same_world_cases.
Qed.

Lemma run_alerts_same_world
    (f1 f2 : string → bool → Message → AlertState → M AlertState)
    (alerts : list Alert) (state : AlertState) :
  (∀ key cond message state,
     well_formed state →
     related same_world same_state (f1 key cond message state)
       (f2 key cond message state)) →
  well_formed state →
  related same_world same_state (run_alerts f1 alerts state)
    (run_alerts f2 alerts state).
Proof.
  intros Hf. revert state.
  induction alerts as [|[[key cond] message] alerts IH]; intros state Hwf.
  - now apply related_ret.
  - cbn [run_alerts]. eapply related_bind; [now apply Hf|].
    intros s1 s2 [<- Hwf']. now apply IH.
Qed.

Lemma kv_put_same_world (key : string) (state : AlertState) :
  related same_world eq (kv_put key state) (kv_put key state).
Proof.
  intros r1 r2 Hw. unfold same_world in *. cbn. now rewrite Hw.
Qed.

(** The checks of a symbol from two states with the same world. *)
Lemma check_conditions_same_world (opts : option Opts)
    (priceLevels : gmap string Rules) (pctThreshold cooldownMs : number)
    (symbol : string) (currentPrice : number) (prevClose : option number) :
  related same_world eq
    (check_conditions host env opts priceLevels pctThreshold cooldownMs
       symbol currentPrice prevClose)
    (check_conditions host env opts priceLevels pctThreshold cooldownMs
       symbol currentPrice prevClose).
Proof.
  intros x1 x2 Hx. rewrite !check_conditions_alerts. revert x1 x2 Hx.
  eapply (related_bind same_world eq).
  - intros x1 x2 Hx. unfold same_world in Hx. cbn. now rewrite Hx.
  - intros stored ? <-. eapply related_bind.
    + apply run_alerts_same_world; [|apply init_state_well_formed].
      intros. now apply tryAlert_same_world.
    + intros s1 s2 [<- _]. destruct (negb (forced opts));
        [apply kv_put_same_world|now apply related_ret].
Qed.

(** The iteration of [runAlertsOnce] from two states with the same world. *)
Lemma process_symbol_same_world (opts : option Opts)
    (snapshots : gmap string AlpacaSnapshot) (priceLevels : gmap string Rules)
    (pctThreshold cooldownMs : number) (symbol : string)
    (r1 r2 : Run) (details1 details2 : list Detail.t) :
  world r1 = world r2 →
  world (process_symbol host env opts snapshots priceLevels pctThreshold
           cooldownMs (r1, details1) symbol).1
  = world (process_symbol host env opts snapshots priceLevels pctThreshold
             cooldownMs (r2, details2) symbol).1.
Proof.
  intros Hw. unfold process_symbol.
  destruct (snapshots !! symbol) as [snap|]; [|exact Hw].
  destruct (currentPrice_of snap) as [currentPrice|]; [|exact Hw].
  pose proof (check_conditions_same_world opts priceLevels pctThreshold
                cooldownMs symbol currentPrice (prevClose_of snap)
                {| world := world r1; sent := sent r1; sentKeys := [] |}
                {| world := world r2; sent := sent r2; sentKeys := [] |} Hw)
    as Hrel.
  destruct (check_conditions _ _ _ _ _ _ _ _ _ _) as [[[]|e1] x1],
           (check_conditions _ _ _ _ _ _ _ _ _ _) as [[[]|e2] x2];
    try contradiction; now destruct Hrel.
Qed.

(** The iteration of [runCron] from two states with the same world. *)
Lemma cron_process_symbol_same_world
    (snapshots : gmap string AlpacaSnapshot) (priceLevels : gmap string Rules)
    (pctThreshold cooldownMs : number) (symbol : string) (r1 r2 : Run) :
  world r1 = world r2 →
  world (Cron.process_symbol host env snapshots priceLevels pctThreshold
           cooldownMs r1 symbol)
  = world (Cron.process_symbol host env snapshots priceLevels pctThreshold
             cooldownMs r2 symbol).
Proof.
  intros Hw. unfold Cron.process_symbol.
  destruct (snapshots !! symbol) as [snap|]; [|exact Hw].
  destruct (currentPrice_of snap) as [currentPrice|]; [|exact Hw].
  assert (Hrel : related same_world eq
            (Cron.check_conditions host env priceLevels pctThreshold cooldownMs
               symbol currentPrice (prevClose_of snap))
            (Cron.check_conditions host env priceLevels pctThreshold cooldownMs
               symbol currentPrice (prevClose_of snap))).
  { intros x1 x2 Hx. rewrite !cron_check_conditions_alerts. revert x1 x2 Hx.
    eapply (related_bind same_world eq).
    - intros x1 x2 Hx. unfold same_world in Hx. cbn. now rewrite Hx.
    - intros stored ? <-. eapply related_bind.
      + apply run_alerts_same_world; [|apply init_state_well_formed].
        intros. now apply cron_tryAlert_same_world.
      + intros s1 s2 [<- _]. apply kv_put_same_world. }
  specialize (Hrel r1 r2 Hw).
  destruct (Cron.check_conditions _ _ _ _ _ _ _ _ r1) as [[[]|e1] x1],
           (Cron.check_conditions _ _ _ _ _ _ _ _ r2) as [[[]|e2] x2];
    try contradiction; now destruct Hrel.
Qed.

End SameWorld.

(* ===================================================================== *)
(** * The scheduled evaluator and the normal mode of the other            *)
(* ===================================================================== *)

Lemma as_scheduled_about (m : Message) :
  m_symbol (as_scheduled m) = m_symbol m ∧ m_key (as_scheduled m) = m_key m.
Proof. now split. Qed.

Lemma filter_as_scheduled (symbol key : string) (l : list Message) :
  filter (λ m, m_symbol m = symbol ∧ m_key m = key) (as_scheduled <$> l)
  = as_scheduled <$> filter (λ m, m_symbol m = symbol ∧ m_key m = key) l.
Proof.
  induction l as [|m l IH]; [reflexivity|]. cbn [fmap list_fmap].
  destruct (decide (m_symbol m = symbol ∧ m_key m = key)) as [Hm|Hm].
  - rewrite !filter_cons_True by assumption. cbn [fmap list_fmap]. now rewrite <- IH.
  - rewrite !filter_cons_False by assumption. exact IH.
Qed.

(** What [scheduled_texts] lets one observe about a condition. *)
Lemma scheduled_texts_fired (w w1 w2 : World) (symbol key : string) :
  scheduled_texts (delivered w) w1 w2 →
  ∃ extra,
    fired symbol key w2 = fired symbol key w ++ extra
    ∧ fired symbol key w1 = fired symbol key w ++ (as_scheduled <$> extra).
Proof.
  intros (_ & _ & _ & new & Hd2 & Hd1).
  exists (filter (λ m, m_symbol m = symbol ∧ m_key m = key) new).
  rewrite (fired_app symbol key w w2 _ Hd2), (fired_app symbol key w w1 _ Hd1).
  now rewrite filter_as_scheduled.
Qed.

Section Scheduled.
Context `{Builtins} (host : Host) (env : Env) (opts : option Opts).
Context (base : list Message).
Hypothesis Hnormal : forced opts = false.

Ltac retexted_cases :=
  unfold deliver_then; cbn;
  repeat match goal with
         | |- context [if ?b then _ else _] => destruct b; cbn
         end;
  unfold same_state, well_formed, retexted, scheduled_texts; cbn;
  repeat split; eauto;
  try (eexists (_ ++ [_]); split; [now rewrite app_assoc|];
       now rewrite fmap_app, app_assoc).

Lemma cron_tryAlert_retexted (cooldownMs : number)
    (key : string) (cond : bool) (message : Message) (state : AlertState) :
  well_formed state →
  related (retexted base) same_state
    (Cron.tryAlert host env cooldownMs key cond (as_scheduled message) state)
    (tryAlert host env opts cooldownMs key cond message state).
Proof.
  intros [[ms Hms] [mc Hmc]] [[kv1 c1 p1 d1] s1 k1] [[kv2 c2 p2 d2] s2 k2] Hr.
  unfold retexted, scheduled_texts in Hr. cbn in Hr.
  destruct Hr as (-> & -> & -> & new & -> & ->).
  rewrite (tryAlert_normal host env opts cooldownMs key cond message state ms mc),
    (cron_tryAlert host env cooldownMs key cond (as_scheduled message) state ms mc)
    by assumption.
  retexted_cases.
Qed.

Lemma run_alerts_retexted (cooldownMs : number) (alerts : list Alert)
    (state : AlertState) :
  well_formed state →
  related (retexted base) same_state
    (run_alerts (Cron.tryAlert host env cooldownMs) (scheduled_alerts alerts) state)
    (run_alerts (tryAlert host env opts cooldownMs) alerts state).
Proof.
  revert state.
  induction alerts as [|[[key cond] message] alerts IH]; intros state Hwf.
  - now apply related_ret.
  - cbn [scheduled_alerts fmap list_fmap run_alerts fst snd].
    eapply related_bind; [now apply cron_tryAlert_retexted|].
    intros s1 s2 [<- Hwf']. now apply IH.
Qed.

(** The checks of [runCron] and those of [runAlertsOnce] in normal mode
    complete the same way, in worlds that differ in the texts only. *)
Lemma cron_check_conditions_retexted (priceLevels : gmap string Rules)
    (pctThreshold cooldownMs : number) (symbol : string)
    (currentPrice : number) (prevClose : option number) :
  related (retexted base) eq
    (Cron.check_conditions host env priceLevels pctThreshold cooldownMs
       symbol currentPrice prevClose)
    (check_conditions host env opts priceLevels pctThreshold cooldownMs
       symbol currentPrice prevClose).
Proof.
  intros x1 x2 Hx.
  rewrite check_conditions_alerts, cron_check_conditions_alerts.
  revert x1 x2 Hx. eapply (related_bind (retexted base) eq).
  - intros x1 x2 Hx. cbn. split; [|exact Hx].
    destruct Hx as (Hkv & _). now rewrite Hkv.
  - intros stored ? <-. eapply related_bind.
    + apply run_alerts_retexted, init_state_well_formed.
    + intros s1 s2 [<- _]. rewrite Hnormal. cbn [negb].
      intros x1 x2 (Hkv & Hclock & Hposts & Hd). cbn.
      split; [reflexivity|]. unfold retexted, scheduled_texts. cbn.
      now rewrite Hkv.
Qed.

(** The iteration of [runCron] and the normal iteration of [runAlertsOnce]. *)
Lemma cron_process_symbol_retexted
    (snapshots : gmap string AlpacaSnapshot) (priceLevels : gmap string Rules)
    (pctThreshold cooldownMs : number) (symbol : string)
    (r1 r2 : Run) (details : list Detail.t) :
  retexted base r1 r2 →
  retexted base
    (Cron.process_symbol host env snapshots priceLevels pctThreshold
       cooldownMs r1 symbol)
    (process_symbol host env opts snapshots priceLevels pctThreshold
       cooldownMs (r2, details) symbol).1.
Proof.
  intros Hr. unfold process_symbol, Cron.process_symbol.
  destruct (snapshots !! symbol) as [snap|]; [|exact Hr].
  destruct (currentPrice_of snap) as [currentPrice|]; [|exact Hr].
  pose proof (cron_check_conditions_retexted priceLevels pctThreshold cooldownMs
                symbol currentPrice (prevClose_of snap) r1
                {| world := world r2; sent := sent r2; sentKeys := [] |} Hr)
    as Hrel.
  destruct (Cron.check_conditions _ _ _ _ _ _ _ _ _) as [[[]|e1] x1],
           (check_conditions _ _ _ _ _ _ _ _ _ _) as [[[]|e2] x2];
    try contradiction; now destruct Hrel.
Qed.

End Scheduled.


(* ===================================================================== *)
(** * Sequences of cycles                                                 *)
(* ===================================================================== *)

Section ScheduledCycles.
Context `{Builtins}.

Abbreviation on_demand cy :=
  (mkCycle false (cy_host cy) (cy_env cy) None (cy_snapshots cy)
     (cy_priceLevels cy) (cy_pctThreshold cy) (cy_cooldownMs cy) (cy_symbol cy)).

Lemma scheduled_texts_refl (w : World) : scheduled_texts (delivered w) w w.
Proof.
  repeat split. exists []. cbn. now rewrite app_nil_r.
Qed.

(** A scheduled cycle is the on-demand cycle without options, with its own
    texts. *)
Lemma scheduled_cycle_step (cy : Cycle) (w : World) :
  cy_scheduled cy = true →
  scheduled_texts (delivered w) (cycle_step w cy) (cycle_step w (on_demand cy)).
Proof.
  intros Hs. unfold cycle_step. rewrite Hs. cbn -[process_symbol Cron.process_symbol].
  apply (cron_process_symbol_retexted (cy_host cy) (cy_env cy) None (delivered w)
           eq_refl).
  apply scheduled_texts_refl.
Qed.

(** It is aborted when the on-demand cycle is. *)
Lemma scheduled_cycle_aborted (cy : Cycle) (w : World) :
  cy_scheduled cy = true →
  cycle_aborted w cy = cycle_aborted w (on_demand cy).
Proof.
  intros Hs. unfold cycle_aborted, cycle_checks. rewrite Hs. cbn.
  destruct (cy_snapshots cy !! cy_symbol cy) as [snap|]; [|reflexivity].
  destruct (currentPrice_of snap) as [currentPrice|]; [|reflexivity].
  pose proof (cron_check_conditions_retexted (cy_host cy) (cy_env cy) None
                (delivered w) eq_refl (cy_priceLevels cy) (cy_pctThreshold cy)
                (cy_cooldownMs cy) (cy_symbol cy) currentPrice (prevClose_of snap)
                {| world := w; sent := 0; sentKeys := [] |}
                {| world := w; sent := 0; sentKeys := [] |}
                (scheduled_texts_refl w)) as Hrel.
  destruct (Cron.check_conditions _ _ _ _ _ _ _ _ _) as [[[]|e1] x1],
           (check_conditions _ _ _ _ _ _ _ _ _ _) as [[[]|e2] x2];
    try contradiction; reflexivity.
Qed.

(** What a scheduled cycle lets one observe about the condition: the stored
    flag and time of the on-demand cycle, and its messages. *)
Lemma scheduled_cycle_observed (symbol key : string) (cy : Cycle) (w : World) :
  cy_scheduled cy = true →
  wasMet (cycle_step w cy) symbol key
  = wasMet (cycle_step w (on_demand cy)) symbol key
  ∧ lastFiredAt (cycle_step w cy) symbol key
    = lastFiredAt (cycle_step w (on_demand cy)) symbol key
  ∧ STOCK_STATE (cycle_step w cy) = STOCK_STATE (cycle_step w (on_demand cy))
  ∧ ∃ extra,
      fired symbol key (cycle_step w (on_demand cy)) = fired symbol key w ++ extra
      ∧ fired symbol key (cycle_step w cy)
        = fired symbol key w ++ (as_scheduled <$> extra).
Proof.
  intros Hs. pose proof (scheduled_cycle_step cy w Hs) as Hst.
  destruct (scheduled_texts_fired w _ _ symbol key Hst) as (extra & Hod & Hsc).
  destruct Hst as (Hkv & _).
  unfold wasMet, lastFiredAt, stored. rewrite Hkv.
  repeat split. now exists extra.
Qed.

Lemma fired_same_scheduled (symbol key : string) (w w1 w2 : World)
    (extra : list Message) :
  fired symbol key w2 = fired symbol key w ++ extra →
  fired symbol key w1 = fired symbol key w ++ (as_scheduled <$> extra) →
  fired symbol key w2 = fired symbol key w →
  fired symbol key w1 = fired symbol key w.
Proof.
  intros H2 H1 Hsame. rewrite H2 in Hsame.
  rewrite <- (app_nil_r (fired symbol key w)) in Hsame at 2.
  apply app_inv_head in Hsame as ->. rewrite H1. apply app_nil_r.
Qed.

End ScheduledCycles.

Abbreviation on_demand cy :=
  (mkCycle false (cy_host cy) (cy_env cy) None (cy_snapshots cy)
     (cy_priceLevels cy) (cy_pctThreshold cy) (cy_cooldownMs cy) (cy_symbol cy)).

Section Cycles.
Context `{Builtins} (symbol key : string).

Lemma wasMet_frame (w w' : World) :
  STOCK_STATE w' !! stateKey symbol = STOCK_STATE w !! stateKey symbol →
  wasMet w' symbol key = wasMet w symbol key.
Proof. unfold wasMet, stored. now intros ->. Qed.

(** A normal cycle of [symbol] and the condition [key]. *)
Lemma normal_cycle_key (cy : Cycle) (w : World) :
  normal cy → cy_symbol cy = symbol →
  let w' := cycle_step w cy in
  (STOCK_STATE w' = STOCK_STATE w
   ∨ wasMet w' symbol key = default (wasMet w symbol key) (cycle_cond cy key))
  ∧ (fired symbol key w' = fired symbol key w
     ∨ (wasMet w symbol key = false
        ∧ cycle_cond cy key = Some true
        ∧ ∃ n, (clock w ≤ n < clock w + 4)%nat
               ∧ ge (sub (dateNow (cy_host cy) n) (lastFiredAt w symbol key))
                   (cy_cooldownMs cy) = true)).
Proof.
  intros Hnormal <-. destruct (cy_scheduled cy) eqn:Hs.
  - cbn zeta.
    destruct (scheduled_cycle_observed (cy_symbol cy) key cy w Hs)
      as (-> & _ & -> & extra & Hod & Hsc).
    destruct (cycle_key_step (cy_host cy) (cy_env cy) None (cy_snapshots cy)
                (cy_priceLevels cy) (cy_pctThreshold cy) (cy_cooldownMs cy)
                (cy_symbol cy) key eq_refl w) as (Hkv & Hout).
    split; [exact Hkv|].
    destruct Hout as [Hout|Hout]; [left|now right].
    exact (fired_same_scheduled (cy_symbol cy) key w _ _ extra Hod Hsc Hout).
  - destruct Hnormal as [Hsched|Hforced]; [congruence|].
    destruct cy as [sched host env opts snaps pl pct cd s]. cbn in *. subst sched.
    now apply cycle_key_step.
Qed.

(** A cycle of another symbol. *)
Lemma other_cycle_key (cy : Cycle) (w : World) :
  cy_symbol cy ≠ symbol →
  fired symbol key (cycle_step w cy) = fired symbol key w
  ∧ wasMet (cycle_step w cy) symbol key = wasMet w symbol key
  ∧ lastFiredAt (cycle_step w cy) symbol key = lastFiredAt w symbol key.
Proof.
  intros Hother.
  assert (Hstep : fired symbol key (cycle_step w cy) = fired symbol key w
                  ∧ STOCK_STATE (cycle_step w cy) !! stateKey symbol
                    = STOCK_STATE w !! stateKey symbol).
  { destruct (cy_scheduled cy) eqn:Hs.
    - destruct (scheduled_cycle_observed symbol key cy w Hs)
        as (_ & _ & -> & extra & Hod & Hsc).
      destruct (cycle_other_step (cy_host cy) (cy_env cy) None (cy_snapshots cy)
                  (cy_priceLevels cy) (cy_pctThreshold cy) (cy_cooldownMs cy)
                  symbol key (cy_symbol cy) w Hother) as [Hf Hkv].
      split; [|exact Hkv].
      exact (fired_same_scheduled symbol key w _ _ extra Hod Hsc Hf).
    - destruct cy as [sched host env opts snaps pl pct cd s]. cbn in *.
      subst sched. now apply cycle_other_step. }
  destruct Hstep as [Hfired Hkv]. split; [exact Hfired|].
  unfold wasMet, lastFiredAt, stored. now rewrite Hkv.
Qed.

(** Once the flag is recorded, a normal cycle delivers nothing about the
    condition; the flag stays unless the cycle evaluates the condition
    false. *)
Lemma met_cycle (cy : Cycle) (w : World) :
  normal cy → wasMet w symbol key = true →
  fired symbol key (cycle_step w cy) = fired symbol key w
  ∧ (wasMet (cycle_step w cy) symbol key = true
     ∨ (condition_false symbol key cy
        ∧ wasMet (cycle_step w cy) symbol key = false)).
Proof.
  intros Hnormal Hmet. destruct (decide (cy_symbol cy = symbol)) as [Hs|Hs].
  - destruct (normal_cycle_key cy w Hnormal Hs) as (Hkv & Hout).
    split.
    + destruct Hout as [Hout|(Hfalse & _)]; [exact Hout|congruence].
    + destruct Hkv as [Hkv|Hkv].
      * left. rewrite <- Hmet. apply wasMet_frame. now rewrite Hkv.
      * rewrite Hkv, Hmet.
        destruct (cycle_cond cy key) as [[|]|] eqn:Hcond; cbn; auto.
        right. now repeat split.
  - destruct (other_cycle_key cy w Hs) as (Hfired & Hmet' & _).
    split; [exact Hfired|]. left. congruence.
Qed.

Lemma cycles_run_app (w : World) (before after : list Cycle) :
  cycles_run w (before ++ after) = cycles_run (cycles_run w before) after.
Proof. apply foldl_app. Qed.

(** While no cycle evaluates the condition false, nothing about it is
    delivered and the flag stays. *)
Lemma met_cycles (cycles : list Cycle) (w : World) :
  Forall normal cycles → wasMet w symbol key = true →
  Forall (λ cy, ¬ condition_false symbol key cy) cycles →
  fired symbol key (cycles_run w cycles) = fired symbol key w
  ∧ wasMet (cycles_run w cycles) symbol key = true.
Proof.
  intros Hnormal. revert w.
  induction Hnormal as [|cy cycles Hcy _ IH]; intros w Hmet Htrue.
  - now split.
  - apply Forall_cons in Htrue as [Hcond Htrue].
    change (cycles_run w (cy :: cycles))
      with (cycles_run (cycle_step w cy) cycles).
    destruct (met_cycle cy w Hcy Hmet) as [Hfired [Hmet'|[Hfalse _]]];
      [|contradiction].
    destruct (IH _ Hmet' Htrue) as [Hfired' Hmet'']. split; congruence.
Qed.

(** A later message about the condition needs a cycle that recorded it
    false. *)
Lemma refire_needs_false (cycles : list Cycle) (w : World) :
  Forall normal cycles → wasMet w symbol key = true →
  fired symbol key (cycles_run w cycles) ≠ fired symbol key w →
  ∃ before cy after,
    cycles = before ++ cy :: after
    ∧ condition_false symbol key cy
    ∧ wasMet (cycles_run w (before ++ [cy])) symbol key = false
    ∧ fired symbol key (cycles_run w (before ++ [cy])) = fired symbol key w.
Proof.
  intros Hnormal. revert w.
  induction Hnormal as [|cy cycles Hcy _ IH]; intros w Hmet Hfired.
  - now contradiction Hfired.
  - change (cycles_run w (cy :: cycles))
      with (cycles_run (cycle_step w cy) cycles) in Hfired.
    destruct (met_cycle cy w Hcy Hmet) as [Hstep [Hmet'|[Hfalse Hmet']]].
    + rewrite <- Hstep in Hfired.
      destruct (IH _ Hmet' Hfired) as (before & cy' & after & -> & Hc & Hm & Hf).
      exists (cy :: before), cy', after.
      change (cycles_run w ((cy :: before) ++ [cy']))
        with (cycles_run (cycle_step w cy) (before ++ [cy'])).
      split; [reflexivity|]. split; [exact Hc|]. split; [exact Hm|]. congruence.
    + exists [], cy, cycles.
      split; [reflexivity|]. split; [exact Hfalse|]. split; assumption.
Qed.

End Cycles.

Section RunsAreCycles.
Context `{Builtins} (host : Host) (env : Env).

Lemma run_world_cycles (opts : option Opts) (snapshots : gmap string AlpacaSnapshot)
    (symbols : list string) (acc : Run * list Detail.t) :
  world (foldl (run_step host env opts snapshots) acc symbols).1
  = cycles_run (world acc.1)
      (mkCycle false host env opts snapshots
         (priceLevels_of env) (pctThreshold_of env) (cooldownMs_of env)
       <$> symbols).
Proof.
  revert acc. induction symbols as [|symbol symbols IH]; intros [r details];
    [reflexivity|].
  cbn [foldl fmap list_fmap cycles_run]. rewrite IH. f_equal.
  unfold cycle_step, run_step. cbn -[process_symbol].
  now apply process_symbol_same_world.
Qed.

Lemma cron_world_cycles (snapshots : gmap string AlpacaSnapshot)
    (symbols : list string) (r : Run) :
  world (foldl (Cron.process_symbol host env snapshots (priceLevels_of env)
                  (pctThreshold_of env) (cooldownMs_of env)) r symbols)
  = cycles_run (world r)
      (mkCycle true host env None snapshots
         (priceLevels_of env) (pctThreshold_of env) (cooldownMs_of env)
       <$> symbols).
Proof.
  revert r. induction symbols as [|symbol symbols IH]; intros r; [reflexivity|].
  cbn [foldl fmap list_fmap cycles_run]. rewrite IH. f_equal.
  unfold cycle_step. cbn -[Cron.process_symbol].
  now apply cron_process_symbol_same_world.
Qed.

End RunsAreCycles.

(* ===================================================================== *)
(** * The firing rule of a condition, exactly                             *)
(* ===================================================================== *)

Lemma checked_split (alerts : list Alert) (key : string) (cond : bool) :
  checked alerts key = Some cond →
  ∃ before message after,
    alerts = before ++ (key, cond, message) :: after
    ∧ Forall (λ a : Alert, a.1.1 ≠ key) before.
Proof.
  induction alerts as [|[[k c'] m] alerts IH]; cbn; [discriminate|].
  case_decide as Hk.
  - intros [= ->]. subst k. exists [], m, alerts. now split.
  - intros Hc. destruct (IH Hc) as (before & message & after & -> & Hbefore).
    exists ((k, c', m) :: before), message, after. split; [reflexivity|].
    constructor; assumption.
Qed.

Lemma checks_before_split (before after : list Alert) (key : string)
    (cond : bool) (message : Message) :
  Forall (λ a : Alert, a.1.1 ≠ key) before →
  checks_before (before ++ (key, cond, message) :: after) key = length before.
Proof.
  induction 1 as [|[[k c] m] before Hk _ IH]; cbn.
  - now rewrite decide_True.
  - cbn in Hk. rewrite decide_False by exact Hk. now rewrite IH.
Qed.

Section FiringRule.
Context `{Builtins} (host : Host) (env : Env) (opts : option Opts).
Context (cooldownMs : number) (symbol key : string).
Hypothesis Hnormal : forced opts = false.

(** The checks of a cycle around the check of [key]: the clock read of that
    check is the one after the checks before it, and it alone decides
    whether a message about the condition is delivered. *)
Lemma run_alerts_at (before after : list Alert) (cond : bool) (message : Message)
    (state : AlertState) (r : Run) :
  well_formed state →
  Forall (λ a : Alert, a.1.1 ≠ key ∧ m_key a.2 = a.1.1) before →
  Forall (λ a : Alert, a.1.1 ≠ key ∧ m_key a.2 = a.1.1) after →
  m_symbol message = symbol → m_key message = key →
  let now := dateNow host (clock (world r) + length before) in
  let fire := cond && negb (prev_of state key)
              && ge (sub now (last_of state key)) cooldownMs in
  triple (run_alerts (tryAlert host env opts cooldownMs)
            (before ++ (key, cond, message) :: after) state) r
    (λ state' r',
       well_formed state'
       ∧ prev_of state' key = cond
       ∧ last_of state' key = (if fire then now else last_of state key)
       ∧ fired symbol key (world r')
         = fired symbol key (world r) ++ (if fire then [message] else []))
    (λ r',
       fired symbol key (world r') = fired symbol key (world r)
       ∨ (fire = true
          ∧ fired symbol key (world r') = fired symbol key (world r) ++ [message])).
Proof.
  intros Hwf Hbefore Hafter Hsym Hkey now fire.
  unfold triple. rewrite run_alerts_app. fold (triple (A := AlertState)).
  apply triple_bind.
  eapply triple_mono;
    [apply (run_alerts_other host env opts cooldownMs symbol key Hnormal
              before state r Hwf Hbefore)| |]; cbn beta; [|now left].
  intros state1 r1 (Hwf1 & Hprev1 & Hlast1 & Hfired1 & Hclock1).
  cbn [run_alerts]. apply triple_bind.
  destruct Hwf1 as [[ms Hms] [mc Hmc]]. unfold triple at 1.
  rewrite (tryAlert_normal host env opts cooldownMs key cond message state1 ms mc)
    by assumption.
  cbn zeta. rewrite Hclock1, Hprev1, Hlast1. fold now. fold fire.
  unfold deliver_then.
  assert (Hone : ∀ w', delivered w' = delivered (world r1) ++ [message] →
                       fired symbol key w' = fired symbol key (world r) ++ [message]).
  { intros w' Hd. rewrite (fired_app _ _ _ _ _ Hd), Hfired1.
    now rewrite filter_cons_True, filter_nil. }
  destruct fire eqn:Hfire.
  - destruct (webhook_missing _); [left; exact Hfired1|].
    destruct (webhookOk _ _); [|left; exact Hfired1].
    eapply triple_mono;
      [apply (run_alerts_other host env opts cooldownMs symbol key Hnormal after);
       [split; eexists; reflexivity|exact Hafter]| |]; cbn beta.
    + intros state' r' (Hwf' & Hprev' & Hlast' & Hfired' & _).
      split; [assumption|]. rewrite Hprev', Hlast', Hfired'.
      rewrite prev_of_set, last_of_set, !decide_True by reflexivity.
      repeat split. now apply Hone.
    + intros r' Hfired'. right. split; [reflexivity|]. rewrite Hfired'.
      now apply Hone.
  - eapply triple_mono;
      [apply (run_alerts_other host env opts cooldownMs symbol key Hnormal after);
       [split; eexists; reflexivity|exact Hafter]| |]; cbn beta.
    + intros state' r' (Hwf' & Hprev' & Hlast' & Hfired' & _).
      split; [assumption|]. rewrite Hprev', Hlast', Hfired'.
      rewrite prev_of_set, decide_True by reflexivity.
      rewrite (last_of_some {| lastSentAt := Some ms; lastCond := _ |} ms key eq_refl).
      rewrite <- (last_of_some state1 ms key Hms), Hlast1, app_nil_r.
      repeat split. exact Hfired1.
    + intros r' Hfired'. left. rewrite Hfired'. exact Hfired1.
Qed.

End FiringRule.

Lemma NoDup_keys_split (before after : list Alert) (key : string) (cond : bool)
    (message : Message) :
  NoDup (before ++ (key, cond, message) :: after).*1.*1 →
  Forall (λ a : Alert, a.1.1 ≠ key) before
  ∧ Forall (λ a : Alert, a.1.1 ≠ key) after.
Proof.
  rewrite !fmap_app. cbn. intros Hnodup.
  apply NoDup_app in Hnodup as (_ & Hdisj & Hrest).
  apply NoDup_cons in Hrest as [Hafter _]. split; apply Forall_forall.
  - intros a Ha Heq. apply (Hdisj key); [|left].
    rewrite <- Heq. apply list_elem_of_fmap. exists a.1. split; [reflexivity|].
    apply list_elem_of_fmap. now exists a.
  - intros a Ha Heq. apply Hafter.
    rewrite <- Heq. apply list_elem_of_fmap. exists a.1. split; [reflexivity|].
    apply list_elem_of_fmap. now exists a.
Qed.

Section ExactCycle.
Context `{Builtins} (host : Host) (env : Env) (opts : option Opts).
Context (snapshots : gmap string AlpacaSnapshot) (priceLevels : gmap string Rules).
Context (pctThreshold cooldownMs : number) (symbol key : string).
Hypothesis Hnormal : forced opts = false.

Abbreviation the_cycle :=
  (mkCycle false host env opts snapshots priceLevels pctThreshold cooldownMs symbol).

(** The checks of a cycle, seen from the condition at a given place of the
    list of its alerts. *)
Lemma check_conditions_at (currentPrice : number) (prevClose : option number)
    (r : Run) (before after : list Alert) (cond : bool) (message : Message) :
  alerts_of (default no_rules (priceLevels !! symbol)) pctThreshold symbol
    currentPrice prevClose = before ++ (key, cond, message) :: after →
  let now := dateNow host (clock (world r) + length before) in
  let fire := cond && negb (wasMet (world r) symbol key)
              && ge (sub now (lastFiredAt (world r) symbol key)) cooldownMs in
  triple (check_conditions host env opts priceLevels pctThreshold cooldownMs
            symbol currentPrice prevClose) r
    (λ _ r',
       wasMet (world r') symbol key = cond
       ∧ lastFiredAt (world r') symbol key
         = (if fire then now else lastFiredAt (world r) symbol key)
       ∧ fired symbol key (world r')
         = fired symbol key (world r) ++ (if fire then [message] else []))
    (λ r', same_kv r r'
           ∧ (fired symbol key (world r') = fired symbol key (world r)
              ∨ (fire = true
                 ∧ fired symbol key (world r')
                   = fired symbol key (world r) ++ [message]))).
Proof.
  intros Halerts now fire. unfold triple.
  pose proof (alerts_of_keys (default no_rules (priceLevels !! symbol))
                pctThreshold symbol currentPrice prevClose) as Hnodup.
  pose proof (alerts_of_keyed (default no_rules (priceLevels !! symbol))
                pctThreshold symbol currentPrice prevClose) as Hkeyed.
  assert (Hmsg : m_symbol message = symbol ∧ m_key message = key).
  { apply (alerts_of_about (default no_rules (priceLevels !! symbol))
             pctThreshold symbol currentPrice prevClose (key, cond, message)).
    rewrite Halerts. apply elem_of_app. right. left. }
  rewrite check_conditions_alerts. rewrite Halerts in *.
  destruct (NoDup_keys_split _ _ _ _ _ Hnodup) as [Hbefore Hafter].
  apply Forall_app in Hkeyed as [Hkb Hka]. apply Forall_cons in Hka as [_ Hka].
  assert (Hb : Forall (λ a : Alert, a.1.1 ≠ key ∧ m_key a.2 = a.1.1) before).
  { apply Forall_and. now split. }
  assert (Ha : Forall (λ a : Alert, a.1.1 ≠ key ∧ m_key a.2 = a.1.1) after).
  { apply Forall_and. now split. }
  unfold mbind at 1. unfold M_bind at 1. unfold kv_get, gets.
  unfold mbind at 1. unfold M_bind at 1.
  set (state := init_state (STOCK_STATE (world r) !! stateKey symbol)).
  pose proof (run_alerts_at host env opts cooldownMs symbol key Hnormal
                before after cond message state r (init_state_well_formed _)
                Hb Ha (proj1 Hmsg) (proj2 Hmsg)) as Hat.
  pose proof (run_alerts_effects host env opts cooldownMs
                (before ++ (key, cond, message) :: after) state r
                (init_state_well_formed _)) as Heff.
  cbn zeta in Hat. unfold triple in Hat, Heff.
  assert (Hprev : prev_of state key = wasMet (world r) symbol key)
    by apply prev_of_init.
  assert (Hlast : last_of state key = lastFiredAt (world r) symbol key)
    by apply last_of_init.
  rewrite Hprev, Hlast in Hat. fold now in Hat. fold fire in Hat.
  destruct (run_alerts _ _ state r) as [[state'|e] r'].
  - destruct Hat as (_ & Hprev' & Hlast' & Hfired'). rewrite Hnormal. cbn.
    split; [|split; [|exact Hfired']].
    + unfold wasMet at 1. unfold stored. cbn. now rewrite lookup_insert_eq.
    + unfold lastFiredAt at 1. unfold stored. cbn. now rewrite lookup_insert_eq.
  - destruct Heff as [Hkv _]. split; [exact Hkv|exact Hat].
Qed.

(** A normal on-demand cycle and a condition it checks.  The clock read of
    the condition's own check decides: a message is delivered only if the
    test holds at that read.  An aborted cycle leaves the KV namespace as it
    was; a cycle that is not aborted records the flag, the time and the
    delivery that the test gives. *)
Lemma cycle_key_exact (w : World) (cond : bool) :
  cycle_cond the_cycle key = Some cond →
  ∃ message,
    m_symbol message = symbol ∧ m_key message = key
    ∧ let now := dateNow host (cycle_read w the_cycle key) in
      let fire := cond && negb (wasMet w symbol key)
                  && ge (sub now (lastFiredAt w symbol key)) cooldownMs in
      let w' := cycle_step w the_cycle in
      (fired symbol key w' = fired symbol key w
       ∨ (fire = true ∧ fired symbol key w' = fired symbol key w ++ [message]))
      ∧ (cycle_aborted w the_cycle = true → STOCK_STATE w' = STOCK_STATE w)
      ∧ (cycle_aborted w the_cycle = false →
         wasMet w' symbol key = cond
         ∧ lastFiredAt w' symbol key
           = (if fire then now else lastFiredAt w symbol key)
         ∧ fired symbol key w'
           = fired symbol key w ++ (if fire then [message] else [])).
Proof.
  unfold cycle_step, cycle_cond, cycle_read, cycle_aborted, cycle_checks,
    cycle_alerts, process_symbol.
  cbn -[checks_before alerts_of].
  destruct (snapshots !! symbol) as [snap|];
    cbn -[checks_before alerts_of]; [|discriminate].
  destruct (currentPrice_of snap) as [currentPrice|];
    cbn -[checks_before alerts_of]; [|discriminate].
  intros Hcond.
  destruct (checked_split _ key cond Hcond)
    as (before & message & after & Halerts & Hbefore).
  assert (Hmsg : m_symbol message = symbol ∧ m_key message = key).
  { apply (alerts_of_about (default no_rules (priceLevels !! symbol))
             pctThreshold symbol currentPrice (prevClose_of snap)
             (key, cond, message)).
    rewrite Halerts. apply elem_of_app. right. left. }
  exists message. split; [apply Hmsg|]. split; [apply Hmsg|].
  pose proof (check_conditions_at currentPrice (prevClose_of snap)
                {| world := w; sent := 0; sentKeys := [] |}
                before after cond message Halerts) as Hcheck.
  cbn zeta in Hcheck. unfold triple in Hcheck. cbn [world] in Hcheck.
  assert (Hread : checks_before
                    (alerts_of (default no_rules (priceLevels !! symbol))
                       pctThreshold symbol currentPrice (prevClose_of snap)) key
                  = length before).
  { rewrite Halerts. now apply checks_before_split. }
  rewrite Hread.
  destruct (check_conditions _ _ _ _ _ _ _ _ _ _) as [[[]|e] r']; cbn.
  - destruct Hcheck as (Hmet & Hlast & Hfired).
    split; [|split; [discriminate|intros _; now repeat split]].
    rewrite Hfired.
    destruct (cond && _ && _); [right; now split|left; apply app_nil_r].
  - destruct Hcheck as (Hkv & Hout). split; [exact Hout|].
    split; [intros _; exact Hkv|discriminate].
Qed.

End ExactCycle.

(** The same for every normal cycle, scheduled or on demand. *)
Lemma normal_cycle_exact `{Builtins} (cy : Cycle) (key : string) (w : World)
    (cond : bool) :
  normal cy → cycle_cond cy key = Some cond →
  ∃ message,
    m_symbol message = cy_symbol cy ∧ m_key message = key
    ∧ let symbol := cy_symbol cy in
      let now := dateNow (cy_host cy) (cycle_read w cy key) in
      let fire := cond && negb (wasMet w symbol key)
                  && ge (sub now (lastFiredAt w symbol key)) (cy_cooldownMs cy) in
      let w' := cycle_step w cy in
      (fired symbol key w' = fired symbol key w
       ∨ (fire = true ∧ fired symbol key w' = fired symbol key w ++ [message]))
      ∧ (cycle_aborted w cy = true → STOCK_STATE w' = STOCK_STATE w)
      ∧ (cycle_aborted w cy = false →
         wasMet w' symbol key = cond
         ∧ lastFiredAt w' symbol key
           = (if fire then now else lastFiredAt w symbol key)
         ∧ fired symbol key w'
           = fired symbol key w ++ (if fire then [message] else [])).
Proof.
  intros Hnormal Hcond. destruct (cy_scheduled cy) eqn:Hs.
  - destruct (cycle_key_exact (cy_host cy) (cy_env cy) None (cy_snapshots cy)
                (cy_priceLevels cy) (cy_pctThreshold cy) (cy_cooldownMs cy)
                (cy_symbol cy) key eq_refl w cond Hcond)
      as (message & Hsym & Hkey & Hout & Haborted & Hrecorded).
    destruct (scheduled_cycle_observed (cy_symbol cy) key cy w Hs)
      as (Hmet & Hlast & Hkv & extra & Hod & Hsc).
    exists (as_scheduled message). split; [exact Hsym|]. split; [exact Hkey|].
    cbn zeta. rewrite (scheduled_cycle_aborted cy w Hs), Hmet, Hlast, Hkv, Hsc.
    change (cycle_read w cy key) with (cycle_read w (on_demand cy) key).
    split; [|split; [exact Haborted|]].
    + destruct Hout as [Hsame|[Hfire Hone]].
      * left. rewrite Hod in Hsame.
        rewrite <- (app_nil_r (fired _ _ w)) in Hsame at 2.
        apply app_inv_head in Hsame as ->. apply app_nil_r.
      * right. split; [exact Hfire|]. rewrite Hod in Hone.
        now apply app_inv_head in Hone as ->.
    + intros Hrun. destruct (Hrecorded Hrun) as (Hm & Hl & Hf).
      split; [exact Hm|]. split; [exact Hl|]. rewrite Hod in Hf.
      apply app_inv_head in Hf as ->. now destruct (cond && _ && _).
  - destruct Hnormal as [Hsched|Hforced]; [congruence|].
    destruct cy as [sched host env opts snaps pl pct cd s]. cbn in *. subst sched.
    now apply cycle_key_exact.
Qed.
(* ===================================================================== *)
(** * A suppressed rising edge is consumed                                *)
(* ===================================================================== *)

(** The claim that a rising edge under cooldown always sets the flag and is
    thereby consumed fails when the cycle is aborted.  From [ex_cooling]
    (AAPL's [price_below] recorded false, fired a minute ago), the cycle
    [ex_abort_cycle] sees [price_below] true within the cooldown and sends
    nothing about it; then [pct_down] fires, the webhook refuses the
    message, and the state is not persisted: the flag is still recorded
    false.  Two hours later [ex_late_cycle] sees [price_below] still true
    and delivers a message about it, although no cycle saw it false. *)
Lemma aborted_edge_not_consumed :
  normal ex_abort_cycle ∧ normal ex_late_cycle
  ∧ wasMet ex_cooling "AAPL" "price_below" = false
  ∧ cycle_cond ex_abort_cycle "price_below" = Some true
  ∧ lt (sub (dateNow (cy_host ex_abort_cycle) 0)
            (lastFiredAt ex_cooling "AAPL" "price_below"))
       (cy_cooldownMs ex_abort_cycle) = true
  ∧ lt (sub (dateNow (cy_host ex_abort_cycle) 3)
            (lastFiredAt ex_cooling "AAPL" "price_below"))
       (cy_cooldownMs ex_abort_cycle) = true
  ∧ fired "AAPL" "price_below" (cycle_step ex_cooling ex_abort_cycle) = []
  ∧ wasMet (cycle_step ex_cooling ex_abort_cycle) "AAPL" "price_below" = false
  ∧ cycle_cond ex_late_cycle "price_below" = Some true
  ∧ length (fired "AAPL" "price_below"
              (cycles_run ex_cooling [ex_abort_cycle; ex_late_cycle])) = 1%nat.
Proof.
  split; [right; reflexivity|]. split; [right; reflexivity|].
  repeat split; vm_compute; reflexivity.
Qed.

(** C1 (amended). For every symbol and condition, over normal cycles
    (iterations of the loop of [runCron], or of [runAlertsOnce] without
    force):
    - a cycle in which the condition is true while the recorded flag is
      false, and in which the time read at the condition's own check is
      less than the cooldown after the last firing, delivers nothing about
      the condition; if the cycle is not aborted the flag is recorded true,
      and if it is aborted the KV namespace is untouched;
    - from a recorded true flag, as long as no cycle evaluates the condition
      false, no cycle delivers anything about the condition and the flag
      stays true;
    - if a message about the condition is delivered after the flag was
      recorded true, an earlier cycle evaluated the condition false and
      recorded it, and nothing was delivered up to that cycle;
    - the world after a run is the world after the cycles of its symbols. *)
Theorem suppressed_edge_is_consumed `{Builtins} (symbol key : string) :
  (∀ cy w,
     normal cy → cy_symbol cy = symbol →
     wasMet w symbol key = false →
     cycle_cond cy key = Some true →
     lt (sub (dateNow (cy_host cy) (cycle_read w cy key))
             (lastFiredAt w symbol key))
        (cy_cooldownMs cy) = true →
     fired symbol key (cycle_step w cy) = fired symbol key w
     ∧ (cycle_aborted w cy = false →
        wasMet (cycle_step w cy) symbol key = true)
     ∧ (cycle_aborted w cy = true →
        STOCK_STATE (cycle_step w cy) = STOCK_STATE w))
  ∧ (∀ cycles w,
       Forall normal cycles →
       wasMet w symbol key = true →
       Forall (λ cy, ¬ condition_false symbol key cy) cycles →
       fired symbol key (cycles_run w cycles) = fired symbol key w
       ∧ wasMet (cycles_run w cycles) symbol key = true)
  ∧ (∀ cycles w,
       Forall normal cycles →
       wasMet w symbol key = true →
       fired symbol key (cycles_run w cycles) ≠ fired symbol key w →
       ∃ before cy after,
         cycles = before ++ cy :: after
         ∧ condition_false symbol key cy
         ∧ wasMet (cycles_run w (before ++ [cy])) symbol key = false
         ∧ fired symbol key (cycles_run w (before ++ [cy])) = fired symbol key w)
  ∧ (∀ host env opts w snapshots,
       alpaca host (run_symbols env opts) = Some snapshots →
       (runAlertsOnce host env opts w).2
       = cycles_run w (on_demand_cycles host env opts snapshots))
  ∧ (∀ host env w snapshots,
       alpaca host (watchlist env) = Some snapshots →
       (Cron.runCron host env w).2
       = cycles_run w (scheduled_cycles host env snapshots)).
Proof.
  split; [|split; [|split; [|split]]].
  - intros cy w Hnormal Hsymbol Hmet Hcond Hcool. subst symbol.
    destruct (normal_cycle_exact cy key w true Hnormal Hcond)
      as (message & _ & _ & Hout & Haborted & Hrecorded).
    cbn zeta in Hout, Haborted, Hrecorded.
    rewrite Hmet, (lt_not_ge _ _ Hcool) in Hout. cbn in Hout.
    split; [destruct Hout as [Hsame|[[=] _]]; exact Hsame|].
    split; [intros Hrun; apply (Hrecorded Hrun)|exact Haborted].
  - intros cycles w. apply met_cycles.
  - intros cycles w. apply refire_needs_false.
  - intros host env opts w snapshots Hfetch.
    rewrite (runAlertsOnce_fetched host env opts w snapshots Hfetch).
    cbn zeta. cbn [snd]. apply run_world_cycles.
  - intros host env w snapshots Hfetch.
    unfold Cron.runCron, fetchSnapshotsAlpaca. rewrite Hfetch.
    cbn -[Cron.process_symbol parsePriceLevels].
    apply cron_world_cycles.
Qed.

Lemma suppressed_edge_is_consumed_witness :
  fired "AAPL" "price_below" ex_met_world = []
  ∧ wasMet ex_met_world "AAPL" "price_below" = true
  ∧ fired "AAPL" "price_below" (cycles_run ex_met_world [ex_cycle; ex_cycle]) = []
  ∧ length (fired "AAPL" "price_below" (cycles_run ex_met_world ex_refire)) = 1%nat
  ∧ (∃ before cy after,
       ex_refire = before ++ cy :: after
       ∧ condition_false "AAPL" "price_below" cy
       ∧ wasMet (cycles_run ex_met_world (before ++ [cy])) "AAPL" "price_below"
         = false)
  ∧ (runAlertsOnce (ex_host (λ _, true)) ex_env None ex_cooling).2
    = cycles_run ex_cooling
        (on_demand_cycles (ex_host (λ _, true)) ex_env None ex_snapshots)
  ∧ (Cron.runCron (ex_host (λ _, true)) ex_env ex_cooling).2
    = cycles_run ex_cooling (scheduled_cycles (ex_host (λ _, true)) ex_env ex_snapshots).
Proof.
  pose proof (suppressed_edge_is_consumed (H := ascii_builtins) "AAPL" "price_below")
    as (Hedge & Hmet & Hrefire & Hrun & Hcron).
  assert (Hnormal : normal ex_cycle) by (right; reflexivity).
  destruct (Hedge ex_cycle ex_cooling Hnormal eq_refl eq_refl eq_refl)
    as (Hfired & Hrecorded & _).
  { vm_compute. reflexivity. }
  assert (Hflag : wasMet ex_met_world "AAPL" "price_below" = true).
  { apply Hrecorded. vm_compute. reflexivity. }
  split; [exact Hfired|]. split; [exact Hflag|]. split; [|split; [|split; [|split]]].
  - refine (proj1 (Hmet [ex_cycle; ex_cycle] ex_met_world _ Hflag _)).
    + repeat constructor; exact Hnormal.
    + repeat constructor; intros [_ Hfalse]; vm_compute in Hfalse; discriminate.
  - vm_compute. reflexivity.
  - destruct (Hrefire ex_refire ex_met_world) as (before & cy & after & Hsplit & Hfalse & Hflag' & _).
    + repeat constructor; right; reflexivity.
    + exact Hflag.
    + vm_compute. discriminate.
    + exists before, cy, after. repeat split; try assumption; apply Hfalse.
  - apply Hrun. reflexivity.
  - apply Hcron. reflexivity.
Defined.

(* ===================================================================== *)
(** * Further properties of the rule parser                               *)
(* ===================================================================== *)

Section ParserMore.
Context `{Builtins}.

(** What an entry binds, by cases: nothing, or one symbol that is not empty
    and is the uppercased, trimmed text before the first colon. *)
Lemma parse_entry_binds (chunk symbol : string) (rules : Rules) :
  parse_entry ∅ chunk !! symbol = Some rules →
  symbol ≠ ""
  ∧ symbol = toUpperCase (trim (default "" (split ":" (trim chunk) !! 0%nat)))
  ∧ ∃ rulesRaw,
      split ":" (trim chunk) !! 1%nat = Some rulesRaw ∧ rulesRaw ≠ ""
      ∧ rules = foldl parse_clause no_rules (split "," rulesRaw).
Proof.
  unfold parse_entry.
  destruct (negb (nonempty (trim chunk))); [now rewrite lookup_empty|].
  destruct (split ":" (trim chunk) !! 1%nat) as [rulesRaw|];
    [|now rewrite lookup_empty].
  destruct (nonempty (toUpperCase _)) eqn:Hsym; cbn;
    [|now rewrite lookup_empty].
  destruct (nonempty rulesRaw) eqn:Hraw; cbn; [|now rewrite lookup_empty].
  intros Hl. apply lookup_insert_Some in Hl as [[<- <-]|[_ Hl]];
    [|now rewrite lookup_empty in Hl].
  split; [intros Heq; now rewrite Heq in Hsym|]. split; [reflexivity|].
  exists rulesRaw. split; [reflexivity|]. split; [|reflexivity].
  intros ->. discriminate.
Qed.

(** The lookup of a symbol after a sequence of entries is the binding of the
    last entry that binds it. *)
Lemma foldl_parse_entry_lookup (l : list string) (out : gmap string Rules)
    (symbol : string) :
  foldl parse_entry out l !! symbol
  = foldl (λ acc chunk, match parse_entry ∅ chunk !! symbol with
                        | Some r => Some r
                        | None => acc
                        end) (out !! symbol) l.
Proof.
  revert out. induction l as [|chunk l IH]; intros out; [reflexivity|].
  cbn [foldl]. rewrite IH, parse_entry_lookup. reflexivity.
Qed.

Lemma last_binding_None (l : list string) (acc : option Rules) (symbol : string) :
  foldl (λ acc chunk, match parse_entry ∅ chunk !! symbol with
                      | Some r => Some r
                      | None => acc
                      end) acc l = None
  ↔ acc = None ∧ ∀ chunk, chunk ∈ l → parse_entry ∅ chunk !! symbol = None.
Proof.
  revert acc. induction l as [|chunk l IH]; intros acc; cbn [foldl].
  - split; [intros ->; split; [reflexivity|]|tauto].
    intros chunk Hin. now apply elem_of_nil in Hin.
  - rewrite IH. split.
    + intros [Hacc Hl]. destruct (parse_entry ∅ chunk !! symbol) eqn:Hc;
        [discriminate|].
      split; [assumption|]. intros c Hin.
      apply elem_of_cons in Hin as [->|Hin]; auto.
    + intros [-> Hl]. split.
      * now rewrite (Hl chunk) by left.
      * intros c Hin. apply Hl. now right.
Qed.

Lemma last_binding_Some (l : list string) (acc : option Rules) (symbol : string)
    (rules : Rules) :
  foldl (λ acc chunk, match parse_entry ∅ chunk !! symbol with
                      | Some r => Some r
                      | None => acc
                      end) acc l = Some rules →
  acc = Some rules
  ∨ ∃ chunk, chunk ∈ l ∧ parse_entry ∅ chunk !! symbol = Some rules.
Proof.
  revert acc. induction l as [|chunk l IH]; intros acc; cbn [foldl];
    [now left|].
  intros Hl. apply IH in Hl as [Hl|(c & Hin & Hc)].
  - destruct (parse_entry ∅ chunk !! symbol) eqn:Hc.
    + right. exists chunk. split; [left|congruence].
    + now left.
  - right. exists c. split; [now right|assumption].
Qed.

End ParserMore.

(** X1. Every key of the parsed mapping is a symbol some entry of the input
    binds: it is not empty, it is the uppercased, trimmed text before the
    entry's first colon, and its rules are the ones read from the entry's
    non-empty clause list. *)
Theorem parsePriceLevels_keys `{Builtins} (input symbol : string) (rules : Rules) :
  parsePriceLevels input !! symbol = Some rules →
  symbol ≠ ""
  ∧ ∃ chunk rulesRaw,
      chunk ∈ split ";" input
      ∧ symbol = toUpperCase (trim (default "" (split ":" (trim chunk) !! 0%nat)))
      ∧ split ":" (trim chunk) !! 1%nat = Some rulesRaw ∧ rulesRaw ≠ ""
      ∧ rules = foldl parse_clause no_rules (split "," rulesRaw).
Proof.
  unfold parsePriceLevels.
  destruct (negb (nonempty input) || String.eqb (trim input) "");
    [now rewrite lookup_empty|].
  rewrite foldl_parse_entry_lookup, lookup_empty. intros Hl.
  apply last_binding_Some in Hl as [Hl|(chunk & Hin & Hc)]; [discriminate|].
  apply parse_entry_binds in Hc as (Hne & Hsym & rulesRaw & Hraw & Hraw' & Hrules).
  split; [assumption|]. now exists chunk, rulesRaw.
Qed.

Lemma parsePriceLevels_keys_witness :
  "TSLA" ≠ ""
  ∧ ∃ chunk rulesRaw,
      chunk ∈ split ";" " aapl:below=1; tsla : above = 260 "
      ∧ "TSLA" = toUpperCase (trim (default "" (split ":" (trim chunk) !! 0%nat)))
      ∧ split ":" (trim chunk) !! 1%nat = Some rulesRaw ∧ rulesRaw ≠ ""
      ∧ {| below := None; above := Some (ofZ 260) |}
        = foldl parse_clause no_rules (split "," rulesRaw).
Proof.
  apply (parsePriceLevels_keys " aapl:below=1; tsla : above = 260 " "TSLA").
  vm_compute. reflexivity.
Defined.

(** X2. A symbol is missing from the parsed mapping exactly when the input
    is blank or no entry of it binds the symbol; entries that are skipped
    (empty, without a colon, without a symbol or without clauses) bind
    nothing. *)
Theorem parsePriceLevels_missing `{Builtins} (input symbol : string) :
  parsePriceLevels input !! symbol = None
  ↔ input = "" ∨ trim input = ""
    ∨ ∀ chunk, chunk ∈ split ";" input → parse_entry ∅ chunk !! symbol = None.
Proof.
  unfold parsePriceLevels. destruct input as [|c input].
  - cbn. rewrite lookup_empty. tauto.
  - cbn [nonempty negb orb].
    destruct (String.eqb_spec (trim (String c input)) "") as [Heq|Hne].
    + rewrite lookup_empty. tauto.
    + rewrite foldl_parse_entry_lookup, lookup_empty, last_binding_None.
      split; [tauto|]. intros [Hempty|[Hblank|Hnone]];
        [discriminate|contradiction|tauto].
Qed.

Section ClauseFacts.
Context `{Builtins}.

(** What a clause sets does not depend on the rules it is applied to. *)
Lemma parse_clause_fields (rules : Rules) (kv : string) :
  below (parse_clause rules kv)
  = match below (parse_clause no_rules kv) with
    | Some x => Some x
    | None => below rules
    end
  ∧ above (parse_clause rules kv)
    = match above (parse_clause no_rules kv) with
      | Some x => Some x
      | None => above rules
      end.
Proof.
  unfold parse_clause. destruct (isFinite (Number _)); cbn; [|now split].
  repeat case_decide; cbn; split; reflexivity.
Qed.

Lemma foldl_parse_clause_below (l : list string) (rules : Rules) :
  (∀ kv, kv ∈ l → below (parse_clause no_rules kv) = None) →
  below (foldl parse_clause rules l) = below rules.
Proof.
  revert rules. induction l as [|kv l IH]; intros rules Hl; [reflexivity|].
  cbn [foldl]. rewrite IH by (intros ? ?; apply Hl; now right).
  rewrite (proj1 (parse_clause_fields rules kv)), Hl by left. reflexivity.
Qed.

Lemma foldl_parse_clause_above (l : list string) (rules : Rules) :
  (∀ kv, kv ∈ l → above (parse_clause no_rules kv) = None) →
  above (foldl parse_clause rules l) = above rules.
Proof.
  revert rules. induction l as [|kv l IH]; intros rules Hl; [reflexivity|].
  cbn [foldl]. rewrite IH by (intros ? ?; apply Hl; now right).
  rewrite (proj2 (parse_clause_fields rules kv)), Hl by left. reflexivity.
Qed.

End ClauseFacts.

(** X3. Within one entry the last clause that sets a key wins, for [below]
    and [above] independently; a clause sets a key only when its trimmed
    name is that key and its value converts to a finite number, and any
    other clause (unknown name, missing or non-finite value) changes
    nothing. *)
Theorem parse_clause_last_wins `{Builtins} :
  (∀ rules kv,
     (isFinite (Number (List.map trim (split "=" kv) !! 1%nat)) = false
      ∨ (List.map trim (split "=" kv) !! 0%nat ≠ Some "below"
         ∧ List.map trim (split "=" kv) !! 0%nat ≠ Some "above")) →
     parse_clause rules kv = rules)
  ∧ (∀ rules before kv after x,
       below (parse_clause no_rules kv) = Some x →
       (∀ kv', kv' ∈ after → below (parse_clause no_rules kv') = None) →
       below (foldl parse_clause rules (before ++ kv :: after)) = Some x
       ∧ List.map trim (split "=" kv) !! 0%nat = Some "below"
       ∧ x = Number (List.map trim (split "=" kv) !! 1%nat)
       ∧ isFinite x = true)
  ∧ (∀ rules before kv after x,
       above (parse_clause no_rules kv) = Some x →
       (∀ kv', kv' ∈ after → above (parse_clause no_rules kv') = None) →
       above (foldl parse_clause rules (before ++ kv :: after)) = Some x
       ∧ List.map trim (split "=" kv) !! 0%nat = Some "above"
       ∧ x = Number (List.map trim (split "=" kv) !! 1%nat)
       ∧ isFinite x = true).
Proof.
  split; [|split].
  - intros rules kv Hskip. unfold parse_clause.
    destruct (isFinite (Number _)) eqn:Hfin; cbn; [|reflexivity].
    destruct Hskip as [Hskip|[Hb Ha]]; [congruence|].
    rewrite !decide_False by assumption. reflexivity.
  - intros rules before kv after x Hkv Hafter.
    rewrite foldl_app. cbn [foldl].
    rewrite foldl_parse_clause_below by assumption.
    rewrite (proj1 (parse_clause_fields _ kv)), Hkv.
    split; [reflexivity|]. revert Hkv. unfold parse_clause.
    destruct (isFinite (Number _)) eqn:Hfin; cbn; [|discriminate].
    repeat case_decide; cbn; intros [= <-]; auto; congruence.
  - intros rules before kv after x Hkv Hafter.
    rewrite foldl_app. cbn [foldl].
    rewrite foldl_parse_clause_above by assumption.
    rewrite (proj2 (parse_clause_fields _ kv)), Hkv.
    split; [reflexivity|]. revert Hkv. unfold parse_clause.
    destruct (isFinite (Number _)) eqn:Hfin; cbn; [|discriminate].
    repeat case_decide; cbn; intros [= <-]; auto; congruence.
Qed.

Lemma parse_clause_last_wins_witness :
  parse_clause {| below := Some (ofZ 1); above := None |} "limit=5"
  = {| below := Some (ofZ 1); above := None |}
  ∧ below (foldl parse_clause no_rules ["below=170"; " below = 160 "; "above=x"])
    = Some (ofZ 160).
Proof.
  destruct (parse_clause_last_wins (H := ascii_builtins)) as (Hskip & Hbelow & _).
  split.
  - apply Hskip. right. split; vm_compute; discriminate.
  - apply (Hbelow no_rules ["below=170"] " below = 160 " ["above=x"]).
    + vm_compute. reflexivity.
    + intros kv' Hin. apply list_elem_of_singleton in Hin as ->.
      vm_compute. reflexivity.
Defined.

(* ===================================================================== *)
(** * The firing rule of a normal cycle                                    *)
(* ===================================================================== *)

(** X4. In a normal cycle (scheduled or on demand, aborted or not) at most
    one message about a condition of the cycle's symbol is delivered; one is
    delivered only if the cycle evaluates the condition true, the stored
    flag of the condition is not set, and the time read at the condition's
    own check (the clock read that follows those of the checks made before
    it in the cycle) is at least the cooldown after the stored time of its
    last notification. *)
Theorem normal_cycle_fires_at_most_once `{Builtins} (cy : Cycle) (key : string)
    (w : World) :
  normal cy →
  let symbol := cy_symbol cy in
  let w' := cycle_step w cy in
  let now := dateNow (cy_host cy) (cycle_read w cy key) in
  fired symbol key w' = fired symbol key w
  ∨ ∃ message,
      m_symbol message = symbol ∧ m_key message = key
      ∧ cycle_cond cy key = Some true
      ∧ wasMet w symbol key = false
      ∧ ge (sub now (lastFiredAt w symbol key)) (cy_cooldownMs cy) = true
      ∧ fired symbol key w' = fired symbol key w ++ [message].
Proof.
  intros Hnormal symbol w' now.
  destruct (cycle_cond cy key) as [cond|] eqn:Hcond.
  - destruct (normal_cycle_exact cy key w cond Hnormal Hcond)
      as (message & Hsym & Hkey & [Hsame|[Hfire Hfired]] & _);
      [now left|right].
    apply andb_prop in Hfire as [Hfire Hge].
    apply andb_prop in Hfire as [-> Hmet]. apply negb_true_iff in Hmet.
    exists message. now repeat split.
  - left. destruct (normal_cycle_key (cy_symbol cy) key cy w Hnormal eq_refl)
      as (_ & [Hsame|(_ & Hc & _)]); [exact Hsame|congruence].
Qed.

Lemma normal_cycle_fires_at_most_once_witness :
  normal ex_late_cycle
  ∧ cycle_read ex_cooling ex_late_cycle "pct_down" = 3%nat
  ∧ (fired "AAPL" "pct_down" (cycle_step ex_cooling ex_late_cycle)
     = fired "AAPL" "pct_down" ex_cooling
     ∨ ∃ message,
         m_symbol message = "AAPL" ∧ m_key message = "pct_down"
         ∧ cycle_cond ex_late_cycle "pct_down" = Some true
         ∧ wasMet ex_cooling "AAPL" "pct_down" = false
         ∧ ge (sub (dateNow ex_late_host
                      (cycle_read ex_cooling ex_late_cycle "pct_down"))
                 (lastFiredAt ex_cooling "AAPL" "pct_down"))
             (cooldownMs_of ex_env) = true
         ∧ fired "AAPL" "pct_down" (cycle_step ex_cooling ex_late_cycle)
           = fired "AAPL" "pct_down" ex_cooling ++ [message]).
Proof.
  assert (Hnormal : normal ex_late_cycle) by (right; reflexivity).
  split; [exact Hnormal|]. split; [reflexivity|].
  exact (normal_cycle_fires_at_most_once ex_late_cycle "pct_down" ex_cooling
           Hnormal).
Defined.

(** X5. The firing rule of a normal cycle that is not aborted, for a
    condition the cycle checks.  With [now] the time read at the
    condition's own check (the clock read that follows those of the checks
    made before it in the cycle) and [fire] the conjunction of the
    condition's value, the negation of the stored flag and the cooldown
    test at [now], the cycle stores the condition's value as the flag,
    delivers exactly one message if [fire] holds and none otherwise, and
    stores [now] as the time of the last notification only if [fire] holds;
    a suppressed or falling condition leaves that time as it was. *)
Theorem completed_cycle_firing_rule `{Builtins} (cy : Cycle) (key : string)
    (w : World) (cond : bool) :
  normal cy → cycle_aborted w cy = false → cycle_cond cy key = Some cond →
  let symbol := cy_symbol cy in
  let w' := cycle_step w cy in
  let now := dateNow (cy_host cy) (cycle_read w cy key) in
  let fire := cond && negb (wasMet w symbol key)
              && ge (sub now (lastFiredAt w symbol key)) (cy_cooldownMs cy) in
  ∃ message,
    m_symbol message = symbol ∧ m_key message = key
    ∧ wasMet w' symbol key = cond
    ∧ lastFiredAt w' symbol key
      = (if fire then now else lastFiredAt w symbol key)
    ∧ fired symbol key w'
      = fired symbol key w ++ (if fire then [message] else []).
Proof.
  intros Hnormal Hrun Hcond symbol w' now fire.
  destruct (normal_cycle_exact cy key w cond Hnormal Hcond)
    as (message & Hsym & Hkey & _ & _ & Hrec).
  exists message. split; [exact Hsym|]. split; [exact Hkey|]. exact (Hrec Hrun).
Qed.

Lemma completed_cycle_firing_rule_witness :
  cycle_read ex_cooling ex_late_cycle "pct_down" = 3%nat
  ∧ ∃ message,
      m_symbol message = "AAPL" ∧ m_key message = "pct_down"
      ∧ wasMet (cycle_step ex_cooling ex_late_cycle) "AAPL" "pct_down" = true
      ∧ lastFiredAt (cycle_step ex_cooling ex_late_cycle) "AAPL" "pct_down"
        = (if true && negb (wasMet ex_cooling "AAPL" "pct_down")
              && ge (sub (dateNow ex_late_host 3)
                       (lastFiredAt ex_cooling "AAPL" "pct_down"))
                   (cooldownMs_of ex_env)
           then dateNow ex_late_host 3
           else lastFiredAt ex_cooling "AAPL" "pct_down")
      ∧ fired "AAPL" "pct_down" (cycle_step ex_cooling ex_late_cycle)
        = fired "AAPL" "pct_down" ex_cooling
          ++ (if true && negb (wasMet ex_cooling "AAPL" "pct_down")
                 && ge (sub (dateNow ex_late_host 3)
                          (lastFiredAt ex_cooling "AAPL" "pct_down"))
                      (cooldownMs_of ex_env)
              then [message] else []).
Proof.
  split; [reflexivity|].
  apply (completed_cycle_firing_rule ex_late_cycle "pct_down" ex_cooling true).
  - right. reflexivity.
  - vm_compute. reflexivity.
  - vm_compute. reflexivity.
Defined.

(* ===================================================================== *)
(** * The summary accounts for the deliveries                              *)
(* ===================================================================== *)

Section Accounting.
Context `{Builtins} (host : Host) (env : Env) (opts : option Opts).
Context (snapshots : gmap string AlpacaSnapshot).

Lemma run_step_accounting (r : Run) (details : list Detail.t) (symbol : string) :
  ∃ r' d new,
    run_step host env opts snapshots (r, details) symbol = (r', details ++ [d])
    ∧ Detail.symbol d = symbol
    ∧ delivered (world r') = delivered (world r) ++ new
    ∧ sent r' = (sent r + length new)%nat
    ∧ about <$> new = pair symbol <$> Detail.sent d.
Proof.
  unfold run_step.
  destruct (process_symbol_effects host env opts snapshots
              (priceLevels_of env) (pctThreshold_of env) (cooldownMs_of env)
              r details symbol)
    as (r' & d & Heq & Hsym & Hsent & (f & Hsub & _ & Hd & Hkeys & Hcount) & _).
  exists r', d, f.*2. split; [exact Heq|]. split; [exact Hsym|].
  cbn in Hd, Hkeys, Hcount. split; [exact Hd|].
  split; [now rewrite length_fmap|].
  rewrite Hsent, Hkeys, <- !list_fmap_compose.
  apply Forall_fmap_ext_1, Forall_forall. intros a Ha. unfold about. cbn.
  apply (sublist_subseteq _ _ Hsub), cycle_alerts_about in Ha as [-> ->].
  reflexivity.
Qed.

Lemma run_accounting (symbols : list string) (acc : Run * list Detail.t) :
  let acc' := foldl (run_step host env opts snapshots) acc symbols in
  ∃ added new,
    acc'.2 = acc.2 ++ added
    ∧ delivered (world acc'.1) = delivered (world acc.1) ++ new
    ∧ sent acc'.1 = (sent acc.1 + length new)%nat
    ∧ about <$> new = listed added.
Proof.
  revert acc. induction symbols as [|symbol symbols IH]; intros [r details].
  - exists [], []. cbn. rewrite !app_nil_r. repeat split. lia.
  - cbn [foldl].
    destruct (run_step_accounting r details symbol)
      as (r' & d & new & -> & Hsym & Hd & Hcount & Habout).
    destruct (IH (r', details ++ [d])) as (added & new' & Ha & Hd' & Hcount' & Hl).
    cbn zeta in *. cbn [fst snd] in *.
    exists (d :: added), (new ++ new').
    rewrite Ha, Hd', Hcount', Hd, Hcount, <- !app_assoc, length_app, fmap_app.
    repeat split; [lia|].
    unfold listed in *. rewrite bind_cons, Hl, Habout, Hsym. reflexivity.
Qed.

End Accounting.

(** X6. A run of [runAlertsOnce] that returns a summary appended to the
    delivered messages exactly the notifications its details list: [sent]
    is the number of messages delivered during the run, and the messages,
    in the order of delivery, are about the symbol of each detail with
    each of its sent keys in turn; [ok] is true and [symbols] is the number
    of details. *)
Theorem summary_accounts_for_deliveries `{Builtins} (host : Host) (env : Env)
    (opts : option Opts) (w w' : World) (summary : Summary.t) :
  runAlertsOnce host env opts w = (Normal summary, w') →
  ∃ new,
    delivered w' = delivered w ++ new
    ∧ Summary.sent summary = length new
    ∧ about <$> new = listed (Summary.details summary)
    ∧ Summary.ok summary = true
    ∧ Summary.symbols summary = length (Summary.details summary).
Proof.
  destruct (alpaca host (run_symbols env opts)) as [snapshots|] eqn:Hfetch.
  - rewrite (runAlertsOnce_fetched host env opts w snapshots Hfetch). cbn zeta.
    intros [= <- <-]. cbn.
    destruct (run_accounting host env opts snapshots (run_symbols env opts)
                ({| world := w; sent := 0; sentKeys := [] |}, []))
      as (added & new & Ha & Hd & Hcount & Hl).
    cbn zeta in *. cbn [fst snd world sent] in *. exists new.
    rewrite Ha. cbn. repeat split; try assumption.
    pose proof (run_details_symbols host env opts snapshots (run_symbols env opts)
                  ({| world := w; sent := 0; sentKeys := [] |}, [])) as Hs.
    rewrite Ha in Hs. cbn in Hs. rewrite <- Hs. now rewrite length_fmap.
  - rewrite (runAlertsOnce_fetch_failed host env opts w Hfetch). discriminate.
Qed.

Lemma summary_accounts_for_deliveries_witness :
  ∃ new,
    delivered ex_normal_run.2 = delivered ex_world ++ new
    ∧ Summary.sent ex_summary = length new
    ∧ about <$> new = listed (Summary.details ex_summary)
    ∧ Summary.ok ex_summary = true
    ∧ Summary.symbols ex_summary = length (Summary.details ex_summary).
Proof.
  apply (summary_accounts_for_deliveries (ex_host (λ _, true)) ex_env None
           ex_world ex_normal_run.2 ex_summary).
  vm_compute. reflexivity.
Defined.

(* ===================================================================== *)
(** * Running again on the same batch                                      *)
(* ===================================================================== *)

(** What a cycle delivers is about its symbol. *)
Lemma cycle_step_delivers `{Builtins} (cy : Cycle) (w : World) :
  ∃ new, delivered (cycle_step w cy) = delivered w ++ new
         ∧ Forall (λ m, m_symbol m = cy_symbol cy) new.
Proof.
  assert (Hod : ∀ host env opts snaps pl pct cd s,
    ∃ new,
      delivered (cycle_step w (mkCycle false host env opts snaps pl pct cd s))
      = delivered w ++ new
      ∧ Forall (λ m, m_symbol m = s) new).
  { intros host env opts snaps pl pct cd s. unfold cycle_step.
    cbn -[process_symbol].
    destruct (process_symbol_effects host env opts snaps pl pct cd
                {| world := w; sent := 0; sentKeys := [] |} [] s)
      as (r' & d & -> & _ & _ & (f & Hsub & _ & Hd & _) & _).
    cbn in Hd |- *. exists f.*2. split; [exact Hd|].
    apply Forall_fmap, Forall_forall. intros a Ha. cbn.
    now apply (sublist_subseteq _ _ Hsub), cycle_alerts_about in Ha as [Ha _]. }
  destruct (cy_scheduled cy) eqn:Hs.
  - destruct (scheduled_cycle_step cy w Hs) as (_ & _ & _ & new & Hod' & ->).
    destruct (Hod (cy_host cy) (cy_env cy) None (cy_snapshots cy)
                (cy_priceLevels cy) (cy_pctThreshold cy) (cy_cooldownMs cy)
                (cy_symbol cy)) as (new' & Hnew & Hsym).
    rewrite Hod' in Hnew. apply app_inv_head in Hnew as ->.
    exists (as_scheduled <$> new'). split; [reflexivity|].
    apply Forall_fmap. exact Hsym.
  - destruct cy as [sched host env opts snaps pl pct cd s]. cbn in *. subst sched.
    apply Hod.
Qed.

(** Messages about one symbol, none of them about any of its conditions. *)
Lemma quiet_by_key (symbol : string) (w w' : World) (new : list Message) :
  delivered w' = delivered w ++ new →
  Forall (λ m, m_symbol m = symbol) new →
  (∀ key, fired symbol key w' = fired symbol key w) →
  new = [].
Proof.
  intros Hd Hsym Hquiet. destruct new as [|m new]; [reflexivity|exfalso].
  apply Forall_cons in Hsym as [Hm _].
  specialize (Hquiet (m_key m)).
  rewrite (fired_app symbol (m_key m) w w' _ Hd) in Hquiet.
  rewrite filter_cons_True in Hquiet by now split.
  apply (f_equal length) in Hquiet. rewrite length_app in Hquiet.
  cbn in Hquiet. lia.
Qed.

Section Settled.
Context `{Builtins} (snapshots : gmap string AlpacaSnapshot).
Context (priceLevels : gmap string Rules) (pctThreshold : number).

Abbreviation settled_for := (settled snapshots priceLevels pctThreshold).
Abbreviation of_batch := (evaluates snapshots priceLevels pctThreshold).

Lemma of_batch_cond (cy : Cycle) (key : string) :
  of_batch cy →
  cycle_cond cy key
  = checked (cycle_alerts snapshots priceLevels pctThreshold (cy_symbol cy)) key.
Proof. intros (<- & <- & <-). reflexivity. Qed.

(** A normal cycle of the batch keeps every symbol settled. *)
Lemma settled_step (cy : Cycle) (symbol : string) (w : World) :
  normal cy → of_batch cy →
  settled_for symbol w → settled_for symbol (cycle_step w cy).
Proof.
  intros Hnormal Hbatch Hsettled key Hkey.
  destruct (decide (cy_symbol cy = symbol)) as [Heq|Hne].
  - destruct (normal_cycle_key symbol key cy w Hnormal Heq) as ([Hkv|Hmet] & _).
    + unfold wasMet, stored. rewrite Hkv. now apply Hsettled.
    + rewrite Hmet, (of_batch_cond cy key Hbatch), Heq, Hkey. reflexivity.
  - destruct (other_cycle_key symbol key cy w Hne) as (_ & -> & _).
    now apply Hsettled.
Qed.

(** A normal cycle of the batch that is not aborted settles its symbol. *)
Lemma completed_step_settles (cy : Cycle) (w : World) :
  normal cy → of_batch cy → cycle_aborted w cy = false →
  settled_for (cy_symbol cy) (cycle_step w cy).
Proof.
  intros Hnormal Hbatch Hrun key Hkey.
  rewrite <- (of_batch_cond cy key Hbatch) in Hkey.
  destruct (normal_cycle_exact cy key w true Hnormal Hkey)
    as (message & _ & _ & _ & _ & Hrecorded).
  apply (Hrecorded Hrun).
Qed.

(** In a world settled for its symbol a normal cycle of the batch delivers
    nothing. *)
Lemma settled_step_quiet (cy : Cycle) (w : World) :
  normal cy → of_batch cy → settled_for (cy_symbol cy) w →
  delivered (cycle_step w cy) = delivered w.
Proof.
  intros Hnormal Hbatch Hsettled.
  destruct (cycle_step_delivers cy w) as (new & Hd & Hsym).
  rewrite Hd, (quiet_by_key (cy_symbol cy) w (cycle_step w cy) new Hd Hsym);
    [apply app_nil_r|].
  intros key.
  destruct (normal_cycle_key (cy_symbol cy) key cy w Hnormal eq_refl)
    as (_ & [Hsame|(Hmet & Hcond & _)]); [exact Hsame|].
  rewrite (of_batch_cond cy key Hbatch) in Hcond.
  rewrite (Hsettled key Hcond) in Hmet. discriminate.
Qed.

(** Normal cycles of the batch in a world settled for their symbols deliver
    nothing. *)
Lemma settled_cycles_quiet (cycles : list Cycle) (w : World) :
  Forall (λ cy, normal cy ∧ of_batch cy) cycles →
  Forall (λ cy, settled_for (cy_symbol cy) w) cycles →
  delivered (cycles_run w cycles) = delivered w.
Proof.
  revert w. induction cycles as [|cy cycles IH]; intros w Hall Hsettled;
    [reflexivity|].
  apply Forall_cons in Hall as [[Hnormal Hbatch] Hall].
  apply Forall_cons in Hsettled as [Hcy Hsettled].
  change (cycles_run w (cy :: cycles)) with (cycles_run (cycle_step w cy) cycles).
  rewrite IH; [now apply settled_step_quiet|exact Hall|].
  eapply Forall_impl; [exact Hsettled|]. intros cy' Hcy'.
  now apply settled_step.
Qed.

End Settled.

Section Completed.
Context `{Builtins} (host : Host) (env : Env) (opts : option Opts).
Context (snapshots : gmap string AlpacaSnapshot).

Abbreviation cycle_of symbol :=
  (mkCycle false host env opts snapshots (priceLevels_of env)
     (pctThreshold_of env) (cooldownMs_of env) symbol).

(** An iteration of the loop of [runAlertsOnce] is the cycle of its symbol:
    it pushes one detail, whose note is ["error"] exactly when the cycle is
    aborted. *)
Lemma run_step_cycle (r : Run) (details : list Detail.t) (symbol : string) :
  ∃ r' d,
    run_step host env opts snapshots (r, details) symbol = (r', details ++ [d])
    ∧ world r' = cycle_step (world r) (cycle_of symbol)
    ∧ Detail.symbol d = symbol
    ∧ (Detail.note d = Some "error" ↔ cycle_aborted (world r) (cycle_of symbol) = true).
Proof.
  unfold run_step, process_symbol, cycle_step, cycle_aborted, cycle_checks.
  cbn -[check_conditions].
  destruct (snapshots !! symbol) as [snap|];
    [|eexists _, _; repeat split; cbn; discriminate].
  destruct (currentPrice_of snap) as [currentPrice|];
    [|eexists _, _; repeat split; cbn; discriminate].
  pose proof (check_conditions_same_world host env opts (priceLevels_of env)
                (pctThreshold_of env) (cooldownMs_of env) symbol currentPrice
                (prevClose_of snap)
                {| world := world r; sent := sent r; sentKeys := [] |}
                {| world := world r; sent := 0; sentKeys := [] |} eq_refl)
    as Hrel.
  destruct (check_conditions _ _ _ _ _ _ _ _ _ {| sent := sent r |})
    as [[[]|e1] x1],
    (check_conditions _ _ _ _ _ _ _ _ _ {| sent := 0 |}) as [[[]|e2] x2];
    try contradiction; destruct Hrel as [_ Hw]; cbn;
    eexists _, _; (split; [reflexivity|]); cbn;
    (split; [exact Hw|]); (split; [reflexivity|]); split; congruence.
Qed.

(** The symbols of a normal run none of whose details notes an error are
    settled after the run. *)
Lemma completed_run_settles (symbols : list string) (acc : Run * list Detail.t) :
  forced opts = false →
  let acc' := foldl (run_step host env opts snapshots) acc symbols in
  ∃ added,
    acc'.2 = acc.2 ++ added
    ∧ (Forall (λ d, Detail.note d ≠ Some "error") added →
       Forall (λ symbol, settled snapshots (priceLevels_of env)
                           (pctThreshold_of env) symbol (world acc'.1))
         symbols).
Proof.
  intros Hnormal. cbn zeta.
  induction symbols as [|symbol symbols IH] using rev_ind.
  - exists []. cbn. rewrite app_nil_r. split; [reflexivity|constructor].
  - rewrite foldl_app. cbn [foldl].
    destruct IH as (added & Ha & IH).
    destruct (foldl _ acc symbols) as [r details]. cbn [fst snd] in *.
    destruct (run_step_cycle r details symbol) as (r' & d & -> & Hw & _ & Hnote).
    cbn [fst snd]. exists (added ++ [d]). rewrite Ha, app_assoc.
    split; [reflexivity|]. intros Hall.
    apply Forall_app in Hall as [Hall Hd]. apply Forall_cons in Hd as [Hd _].
    assert (Hrun : cycle_aborted (world r) (cycle_of symbol) = false).
    { destruct (cycle_aborted _ _); [|reflexivity].
      now destruct Hd; apply Hnote. }
    rewrite Hw. apply Forall_app. split.
    + eapply Forall_impl; [exact (IH Hall)|]. intros symbol' Hsettled.
      apply settled_step; [now right|now repeat split|exact Hsettled].
    + constructor; [|constructor].
      apply (completed_step_settles snapshots (priceLevels_of env)
               (pctThreshold_of env) (cycle_of symbol) (world r));
        [now right|now repeat split|exact Hrun].
Qed.

End Completed.

(** X7. Running again on the same batch is quiet: after a normal run of
    [runAlertsOnce] none of whose details notes an error (no iteration of
    its loop was aborted), a second normal run with the same configuration
    and the same snapshots delivers no message, whatever time has passed
    and whatever the webhook does; its summary counts no notification and
    its details list none. *)
Theorem rerun_is_quiet `{Builtins} (host1 host2 : Host) (env : Env)
    (opts : option Opts) (w : World) (snapshots : gmap string AlpacaSnapshot)
    (summary1 : Summary.t) (w1 : World) :
  forced opts = false →
  alpaca host1 (run_symbols env opts) = Some snapshots →
  alpaca host2 (run_symbols env opts) = Some snapshots →
  runAlertsOnce host1 env opts w = (Normal summary1, w1) →
  Forall (λ d, Detail.note d ≠ Some "error") (Summary.details summary1) →
  ∃ summary w2,
    runAlertsOnce host2 env opts w1 = (Normal summary, w2)
    ∧ delivered w2 = delivered w1
    ∧ Summary.sent summary = 0%nat
    ∧ listed (Summary.details summary) = [].
Proof.
  intros Hnormal Hfetch1 Hfetch2 Hrun1 Hnotes.
  rewrite (runAlertsOnce_fetched host1 env opts w snapshots Hfetch1) in Hrun1.
  cbn zeta in Hrun1.
  destruct (completed_run_settles host1 env opts snapshots (run_symbols env opts)
              ({| world := w; sent := 0; sentKeys := [] |}, []) Hnormal)
    as (added & Ha & Hsettle).
  cbn zeta in Ha, Hsettle. cbn [snd app] in Ha.
  injection Hrun1 as <- <-. cbn [Summary.details] in Hnotes.
  rewrite Ha in Hnotes. specialize (Hsettle Hnotes).
  set (w1 := world (foldl (run_step host1 env opts snapshots)
                      ({| world := w; sent := 0; sentKeys := [] |}, [])
                      (run_symbols env opts)).1) in *.
  rewrite (runAlertsOnce_fetched host2 env opts w1 snapshots Hfetch2). cbn zeta.
  eexists _, _. split; [reflexivity|].
  pose proof (run_world_cycles host2 env opts snapshots (run_symbols env opts)
                ({| world := w1; sent := 0; sentKeys := [] |}, [])) as Hw2.
  cbn [fst world] in Hw2.
  destruct (run_accounting host2 env opts snapshots (run_symbols env opts)
              ({| world := w1; sent := 0; sentKeys := [] |}, []))
    as (added2 & new & Ha2 & Hd & Hcount & Hl).
  cbn zeta in Ha2, Hd, Hcount. cbn [fst snd world sent] in Ha2, Hd, Hcount.
  assert (Hquiet : delivered (world (foldl (run_step host2 env opts snapshots)
                     ({| world := w1; sent := 0; sentKeys := [] |}, [])
                     (run_symbols env opts)).1) = delivered w1).
  { rewrite Hw2.
    apply (settled_cycles_quiet snapshots (priceLevels_of env) (pctThreshold_of env)).
    - apply Forall_fmap, Forall_forall. intros symbol _. cbn.
      split; [now right|now repeat split].
    - apply Forall_fmap. exact Hsettle. }
  rewrite Hquiet in Hd.
  assert (Hnew : new = []).
  { apply (app_inv_head (delivered w1)). now rewrite app_nil_r. }
  subst new. cbn [Summary.sent Summary.details].
  split; [exact Hquiet|]. split; [exact Hcount|].
  rewrite Ha2. cbn [app]. rewrite <- Hl. reflexivity.
Qed.

Lemma rerun_is_quiet_witness :
  Forall (λ d, Detail.note d ≠ Some "error") (Summary.details ex_summary)
  ∧ ∃ summary w2,
      runAlertsOnce ex_late_host ex_env None ex_normal_run.2 = (Normal summary, w2)
      ∧ delivered w2 = delivered ex_normal_run.2
      ∧ Summary.sent summary = 0%nat
      ∧ listed (Summary.details summary) = [].
Proof.
  assert (Hnotes : Forall (λ d, Detail.note d ≠ Some "error")
                     (Summary.details ex_summary)).
  { vm_compute. repeat constructor; discriminate. }
  split; [exact Hnotes|].
  apply (rerun_is_quiet (ex_host (λ _, true)) ex_late_host ex_env None ex_world
           ex_snapshots ex_summary ex_normal_run.2).
  - reflexivity.
  - reflexivity.
  - reflexivity.
  - vm_compute. reflexivity.
  - exact Hnotes.
Defined.

(* ===================================================================== *)
(** * Force mode notifies every true condition                             *)
(* ===================================================================== *)

Section ForceExact.
Context `{Builtins} (host : Host) (env : Env) (opts : option Opts).
Hypothesis Hforced : forced opts = true.

(** The checks of a symbol in force mode: if none throws, every check whose
    condition is true has delivered its message and pushed its key. *)
Lemma run_alerts_forced_all (cooldownMs : number) (alerts : list Alert)
    (state : AlertState) (r : Run) :
  triple (run_alerts (tryAlert host env opts cooldownMs) alerts state) r
    (λ _ r',
       delivered (world r') = delivered (world r) ++ (true_alerts alerts).*2
       ∧ sentKeys r' = sentKeys r ++ (true_alerts alerts).*1.*1)
    (λ _, True).
Proof.
  revert r. induction alerts as [|[[key cond] message] alerts IH]; intros r.
  - unfold triple. cbn. now rewrite !app_nil_r.
  - unfold triple. cbn [run_alerts]. unfold mbind at 1. unfold M_bind at 1.
    rewrite (tryAlert_forced host env opts cooldownMs key cond message state r
               Hforced).
    unfold deliver_then, true_alerts in *. destruct cond.
    + rewrite filter_cons_True by reflexivity.
      destruct (webhook_missing _); [exact I|].
      destruct (webhookOk _ _); [|exact I].
      specialize (IH (counted key (with_world (accepted message) (with_world tick r)))).
      unfold triple in IH. destruct (run_alerts _ _ _ _) as [[state'|e] r'];
        [|exact I].
      destruct IH as [-> ->]. cbn. now rewrite <- !app_assoc.
    + rewrite filter_cons_False by discriminate.
      specialize (IH (with_world tick r)).
      unfold triple in IH. destruct (run_alerts _ _ _ _) as [[state'|e] r'];
        [exact IH|exact I].
Qed.

Lemma check_conditions_forced_all (priceLevels : gmap string Rules)
    (pctThreshold cooldownMs : number) (symbol : string)
    (currentPrice : number) (prevClose : option number) (r : Run) :
  let fired := true_alerts (alerts_of (default no_rules (priceLevels !! symbol))
                              pctThreshold symbol currentPrice prevClose) in
  triple (check_conditions host env opts priceLevels pctThreshold cooldownMs
            symbol currentPrice prevClose) r
    (λ _ r',
       delivered (world r') = delivered (world r) ++ fired.*2
       ∧ sentKeys r' = sentKeys r ++ fired.*1.*1)
    (λ _, True).
Proof.
  cbn zeta. unfold triple. rewrite check_conditions_alerts.
  unfold mbind at 1. unfold M_bind at 1. unfold kv_get, gets.
  unfold mbind at 1. unfold M_bind at 1.
  pose proof (run_alerts_forced_all cooldownMs
                (alerts_of (default no_rules (priceLevels !! symbol))
                   pctThreshold symbol currentPrice prevClose)
                (init_state (STOCK_STATE (world r) !! stateKey symbol)) r)
    as Hall.
  unfold triple in Hall.
  destruct (run_alerts _ _ _ _) as [[state'|e] r']; [|exact I].
  rewrite Hforced. exact Hall.
Qed.

Lemma run_step_forced_all (snapshots : gmap string AlpacaSnapshot) (r : Run)
    (details : list Detail.t) (symbol : string) :
  let fired := true_alerts (cycle_alerts snapshots (priceLevels_of env)
                              (pctThreshold_of env) symbol) in
  ∃ r' d,
    run_step host env opts snapshots (r, details) symbol = (r', details ++ [d])
    ∧ Detail.symbol d = symbol
    ∧ (Detail.note d ≠ Some "error" →
       Detail.sent d = fired.*1.*1
       ∧ delivered (world r') = delivered (world r) ++ fired.*2).
Proof.
  unfold run_step, cycle_alerts, process_symbol.
  destruct (snapshots !! symbol) as [snap|]; cbn zeta;
    [|eexists _, _; split; [reflexivity|]; cbn; now rewrite app_nil_r].
  destruct (currentPrice_of snap) as [currentPrice|]; cbn zeta;
    [|eexists _, _; split; [reflexivity|]; cbn; now rewrite app_nil_r].
  pose proof (check_conditions_forced_all (priceLevels_of env) (pctThreshold_of env)
                (cooldownMs_of env) symbol currentPrice (prevClose_of snap)
                {| world := world r; sent := sent r; sentKeys := [] |}) as Hall.
  cbn zeta in Hall. unfold triple in Hall.
  destruct (check_conditions _ _ _ _ _ _ _ _ _ _) as [[[]|e] r'];
    eexists _, _; (split; [reflexivity|]); cbn; (split; [reflexivity|]).
  - intros _. destruct Hall as [Hd Hkeys]. cbn in Hd, Hkeys. now split.
  - intros Hnote. now destruct Hnote.
Qed.

Lemma run_forced_all (snapshots : gmap string AlpacaSnapshot)
    (symbols : list string) (acc : Run * list Detail.t) :
  let fired symbol := true_alerts (cycle_alerts snapshots (priceLevels_of env)
                                     (pctThreshold_of env) symbol) in
  let acc' := foldl (run_step host env opts snapshots) acc symbols in
  ∃ added,
    acc'.2 = acc.2 ++ added
    ∧ Forall2 (λ symbol d,
                 Detail.symbol d = symbol
                 ∧ (Detail.note d ≠ Some "error" →
                    Detail.sent d = (fired symbol).*1.*1))
        symbols added
    ∧ (Forall (λ d, Detail.note d ≠ Some "error") added →
       delivered (world acc'.1)
       = delivered (world acc.1) ++ (symbols ≫= λ symbol, (fired symbol).*2)).
Proof.
  cbn zeta. revert acc. induction symbols as [|symbol symbols IH];
    intros [r details].
  - exists []. cbn. rewrite !app_nil_r. repeat split. constructor.
  - cbn [foldl].
    destruct (run_step_forced_all snapshots r details symbol)
      as (r' & d & -> & Hsym & Hd).
    destruct (IH (r', details ++ [d])) as (added & Ha & Hs & Hd').
    cbn [fst snd] in *. exists (d :: added).
    rewrite Ha, <- !app_assoc. split; [reflexivity|]. split.
    + constructor; [|exact Hs]. split; [exact Hsym|]. intros Hnote.
      now apply Hd.
    + intros Hall. apply Forall_cons in Hall as [Hnote Hall].
      rewrite (Hd' Hall), (proj2 (Hd Hnote)), <- app_assoc. reflexivity.
Qed.

End ForceExact.

(** X8. A force-mode run notifies every condition that is true, and nothing
    else, wherever no iteration is aborted.  The summary has one detail per
    symbol of the run, in order; the sent keys of a detail that does not
    note an error are the keys of the checks of the symbol's snapshot whose
    condition holds, in the order of the checks; and if no detail notes an
    error, the messages the run delivers are, symbol after symbol, those of
    these checks.  Flags, cooldowns and the stored state play no part. *)
Theorem force_mode_notifies_every_true_condition `{Builtins} (host : Host)
    (env : Env) (opts : option Opts) (w : World)
    (snapshots : gmap string AlpacaSnapshot) (summary : Summary.t) (w' : World) :
  forced opts = true →
  alpaca host (run_symbols env opts) = Some snapshots →
  runAlertsOnce host env opts w = (Normal summary, w') →
  let fired symbol := true_alerts (cycle_alerts snapshots (priceLevels_of env)
                                     (pctThreshold_of env) symbol) in
  Forall2 (λ symbol d,
             Detail.symbol d = symbol
             ∧ (Detail.note d ≠ Some "error" →
                Detail.sent d = (fired symbol).*1.*1))
    (run_symbols env opts) (Summary.details summary)
  ∧ (Forall (λ d, Detail.note d ≠ Some "error") (Summary.details summary) →
     delivered w'
     = delivered w ++ (run_symbols env opts ≫= λ symbol, (fired symbol).*2)).
Proof.
  intros Hforced Hfetch Hrun fired.
  rewrite (runAlertsOnce_fetched host env opts w snapshots Hfetch) in Hrun.
  cbn zeta in Hrun. injection Hrun as <- <-.
  destruct (run_forced_all host env opts Hforced snapshots
              (run_symbols env opts)
              ({| world := w; sent := 0; sentKeys := [] |}, []))
    as (added & Ha & Hs & Hd).
  cbn [fst snd world] in *. cbn [Summary.details]. rewrite Ha. cbn [app].
  split; [exact Hs|exact Hd].
Qed.

Lemma force_mode_notifies_every_true_condition_witness :
  Forall (λ d, Detail.note d ≠ Some "error") (Summary.details ex_forced_summary)
  ∧ Forall2 (λ symbol d,
               Detail.symbol d = symbol
               ∧ (Detail.note d ≠ Some "error" →
                  Detail.sent d
                  = (true_alerts (cycle_alerts ex_snapshots (priceLevels_of ex_env)
                                    (pctThreshold_of ex_env) symbol)).*1.*1))
      (run_symbols ex_env ex_force) (Summary.details ex_forced_summary)
  ∧ delivered ex_forced_run.2
    = delivered ex_cooling
      ++ (run_symbols ex_env ex_force ≫= λ symbol,
            (true_alerts (cycle_alerts ex_snapshots (priceLevels_of ex_env)
                            (pctThreshold_of ex_env) symbol)).*2).
Proof.
  assert (Hnotes : Forall (λ d, Detail.note d ≠ Some "error")
                     (Summary.details ex_forced_summary)).
  { vm_compute. repeat constructor; discriminate. }
  split; [exact Hnotes|].
  destruct (force_mode_notifies_every_true_condition (ex_host (λ _, true)) ex_env
              ex_force ex_cooling ex_snapshots ex_forced_summary ex_forced_run.2)
    as [Hdetails Hdelivered].
  - reflexivity.
  - reflexivity.
  - vm_compute. reflexivity.
  - split; [exact Hdetails|]. exact (Hdelivered Hnotes).
Defined.

(* ===================================================================== *)
(** * The two evaluators agree                                             *)
(* ===================================================================== *)

Section CronRuns.
Context `{Builtins} (host : Host) (env : Env).

Lemma runCron_fetched (w : World) (snapshots : gmap string AlpacaSnapshot) :
  alpaca host (watchlist env) = Some snapshots →
  Cron.runCron host env w
  = (Normal tt, cycles_run w (scheduled_cycles host env snapshots)).
Proof.
  intros Hfetch. unfold Cron.runCron, fetchSnapshotsAlpaca. rewrite Hfetch.
  cbn -[Cron.process_symbol parsePriceLevels]. f_equal.
  apply cron_world_cycles.
Qed.

Lemma runCron_fetch_failed (w : World) :
  alpaca host (watchlist env) = None →
  Cron.runCron host env w = (Throw SnapshotsError, w).
Proof.
  intros Hfetch. unfold Cron.runCron, fetchSnapshotsAlpaca. rewrite Hfetch.
  reflexivity.
Qed.

(** Scheduled cycles are normal on-demand cycles, with their own texts. *)
Lemma scheduled_as_on_demand (opts : option Opts)
    (snapshots : gmap string AlpacaSnapshot) (symbols : list string)
    (base : list Message) (w1 w2 : World) :
  forced opts = false →
  scheduled_texts base w1 w2 →
  scheduled_texts base
    (cycles_run w1 (mkCycle true host env None snapshots (priceLevels_of env)
                      (pctThreshold_of env) (cooldownMs_of env) <$> symbols))
    (cycles_run w2 (mkCycle false host env opts snapshots (priceLevels_of env)
                      (pctThreshold_of env) (cooldownMs_of env) <$> symbols)).
Proof.
  intros Hnormal. revert w1 w2.
  induction symbols as [|symbol symbols IH]; intros w1 w2 Hw; [exact Hw|].
  unfold cycles_run in *. cbn [fmap list_fmap foldl]. apply IH.
  unfold cycle_step. cbn -[process_symbol Cron.process_symbol].
  apply (cron_process_symbol_retexted host env opts base Hnormal snapshots
           (priceLevels_of env) (pctThreshold_of env) (cooldownMs_of env) symbol
           {| world := w1; sent := 0; sentKeys := [] |}
           {| world := w2; sent := 0; sentKeys := [] |} []).
  exact Hw.
Qed.

(** The world after [runCron] and the world after a normal run of
    [runAlertsOnce] over the watchlist. *)
Lemma runCron_retexted (opts : option Opts) (w : World) :
  forced opts = false →
  run_symbols env opts = watchlist env →
  scheduled_texts (delivered w) (Cron.runCron host env w).2
    (runAlertsOnce host env opts w).2.
Proof.
  intros Hnormal Hsymbols.
  destruct (alpaca host (run_symbols env opts)) as [snapshots|] eqn:Hfetch.
  - rewrite (runAlertsOnce_fetched host env opts w snapshots Hfetch). cbn zeta.
    rewrite Hsymbols in Hfetch.
    rewrite (runCron_fetched w snapshots Hfetch). cbn [fst snd].
    rewrite (run_world_cycles host env opts snapshots (run_symbols env opts)
               ({| world := w; sent := 0; sentKeys := [] |}, [])).
    cbn [fst world]. rewrite Hsymbols. unfold scheduled_cycles.
    apply scheduled_as_on_demand; [exact Hnormal|apply scheduled_texts_refl].
  - rewrite (runAlertsOnce_fetch_failed host env opts w Hfetch).
    rewrite Hsymbols in Hfetch.
    rewrite (runCron_fetch_failed w Hfetch). apply scheduled_texts_refl.
Qed.

End CronRuns.

(** The world after [runCron] is the world after a normal run of
    [runAlertsOnce] without options, up to the texts of the messages. *)
Lemma runCron_world `{Builtins} (host : Host) (env : Env) (w : World) :
  scheduled_texts (delivered w) (Cron.runCron host env w).2
    (runAlertsOnce host env None w).2.
Proof. now apply runCron_retexted. Qed.

(** A scheduled run is quiet when the on-demand run is. *)
Lemma runCron_quiet `{Builtins} (host : Host) (env : Env) (w : World) :
  delivered (runAlertsOnce host env None w).2 = delivered w →
  delivered (Cron.runCron host env w).2 = delivered w.
Proof.
  intros Hquiet.
  destruct (runCron_world host env w) as (_ & _ & _ & new & Hod & ->).
  rewrite Hod in Hquiet. rewrite <- (app_nil_r (delivered w)) in Hquiet at 2.
  apply app_inv_head in Hquiet as ->. apply app_nil_r.
Qed.

(** X9. The scheduled evaluator [runCron] and a normal-mode run of
    [runAlertsOnce] over the watchlist transform the world alike: from the
    same world and host they fail on the same snapshot fetch or both
    complete, and they leave the same KV namespace, the same number of
    clock reads and of webhook POSTs, and deliver messages about the same
    symbols and conditions with the same numbers, in the same order.  The
    texts differ in one place: that of a [pct_down] message of [runCron]
    has a space before its emoji that the one of [runAlertsOnce] lacks. *)
Theorem runCron_agrees_with_runAlertsOnce `{Builtins} (host : Host) (env : Env)
    (opts : option Opts) (w : World) :
  forced opts = false →
  run_symbols env opts = watchlist env →
  let w1 := (Cron.runCron host env w).2 in
  let w2 := (runAlertsOnce host env opts w).2 in
  STOCK_STATE w1 = STOCK_STATE w2
  ∧ clock w1 = clock w2
  ∧ posts w1 = posts w2
  ∧ (∃ new, delivered w2 = delivered w ++ new
            ∧ delivered w1 = delivered w ++ (as_scheduled <$> new))
  ∧ (∀ e, (Cron.runCron host env w).1 = Throw e
          ↔ (runAlertsOnce host env opts w).1 = Throw e)
  ∧ ((Cron.runCron host env w).1 = Normal tt
     ↔ ∃ summary, (runAlertsOnce host env opts w).1 = Normal summary).
Proof.
  intros Hnormal Hsymbols w1 w2.
  destruct (runCron_retexted host env opts w Hnormal Hsymbols)
    as (Hkv & Hclock & Hposts & Hnew).
  split; [exact Hkv|]. split; [exact Hclock|]. split; [exact Hposts|].
  split; [exact Hnew|].
  destruct (alpaca host (run_symbols env opts)) as [snapshots|] eqn:Hfetch.
  - rewrite (runAlertsOnce_fetched host env opts w snapshots Hfetch). cbn zeta.
    rewrite Hsymbols in Hfetch.
    rewrite (runCron_fetched host env w snapshots Hfetch). cbn [fst snd].
    split; [intros e; split; discriminate|].
    split; [intros _; now eexists|reflexivity].
  - rewrite (runAlertsOnce_fetch_failed host env opts w Hfetch).
    rewrite Hsymbols in Hfetch.
    rewrite (runCron_fetch_failed host env w Hfetch). cbn [fst snd].
    split; [intros e; split; intros [= <-]; reflexivity|].
    split; [discriminate|intros [summary [=]]].
Qed.

Lemma runCron_agrees_with_runAlertsOnce_witness :
  STOCK_STATE (Cron.runCron (ex_host (λ _, true)) ex_env ex_cooling).2
  = STOCK_STATE (runAlertsOnce (ex_host (λ _, true)) ex_env
                   (Some {| force := Some false; symbols := Some [] |})
                   ex_cooling).2
  ∧ ∃ new,
      delivered (runAlertsOnce (ex_host (λ _, true)) ex_env
                   (Some {| force := Some false; symbols := Some [] |})
                   ex_cooling).2
      = delivered ex_cooling ++ new
      ∧ delivered (Cron.runCron (ex_host (λ _, true)) ex_env ex_cooling).2
        = delivered ex_cooling ++ (as_scheduled <$> new)
      ∧ (m_lead <$> new) = [""]
      ∧ (m_lead <$> (as_scheduled <$> new)) = [" "].
Proof.
  destruct (runCron_agrees_with_runAlertsOnce (ex_host (λ _, true)) ex_env
              (Some {| force := Some false; symbols := Some [] |}) ex_cooling)
    as (Hkv & _ & _ & (new & Hod & Hsc) & _).
  - reflexivity.
  - reflexivity.
  - split; [exact Hkv|]. exists new. split; [exact Hod|]. split; [exact Hsc|].
    pose proof (f_equal (fmap m_lead) Hod) as Hlead2.
    pose proof (f_equal (fmap m_lead) Hsc) as Hlead1.
    vm_compute in Hlead1, Hlead2. symmetry in Hlead1, Hlead2.
    split; assumption.
Defined.

(* ===================================================================== *)
(** * The on-demand endpoint                                               *)
(* ===================================================================== *)

Lemma nonempty_false (s : string) : nonempty s = false ↔ s = "".
Proof. destruct s; cbn; split; intros; congruence. Qed.

(** X10. [POST /trigger-alerts] answers 401 exactly when the header
    [x-trigger-token] is absent, empty or different from [TRIGGER_TOKEN];
    a rejected request leaves the world as it was (the KV namespace, the
    number of clock reads and of webhook POSTs, the delivered messages);
    with an empty [TRIGGER_TOKEN] every request is rejected.  An accepted
    request whose [symbols] array has an element that [String] cannot
    convert throws a [TypeError] with the world unchanged; any other
    accepted request either fails on the snapshot fetch with the world
    unchanged or answers with the summary of [runAlertsOnce] called with
    the force flag of the body and its symbols converted to strings. *)
Theorem trigger_alerts_authorization `{Builtins} (host : Host) (env : Env)
    (token : option string) (body : Body) (w : World) :
  ((trigger_alerts host env token body w).1 = Normal Unauthorized
   ↔ token = None ∨ token = Some "" ∨ token ≠ Some (TRIGGER_TOKEN env))
  ∧ ((trigger_alerts host env token body w).1 = Normal Unauthorized →
     (trigger_alerts host env token body w).2 = w)
  ∧ (TRIGGER_TOKEN env = "" →
     trigger_alerts host env token body w = (Normal Unauthorized, w))
  ∧ (token = Some (TRIGGER_TOKEN env) → TRIGGER_TOKEN env ≠ "" →
     match body_strings body with
     | None => trigger_alerts host env token body w = (Throw TypeError, w)
     | Some symbols =>
         let opts := Some {| force := Some (body_force body);
                             symbols := symbols |} in
         trigger_alerts host env token body w = (Throw SnapshotsError, w)
         ∨ ∃ summary w',
             runAlertsOnce host env opts w = (Normal summary, w')
             ∧ trigger_alerts host env token body w = (Normal (Json summary), w')
     end).
Proof.
  assert (Hrun : ∀ opts,
            runAlertsOnce host env opts w = (Throw SnapshotsError, w)
            ∨ ∃ summary w', runAlertsOnce host env opts w = (Normal summary, w')).
  { intros opts.
    destruct (alpaca host (run_symbols env opts)) as [snapshots|] eqn:Hfetch.
    - right. rewrite (runAlertsOnce_fetched host env opts w snapshots Hfetch).
      cbn zeta. now eexists _, _. 
    - left. now apply runAlertsOnce_fetch_failed. }
  assert (Haccepted :
    match body_strings body with
    | None =>
        match body_symbols body with
        | Some elements =>
            match mapM ToString elements with
            | Some strings =>
                match runAlertsOnce host env
                        (Some {| force := Some (body_force body);
                                 symbols := Some strings |}) w with
                | (Normal result, w') => (Normal (Json result), w')
                | (Throw e, w') => (Throw e, w')
                end
            | None => (Throw TypeError, w)
            end
        | None =>
            match runAlertsOnce host env
                    (Some {| force := Some (body_force body); symbols := None |})
                    w with
            | (Normal result, w') => (Normal (Json result), w')
            | (Throw e, w') => (Throw e, w')
            end
        end = (Throw TypeError, w)
    | Some symbols =>
        ∃ out,
          match body_symbols body with
          | Some elements =>
              match mapM ToString elements with
              | Some strings =>
                  match runAlertsOnce host env
                          (Some {| force := Some (body_force body);
                                   symbols := Some strings |}) w with
                  | (Normal result, w') => (Normal (Json result), w')
                  | (Throw e, w') => (Throw e, w')
                  end
              | None => (Throw TypeError, w)
              end
          | None =>
              match runAlertsOnce host env
                      (Some {| force := Some (body_force body); symbols := None |})
                      w with
              | (Normal result, w') => (Normal (Json result), w')
              | (Throw e, w') => (Throw e, w')
              end
          end = out
          ∧ out.1 ≠ Normal Unauthorized
          ∧ (out = (Throw SnapshotsError, w)
             ∨ ∃ summary w',
                 runAlertsOnce host env
                   (Some {| force := Some (body_force body); symbols := symbols |})
                   w = (Normal summary, w')
                 ∧ out = (Normal (Json summary), w'))
    end).
  { unfold body_strings. destruct (body_symbols body) as [elements|]; cbn.
    - destruct (mapM ToString elements) as [strings|]; cbn; [|reflexivity].
      eexists. split; [reflexivity|].
      destruct (Hrun (Some {| force := Some (body_force body);
                              symbols := Some strings |}))
        as [->|(summary & w' & ->)]; cbn.
      + split; [discriminate|now left].
      + split; [discriminate|right; now exists summary, w'].
    - eexists. split; [reflexivity|].
      destruct (Hrun (Some {| force := Some (body_force body); symbols := None |}))
        as [->|(summary & w' & ->)]; cbn.
      + split; [discriminate|now left].
      + split; [discriminate|right; now exists summary, w']. }
  unfold trigger_alerts.
  destruct token as [token|]; cbn [fst snd];
    [|split; [split; [now left|reflexivity]|];
      split; [reflexivity|]; split; [reflexivity|discriminate]].
  destruct (nonempty token) eqn:Hne; cbn [negb orb].
  - assert (Htoken : token ≠ "").
    { intros Heq. apply nonempty_false in Heq. congruence. }
    destruct (String.eqb_spec token (TRIGGER_TOKEN env)) as [Heq|Hneq];
      cbn [negb fst snd].
    + cbn zeta. destruct (body_strings body) as [symbols|].
      * destruct Haccepted as (out & -> & Hout & Hcases).
        split; [split; [intros Ha; now destruct Hout|]|].
        { intros [Ha|[Ha|Ha]]; congruence. }
        split; [intros Ha; now destruct Hout|].
        split; [intros Hempty; congruence|]. intros _ _. exact Hcases.
      * rewrite Haccepted. cbn [fst snd].
        split; [split; [discriminate|intros [Ha|[Ha|Ha]]; congruence]|].
        split; [discriminate|]. split; [intros Hempty; congruence|].
        reflexivity.
    + split; [split; [intros _; right; right; congruence|reflexivity]|].
      split; [reflexivity|]. split; [reflexivity|]. intros [= Ha]. congruence.
  - apply nonempty_false in Hne as ->.
    split; [split; [intros _; right; now left|reflexivity]|].
    split; [reflexivity|]. split; [reflexivity|]. intros [= Ha] Hb. congruence.
Qed.

Lemma trigger_alerts_authorization_witness :
  trigger_alerts (ex_host (λ _, true))
    {| DISCORD_WEBHOOK_URL := "https://discord.example/webhook";
       ALPACA_API_KEY := "key"; ALPACA_API_SECRET := "secret";
       WATCHLIST := Some "aapl"; PRICE_LEVELS := None; PCT_THRESHOLD := None;
       ALERT_COOLDOWN_MINUTES := None; TRIGGER_TOKEN := "" |}
    (Some "") (mkBody true None) ex_cooling
  = (Normal Unauthorized, ex_cooling)
  ∧ trigger_alerts (ex_host (λ _, true)) ex_env (Some (TRIGGER_TOKEN ex_env))
      (mkBody false (Some [JsonString "aapl"; JsonOther None])) ex_cooling
    = (Throw TypeError, ex_cooling).
Proof.
  split.
  - apply (trigger_alerts_authorization (ex_host (λ _, true))
             {| DISCORD_WEBHOOK_URL := "https://discord.example/webhook";
                ALPACA_API_KEY := "key"; ALPACA_API_SECRET := "secret";
                WATCHLIST := Some "aapl"; PRICE_LEVELS := None;
                PCT_THRESHOLD := None; ALERT_COOLDOWN_MINUTES := None;
                TRIGGER_TOKEN := "" |}
             (Some "") (mkBody true None) ex_cooling).
    reflexivity.
  - apply (trigger_alerts_authorization (ex_host (λ _, true)) ex_env
             (Some (TRIGGER_TOKEN ex_env))
             (mkBody false (Some [JsonString "aapl"; JsonOther None])) ex_cooling).
    + reflexivity.
    + vm_compute. discriminate.
Defined.

(* ===================================================================== *)
(** * A cooldown that is not a number                                      *)
(* ===================================================================== *)

Lemma ge_NaN (x : number) : ge x NaN = false.
Proof. destruct x; reflexivity. Qed.

Lemma nan_cooldown_cycle `{Builtins} (cy : Cycle) (w : World) :
  normal cy → cy_cooldownMs cy = NaN →
  delivered (cycle_step w cy) = delivered w.
Proof.
  intros Hnormal Hnan.
  destruct (cycle_step_delivers cy w) as (new & Hd & Hsym).
  rewrite Hd, (quiet_by_key (cy_symbol cy) w (cycle_step w cy) new Hd Hsym);
    [apply app_nil_r|].
  intros key.
  destruct (normal_cycle_key (cy_symbol cy) key cy w Hnormal eq_refl)
    as (_ & [Hsame|(_ & _ & n & _ & Hge)]); [exact Hsame|].
  rewrite Hnan, ge_NaN in Hge. discriminate.
Qed.

Lemma nan_cooldown_cycles `{Builtins} (cycles : list Cycle) (w : World) :
  Forall (λ cy, normal cy ∧ cy_cooldownMs cy = NaN) cycles →
  delivered (cycles_run w cycles) = delivered w.
Proof.
  intros Hall. revert w.
  induction Hall as [|cy cycles [Hnormal Hnan] _ IH]; intros w; [reflexivity|].
  change (cycles_run w (cy :: cycles)) with (cycles_run (cycle_step w cy) cycles).
  rewrite IH. now apply nan_cooldown_cycle.
Qed.

(** X11. When [ALERT_COOLDOWN_MINUTES] does not convert to a number, the
    cooldown is NaN, the test [now - last >= cooldownMs] is false at every
    check, and no normal-mode run delivers anything: neither
    [runAlertsOnce] without force nor [runCron]. *)
Theorem malformed_cooldown_silences `{Builtins} (host : Host) (env : Env)
    (opts : option Opts) (w : World) :
  Number (Some (default "30" (ALERT_COOLDOWN_MINUTES env))) = NaN →
  forced opts = false →
  delivered (runAlertsOnce host env opts w).2 = delivered w
  ∧ delivered (Cron.runCron host env w).2 = delivered w.
Proof.
  intros Hnan Hnormal.
  assert (Hcd : cooldownMs_of env = NaN).
  { unfold cooldownMs_of. rewrite Hnan. reflexivity. }
  split.
  - destruct (alpaca host (run_symbols env opts)) as [snapshots|] eqn:Hfetch.
    + rewrite (runAlertsOnce_fetched host env opts w snapshots Hfetch).
      cbn zeta. cbn [snd].
      rewrite (run_world_cycles host env opts snapshots (run_symbols env opts)
                 ({| world := w; sent := 0; sentKeys := [] |}, [])).
      apply nan_cooldown_cycles, Forall_fmap, Forall_forall.
      intros symbol _. cbn. split; [now right|exact Hcd].
    + now rewrite (runAlertsOnce_fetch_failed host env opts w Hfetch).
  - destruct (alpaca host (watchlist env)) as [snapshots|] eqn:Hfetch.
    + rewrite (runCron_fetched host env w snapshots Hfetch). cbn [snd].
      apply nan_cooldown_cycles, Forall_fmap, Forall_forall.
      intros symbol _. cbn. split; [now left|exact Hcd].
    + now rewrite (runCron_fetch_failed host env w Hfetch).
Qed.

Lemma malformed_cooldown_silences_witness :
  delivered (runAlertsOnce (ex_host (λ _, true)) ex_malformed_env None ex_world).2
  = delivered ex_world
  ∧ delivered (Cron.runCron (ex_host (λ _, true)) ex_malformed_env ex_world).2
    = delivered ex_world.
Proof.
  apply (malformed_cooldown_silences (ex_host (λ _, true)) ex_malformed_env None
           ex_world).
  - vm_compute. reflexivity.
  - reflexivity.
Defined.

(* ===================================================================== *)
(** * The bars endpoint                                                    *)
(* ===================================================================== *)

(** X12. [GET /test-alpaca] asks for the bars of NVDA.  When the provider
    answers with a status outside 200-299 the handler throws the error
    carrying that status and text and gives no JSON answer; otherwise it
    answers with [count] the number of bars of the document (0 when the
    [bars] field is absent) and [lastClose] the close of the last bar,
    which is absent exactly when [count] is 0. *)
Theorem test_alpaca_counts_bars (fetchBars : string → Env → BarsResponse)
    (env : Env) :
  let res := fetchBars "NVDA" env in
  let bars := default [] (data_bars res) in
  match test_alpaca fetchBars env with
  | inl (AlpacaError status text) =>
      res_ok res = false ∧ status = res_status res ∧ text = res_text res
  | inr answer =>
      res_ok res = true
      ∧ TestAlpaca.symbol answer = "NVDA"
      ∧ TestAlpaca.count answer = length bars
      ∧ TestAlpaca.lastClose answer = c <$> last bars
      ∧ (TestAlpaca.lastClose answer = None ↔ TestAlpaca.count answer = 0%nat)
  end.
Proof.
  cbn zeta. unfold test_alpaca, fetchClosesAlpaca.
  destruct (res_ok (fetchBars "NVDA" env)); cbn; [|now repeat split].
  rewrite length_fmap, fmap_last. repeat split.
  - destruct (default [] _) as [|bar bars] using rev_ind; [reflexivity|].
    rewrite last_snoc. discriminate.
  - destruct (default [] _) as [|bar bars]; [reflexivity|discriminate].
Qed.

Lemma test_alpaca_counts_bars_witness :
  ∃ answer,
    test_alpaca ex_bars ex_env = inr answer
    ∧ TestAlpaca.count answer = 2%nat
    ∧ TestAlpaca.lastClose answer = Some (ofZ 125).
Proof.
  pose proof (test_alpaca_counts_bars ex_bars ex_env) as Hanswer.
  cbn zeta in Hanswer.
  destruct (test_alpaca ex_bars ex_env) as [[status text]|answer] eqn:Heq.
  - destruct Hanswer as [Hok _]. discriminate.
  - exists answer. destruct Hanswer as (_ & _ & Hcount & Hlast & _).
    split; [reflexivity|]. split; [exact Hcount|exact Hlast].
Defined.

(* ===================================================================== *)
(** * A missing webhook URL                                                *)
(* ===================================================================== *)

Section NoWebhook.
Context `{Builtins} (host : Host) (env : Env) (opts : option Opts).
Hypothesis Hmissing : webhook_missing (DISCORD_WEBHOOK_URL env) = true.

Lemma no_post_refl (r : Run) : no_post r r.
Proof. now repeat split. Qed.

Lemma no_post_trans (r1 r2 r3 : Run) :
  no_post r1 r2 → no_post r2 r3 → no_post r1 r3.
Proof. unfold no_post. intros (? & ? & ?) (? & ? & ?). repeat split; congruence. Qed.

Lemma tryAlert_no_webhook (cooldownMs : number) (key : string) (cond : bool)
    (message : Message) (state : AlertState) (r : Run) :
  well_formed state →
  triple (tryAlert host env opts cooldownMs key cond message state) r
    (λ state' r', well_formed state' ∧ no_post r r')
    (λ r', no_post r r').
Proof.
  intros [[ms Hms] [mc Hmc]]. unfold triple, no_post.
  destruct (forced opts) eqn:Hf.
  - rewrite tryAlert_forced by assumption. unfold deliver_then.
    rewrite Hmissing. destruct cond; cbn; repeat split; eauto.
  - rewrite (tryAlert_normal host env opts cooldownMs key cond message state ms mc)
      by assumption.
    unfold deliver_then. rewrite Hmissing. cbn zeta.
    destruct (cond && negb (prev_of state key) && ge _ _); cbn;
      repeat split; eauto.
Qed.

Lemma run_alerts_no_webhook (cooldownMs : number) (alerts : list Alert)
    (state : AlertState) (r : Run) :
  well_formed state →
  triple (run_alerts (tryAlert host env opts cooldownMs) alerts state) r
    (λ state' r', well_formed state' ∧ no_post r r')
    (λ r', no_post r r').
Proof.
  revert state r. induction alerts as [|[[key cond] message] alerts IH];
    intros state r Hwf.
  - apply triple_ret. split; [exact Hwf|apply no_post_refl].
  - cbn [run_alerts]. apply triple_bind.
    eapply triple_mono; [now apply tryAlert_no_webhook| |].
    + intros state' r' (Hwf' & Hpost). cbn beta.
      eapply triple_mono; [now apply IH| |]; cbn beta.
      * intros state'' r'' (Hwf'' & Hpost'). split; [assumption|].
        eapply no_post_trans; eassumption.
      * intros r'' Hpost'. eapply no_post_trans; eassumption.
    + intros r' Hpost. exact Hpost.
Qed.

Lemma run_step_no_webhook (snapshots : gmap string AlpacaSnapshot) (r : Run)
    (details : list Detail.t) (symbol : string) :
  no_post r (run_step host env opts snapshots (r, details) symbol).1.
Proof.
  unfold run_step, process_symbol.
  destruct (snapshots !! symbol) as [snap|]; [|now repeat split].
  destruct (currentPrice_of snap) as [currentPrice|]; [|now repeat split].
  cbn zeta.
  assert (Hcheck : triple
            (check_conditions host env opts (priceLevels_of env)
               (pctThreshold_of env) (cooldownMs_of env) symbol currentPrice
               (prevClose_of snap))
            {| world := world r; sent := sent r; sentKeys := [] |}
            (λ _ r', no_post r r') (λ r', no_post r r')).
  { unfold triple. rewrite check_conditions_alerts.
    unfold mbind at 1. unfold M_bind at 1. unfold kv_get, gets.
    unfold mbind at 1. unfold M_bind at 1.
    pose proof (run_alerts_no_webhook (cooldownMs_of env)
                  (alerts_of (default no_rules (priceLevels_of env !! symbol))
                     (pctThreshold_of env) symbol currentPrice (prevClose_of snap))
                  (init_state (STOCK_STATE (world r) !! stateKey symbol))
                  {| world := world r; sent := sent r; sentKeys := [] |}
                  (init_state_well_formed _)) as Hrun.
    unfold triple in Hrun.
    destruct (run_alerts _ _ _ _) as [[state|e] r1]; [|exact Hrun].
    destruct Hrun as [_ Hpost]. destruct (forced opts); exact Hpost. }
  unfold triple in Hcheck.
  destruct (check_conditions _ _ _ _ _ _ _ _ _ _) as [[[]|e] r']; exact Hcheck.
Qed.

Lemma run_no_webhook (snapshots : gmap string AlpacaSnapshot)
    (symbols : list string) (acc : Run * list Detail.t) :
  no_post acc.1 (foldl (run_step host env opts snapshots) acc symbols).1.
Proof.
  apply (foldl_invariant (run_step host env opts snapshots)
           (λ acc' : Run * list Detail.t, no_post acc.1 acc'.1)).
  - apply no_post_refl.
  - intros [r details] symbol _ Hpost. eapply no_post_trans; [exact Hpost|].
    apply run_step_no_webhook.
Qed.

End NoWebhook.

(** X13. With a missing webhook URL (empty, or blank after trimming) no run
    reaches the webhook: [runAlertsOnce], in either mode, and [runCron]
    make no POST and deliver nothing, and a summary returned by
    [runAlertsOnce] counts no notification and lists none. *)
Theorem missing_webhook_sends_nothing `{Builtins} (host : Host) (env : Env)
    (opts : option Opts) (w : World) :
  webhook_missing (DISCORD_WEBHOOK_URL env) = true →
  let w' := (runAlertsOnce host env opts w).2 in
  let w'' := (Cron.runCron host env w).2 in
  posts w' = posts w ∧ delivered w' = delivered w
  ∧ posts w'' = posts w ∧ delivered w'' = delivered w
  ∧ ∀ summary, (runAlertsOnce host env opts w).1 = Normal summary →
      Summary.sent summary = 0%nat ∧ listed (Summary.details summary) = [].
Proof.
  intros Hmissing. cbn zeta.
  assert (Hrun : ∀ opts',
    posts (runAlertsOnce host env opts' w).2 = posts w
    ∧ delivered (runAlertsOnce host env opts' w).2 = delivered w).
  { intros opts'.
    destruct (alpaca host (run_symbols env opts')) as [snapshots|] eqn:Hfetch.
    - rewrite (runAlertsOnce_fetched host env opts' w snapshots Hfetch).
      cbn zeta. cbn [snd].
      destruct (run_no_webhook host env opts' Hmissing snapshots
                  (run_symbols env opts')
                  ({| world := w; sent := 0; sentKeys := [] |}, []))
        as (Hp & Hd & _).
      now split.
    - now rewrite (runAlertsOnce_fetch_failed host env opts' w Hfetch). }
  split; [apply Hrun|]. split; [apply Hrun|].
  split; [rewrite (proj1 (proj2 (proj2 (runCron_world host env w))));
          apply Hrun|].
  split; [apply runCron_quiet, Hrun|].
  intros summary Hsummary.
  destruct (alpaca host (run_symbols env opts)) as [snapshots|] eqn:Hfetch.
  - rewrite (runAlertsOnce_fetched host env opts w snapshots Hfetch) in Hsummary.
    cbn zeta in Hsummary. cbn [fst] in Hsummary. injection Hsummary as <-.
    cbn [Summary.sent Summary.details].
    destruct (run_no_webhook host env opts Hmissing snapshots
                (run_symbols env opts)
                ({| world := w; sent := 0; sentKeys := [] |}, []))
      as (_ & Hd & Hs).
    destruct (run_accounting host env opts snapshots (run_symbols env opts)
                ({| world := w; sent := 0; sentKeys := [] |}, []))
      as (added & new & Ha & Hd' & _ & Hl).
    cbn zeta in *. cbn [fst snd world sent] in *.
    split; [exact Hs|]. rewrite Hd in Hd'.
    assert (Hnew : new = []).
    { apply (app_inv_head (delivered w)). now rewrite app_nil_r. }
    subst new. rewrite Ha. cbn [app]. rewrite <- Hl. reflexivity.
  - rewrite (runAlertsOnce_fetch_failed host env opts w Hfetch) in Hsummary.
    discriminate.
Qed.

Lemma missing_webhook_sends_nothing_witness :
  posts (runAlertsOnce (ex_host (λ _, true)) ex_blank_env ex_force ex_world).2
  = posts ex_world
  ∧ delivered (runAlertsOnce (ex_host (λ _, true)) ex_blank_env ex_force ex_world).2
    = delivered ex_world
  ∧ posts (Cron.runCron (ex_host (λ _, true)) ex_blank_env ex_world).2
    = posts ex_world
  ∧ delivered (Cron.runCron (ex_host (λ _, true)) ex_blank_env ex_world).2
    = delivered ex_world
  ∧ ∀ summary,
      (runAlertsOnce (ex_host (λ _, true)) ex_blank_env ex_force ex_world).1
      = Normal summary →
      Summary.sent summary = 0%nat ∧ listed (Summary.details summary) = [].
Proof.
  apply (missing_webhook_sends_nothing (ex_host (λ _, true)) ex_blank_env ex_force
           ex_world).
  vm_compute. reflexivity.
Defined.

(* ===================================================================== *)
(** * What a run writes to the State Store                                 *)
(* ===================================================================== *)

Section Writes.
Context `{Builtins} (host : Host) (env : Env) (opts : option Opts).
Context (snapshots : gmap string AlpacaSnapshot).

(** One iteration writes at most the key of its symbol, in normal mode,
    with a state object that has both dictionaries. *)
Lemma run_step_writes (r : Run) (details : list Detail.t) (symbol key : string) :
  let r' := (run_step host env opts snapshots (r, details) symbol).1 in
  STOCK_STATE (world r') !! key = STOCK_STATE (world r) !! key
  ∨ (key = stateKey symbol ∧ forced opts = false
     ∧ ∃ state, STOCK_STATE (world r') !! key = Some state ∧ well_formed state).
Proof.
  unfold run_step, process_symbol.
  destruct (snapshots !! symbol) as [snap|]; [|now left].
  destruct (currentPrice_of snap) as [currentPrice|]; [|now left].
  cbn zeta.
  pose proof (check_conditions_effects host env opts (priceLevels_of env)
                (pctThreshold_of env) (cooldownMs_of env) symbol currentPrice
                (prevClose_of snap)
                {| world := world r; sent := sent r; sentKeys := [] |}) as Hcheck.
  cbn zeta in Hcheck. unfold triple, same_kv in Hcheck. cbn [world] in Hcheck.
  destruct (check_conditions _ _ _ _ _ _ _ _ _ _) as [[[]|e] r']; cbn [fst].
  - destruct Hcheck as [_ Hkv]. destruct (forced opts) eqn:Hf.
    + left. now rewrite Hkv.
    + destruct Hkv as (state & Hwf & Hkv). rewrite Hkv.
      destruct (decide (key = stateKey symbol)) as [->|Hne].
      * right. split; [reflexivity|]. split; [reflexivity|].
        exists state. now rewrite lookup_insert_eq.
      * left. now rewrite lookup_insert_ne.
  - destruct Hcheck as [_ Hkv]. left. now rewrite Hkv.
Qed.

Lemma run_writes (symbols : list string) (acc : Run * list Detail.t)
    (key : string) :
  let acc' := foldl (run_step host env opts snapshots) acc symbols in
  STOCK_STATE (world acc'.1) !! key = STOCK_STATE (world acc.1) !! key
  ∨ (∃ symbol, symbol ∈ symbols ∧ key = stateKey symbol)
    ∧ forced opts = false
    ∧ ∃ state, STOCK_STATE (world acc'.1) !! key = Some state ∧ well_formed state.
Proof.
  apply (foldl_invariant (run_step host env opts snapshots)
           (λ acc' : Run * list Detail.t,
              STOCK_STATE (world acc'.1) !! key = STOCK_STATE (world acc.1) !! key
              ∨ (∃ symbol, symbol ∈ symbols ∧ key = stateKey symbol)
                ∧ forced opts = false
                ∧ ∃ state, STOCK_STATE (world acc'.1) !! key = Some state
                           ∧ well_formed state)).
  - now left.
  - intros [r details] symbol Hsymbol IH.
    destruct (run_step_writes r details symbol key)
      as [Hsame|(Hkey & Hf & Hstate)].
    + cbn zeta in Hsame. rewrite Hsame. exact IH.
    + right. split; [now exists symbol|]. split; assumption.
Qed.

End Writes.

(** X14. What a run can do to the State Store.  After [runAlertsOnce] or
    [runCron], whatever the host does, every key of the KV namespace
    either holds what it held before, or is [alerts:<symbol>] for a symbol
    of the run and holds a state object with both dictionaries
    [lastSentAt] and [lastCond]; the latter only in normal mode.  No key
    is deleted and no other key is written. *)
Theorem runs_write_only_their_symbols `{Builtins} (host : Host) (env : Env)
    (opts : option Opts) (w : World) (key : string) :
  (STOCK_STATE (runAlertsOnce host env opts w).2 !! key = STOCK_STATE w !! key
   ∨ (∃ symbol, symbol ∈ run_symbols env opts ∧ key = stateKey symbol)
     ∧ forced opts = false
     ∧ ∃ state, STOCK_STATE (runAlertsOnce host env opts w).2 !! key = Some state
                ∧ well_formed state)
  ∧ (STOCK_STATE (Cron.runCron host env w).2 !! key = STOCK_STATE w !! key
     ∨ (∃ symbol, symbol ∈ watchlist env ∧ key = stateKey symbol)
       ∧ ∃ state, STOCK_STATE (Cron.runCron host env w).2 !! key = Some state
                  ∧ well_formed state).
Proof.
  assert (Hrun : ∀ opts',
    STOCK_STATE (runAlertsOnce host env opts' w).2 !! key = STOCK_STATE w !! key
    ∨ (∃ symbol, symbol ∈ run_symbols env opts' ∧ key = stateKey symbol)
      ∧ forced opts' = false
      ∧ ∃ state, STOCK_STATE (runAlertsOnce host env opts' w).2 !! key = Some state
                 ∧ well_formed state).
  { intros opts'.
    destruct (alpaca host (run_symbols env opts')) as [snapshots|] eqn:Hfetch.
    - rewrite (runAlertsOnce_fetched host env opts' w snapshots Hfetch).
      cbn zeta. cbn [snd].
      apply (run_writes host env opts' snapshots (run_symbols env opts')
               ({| world := w; sent := 0; sentKeys := [] |}, []) key).
    - rewrite (runAlertsOnce_fetch_failed host env opts' w Hfetch). now left. }
  split; [apply Hrun|]. rewrite (proj1 (runCron_world host env w)).
  destruct (Hrun None) as [Hsame|(Hsymbol & _ & Hstate)]; [now left|right].
  split; assumption.
Qed.

Lemma runs_write_only_their_symbols_witness :
  STOCK_STATE ex_normal_run.2 !! stateKey "AAPL"
  = STOCK_STATE ex_world !! stateKey "AAPL"
  ∨ (∃ symbol, symbol ∈ run_symbols ex_env None ∧ stateKey "AAPL" = stateKey symbol)
    ∧ forced None = false
    ∧ ∃ state, STOCK_STATE ex_normal_run.2 !! stateKey "AAPL" = Some state
               ∧ well_formed state.
Proof.
  exact (proj1 (runs_write_only_their_symbols (ex_host (λ _, true)) ex_env None
                  ex_world (stateKey "AAPL"))).
Defined.

(* ===================================================================== *)
(** * The sent keys of a detail                                            *)
(* ===================================================================== *)

Lemma alerts_of_condition_keys (rules : Rules) (pctThreshold : number)
    (symbol : string) (currentPrice : number) (prevClose : option number) :
  (alerts_of rules pctThreshold symbol currentPrice prevClose).*1.*1
  `sublist_of` condition_keys.
Proof.
  unfold alerts_of, condition_keys.
  destruct (below rules), (above rules); cbn.
  - reflexivity.
  - apply sublist_skip, sublist_cons. reflexivity.
  - apply sublist_cons. reflexivity.
  - do 2 apply sublist_cons. reflexivity.
Qed.

Lemma alerts_of_true (rules : Rules) (pctThreshold : number) (symbol : string)
    (currentPrice : number) (prevClose : option number) (a : Alert) :
  a ∈ alerts_of rules pctThreshold symbol currentPrice prevClose →
  a.1.2 = true →
  (a.1.1 = "price_below"
   ∧ ∃ level, below rules = Some level ∧ le currentPrice level = true)
  ∨ (a.1.1 = "price_above"
     ∧ ∃ level, above rules = Some level ∧ ge currentPrice level = true)
  ∨ (a.1.1 = "pct_up"
     ∧ ∃ pct, changePct_of currentPrice prevClose = Some pct
              ∧ ge pct pctThreshold = true)
  ∨ (a.1.1 = "pct_down"
     ∧ ∃ pct, changePct_of currentPrice prevClose = Some pct
              ∧ le pct (neg pctThreshold) = true).
Proof.
  unfold alerts_of. intros Ha Htrue.
  apply elem_of_app in Ha as [Ha|Ha]; [|apply elem_of_app in Ha as [Ha|Ha]].
  - left. destruct (below rules) as [level|] eqn:Hb; [|inversion Ha].
    apply list_elem_of_singleton in Ha as ->. cbn in *.
    split; [reflexivity|]. exists level. split; [reflexivity|].
    unfold condPriceBelow in Htrue. now rewrite Hb in Htrue.
  - right. left. destruct (above rules) as [level|] eqn:Hb; [|inversion Ha].
    apply list_elem_of_singleton in Ha as ->. cbn in *.
    split; [reflexivity|]. exists level. split; [reflexivity|].
    unfold condPriceAbove in Htrue. now rewrite Hb in Htrue.
  - right. right.
    apply elem_of_cons in Ha as [->|Ha];
      [left|right; apply list_elem_of_singleton in Ha as ->]; cbn in *;
      (split; [reflexivity|]);
      destruct (changePct_of currentPrice prevClose) as [pct|];
      try discriminate; now exists pct.
Qed.

Section SentKeys.
Context `{Builtins} (host : Host) (env : Env) (opts : option Opts).
Context (snapshots : gmap string AlpacaSnapshot).

Lemma run_step_sound (r : Run) (details : list Detail.t) (symbol : string) :
  ∃ r' d,
    run_step host env opts snapshots (r, details) symbol = (r', details ++ [d])
    ∧ Detail.sent d `sublist_of` condition_keys
    ∧ ∀ key, key ∈ Detail.sent d →
        condition_holds (pctThreshold_of env) d key
        ∧ Detail.rules d
          = Some (default no_rules (priceLevels_of env !! Detail.symbol d)).
Proof.
  unfold run_step, process_symbol.
  destruct (snapshots !! symbol) as [snap|];
    [|eexists _, _; split; [reflexivity|]; cbn;
      split; [apply sublist_nil_l|intros key Hkey; inversion Hkey]].
  destruct (currentPrice_of snap) as [currentPrice|];
    [|eexists _, _; split; [reflexivity|]; cbn;
      split; [apply sublist_nil_l|intros key Hkey; inversion Hkey]].
  cbn zeta.
  pose proof (check_conditions_effects host env opts (priceLevels_of env)
                (pctThreshold_of env) (cooldownMs_of env) symbol currentPrice
                (prevClose_of snap)
                {| world := world r; sent := sent r; sentKeys := [] |}) as Hcheck.
  cbn zeta in Hcheck. unfold triple in Hcheck.
  assert (Hsound : ∀ r' : Run,
    fires (alerts_of (default no_rules (priceLevels_of env !! symbol))
             (pctThreshold_of env) symbol currentPrice (prevClose_of snap))
      {| world := world r; sent := sent r; sentKeys := [] |} r' →
    sentKeys r' `sublist_of` condition_keys
    ∧ ∀ key, key ∈ sentKeys r' →
        ∃ a : Alert,
          a ∈ alerts_of (default no_rules (priceLevels_of env !! symbol))
                (pctThreshold_of env) symbol currentPrice (prevClose_of snap)
          ∧ a.1.1 = key ∧ a.1.2 = true).
  { intros r' (f & Hsub & Htrue & _ & Hkeys & _). cbn in Hkeys. rewrite Hkeys.
    split.
    - etransitivity; [|apply alerts_of_condition_keys].
      apply fmap_sublist, fmap_sublist, Hsub.
    - intros key Hkey.
      apply list_elem_of_fmap in Hkey as (kc & -> & Hkc).
      apply list_elem_of_fmap in Hkc as (a & -> & Ha).
      exists a. split; [eapply sublist_subseteq; eassumption|].
      split; [reflexivity|].
      now apply (proj1 (Forall_forall _ _) Htrue). }
  destruct (check_conditions _ _ _ _ _ _ _ _ _ _) as [[[]|e] r'];
    (eexists _, _; split; [reflexivity|]; cbn;
     assert (Hf : fires (alerts_of (default no_rules (priceLevels_of env !! symbol))
                           (pctThreshold_of env) symbol currentPrice
                           (prevClose_of snap))
                    {| world := world r; sent := sent r; sentKeys := [] |} r')
       by apply Hcheck;
     destruct (Hsound r' Hf) as [Hsub Hkeys]; split; [exact Hsub|];
     intros key Hkey; destruct (Hkeys key Hkey) as (a & Ha & <- & Htrue);
     split; [|reflexivity];
     exists currentPrice, (prevClose_of snap),
       (default no_rules (priceLevels_of env !! symbol));
     cbn; repeat (split; [reflexivity|]);
     now apply (alerts_of_true _ _ symbol)).
Qed.

Lemma run_sound (symbols : list string) (acc : Run * list Detail.t)
    (d : Detail.t) :
  d ∈ (foldl (run_step host env opts snapshots) acc symbols).2 →
  d ∈ acc.2
  ∨ (Detail.sent d `sublist_of` condition_keys
     ∧ ∀ key, key ∈ Detail.sent d →
         condition_holds (pctThreshold_of env) d key
         ∧ Detail.rules d
           = Some (default no_rules (priceLevels_of env !! Detail.symbol d))).
Proof.
  revert d.
  apply (foldl_invariant (run_step host env opts snapshots)
           (λ acc' : Run * list Detail.t, ∀ d, d ∈ acc'.2 → d ∈ acc.2 ∨ _)).
  - intros d Hd. now left.
  - intros [r details] symbol _ IH d Hd.
    destruct (run_step_sound r details symbol) as (r' & d' & Heq & Hsound).
    rewrite Heq in Hd. cbn [snd] in Hd.
    apply elem_of_app in Hd as [Hd|Hd]; [now apply IH|].
    apply list_elem_of_singleton in Hd as ->. now right.
Qed.

End SentKeys.

(** X15. The sent keys of a detail are sound for the numbers the detail
    reports: in either mode and whatever the deliveries did, a key is
    listed only if the detail carries a current price, the previous close,
    the change and the rules of its symbol in [PRICE_LEVELS], and the
    condition of that key holds on them ([price_below]: a [below] level
    with price <= level; [price_above]: an [above] level with price >=
    level; [pct_up]: a defined change >= threshold; [pct_down]: a defined
    change <= -threshold).  The keys appear in the order of the checks,
    each at most once. *)
Theorem sent_keys_are_sound `{Builtins} (host : Host) (env : Env)
    (opts : option Opts) (w w' : World) (summary : Summary.t) (d : Detail.t) :
  runAlertsOnce host env opts w = (Normal summary, w') →
  d ∈ Summary.details summary →
  Detail.sent d `sublist_of` condition_keys
  ∧ NoDup (Detail.sent d)
  ∧ ∀ key, key ∈ Detail.sent d →
      condition_holds (pctThreshold_of env) d key
      ∧ Detail.rules d
        = Some (default no_rules (priceLevels_of env !! Detail.symbol d)).
Proof.
  destruct (alpaca host (run_symbols env opts)) as [snapshots|] eqn:Hfetch.
  - rewrite (runAlertsOnce_fetched host env opts w snapshots Hfetch). cbn zeta.
    intros [= <- <-]. cbn [Summary.details]. intros Hd.
    apply run_sound in Hd as [Hd|[Hsub Hsound]]; [inversion Hd|].
    split; [exact Hsub|]. split; [|exact Hsound].
    eapply sublist_NoDup; [|exact Hsub]. unfold condition_keys.
    compute_done.
  - rewrite (runAlertsOnce_fetch_failed host env opts w Hfetch). discriminate.
Qed.

Lemma sent_keys_are_sound_witness :
  Detail.sent ex_detail `sublist_of` condition_keys
  ∧ NoDup (Detail.sent ex_detail)
  ∧ ∀ key, key ∈ Detail.sent ex_detail →
      condition_holds (pctThreshold_of ex_env) ex_detail key
      ∧ Detail.rules ex_detail
        = Some (default no_rules
                  (priceLevels_of ex_env !! Detail.symbol ex_detail)).
Proof.
  apply (sent_keys_are_sound (ex_host (λ _, true)) ex_env None ex_world
           ex_normal_run.2 ex_summary ex_detail).
  - vm_compute. reflexivity.
  - vm_compute. left.
Defined.

(* ===================================================================== *)
(** * Exceptions that leave a run                                          *)
(* ===================================================================== *)

(** X16. The only exception that leaves [runAlertsOnce] or [runCron] is
    the failure of the snapshot fetch, raised before any effect: a run
    throws exactly when the provider fails for the symbols of the run, the
    error is the fetch error and the world is as it was.  The failure of a
    delivery, a missing webhook URL or any other error raised while a
    symbol is processed never escapes the loop. *)
Theorem only_fetch_failure_escapes `{Builtins} (host : Host) (env : Env)
    (opts : option Opts) (w : World) (e : Error) :
  ((runAlertsOnce host env opts w).1 = Throw e
   ↔ alpaca host (run_symbols env opts) = None ∧ e = SnapshotsError)
  ∧ ((runAlertsOnce host env opts w).1 = Throw e →
     (runAlertsOnce host env opts w).2 = w)
  ∧ ((Cron.runCron host env w).1 = Throw e
     ↔ alpaca host (watchlist env) = None ∧ e = SnapshotsError)
  ∧ ((Cron.runCron host env w).1 = Throw e → (Cron.runCron host env w).2 = w).
Proof.
  split; [|split; [|split]].
  - destruct (alpaca host (run_symbols env opts)) as [snapshots|] eqn:Hfetch.
    + rewrite (runAlertsOnce_fetched host env opts w snapshots Hfetch).
      cbn zeta. split; [discriminate|intros [[=] _]].
    + rewrite (runAlertsOnce_fetch_failed host env opts w Hfetch). cbn.
      split; [intros [= <-]; now split|intros [_ ->]; reflexivity].
  - destruct (alpaca host (run_symbols env opts)) as [snapshots|] eqn:Hfetch.
    + rewrite (runAlertsOnce_fetched host env opts w snapshots Hfetch).
      cbn zeta. discriminate.
    + now rewrite (runAlertsOnce_fetch_failed host env opts w Hfetch).
  - destruct (alpaca host (watchlist env)) as [snapshots|] eqn:Hfetch.
    + rewrite (runCron_fetched host env w snapshots Hfetch).
      split; [discriminate|intros [[=] _]].
    + rewrite (runCron_fetch_failed host env w Hfetch). cbn.
      split; [intros [= <-]; now split|intros [_ ->]; reflexivity].
  - destruct (alpaca host (watchlist env)) as [snapshots|] eqn:Hfetch.
    + rewrite (runCron_fetched host env w snapshots Hfetch). discriminate.
    + now rewrite (runCron_fetch_failed host env w Hfetch).
Qed.

Lemma only_fetch_failure_escapes_witness :
  (runAlertsOnce ex_down_host ex_env ex_force ex_cooling).1 = Throw SnapshotsError
  ∧ (runAlertsOnce ex_down_host ex_env ex_force ex_cooling).2 = ex_cooling.
Proof.
  destruct (only_fetch_failure_escapes ex_down_host ex_env ex_force ex_cooling
              SnapshotsError) as (Hthrows & Hworld & _).
  assert (Hthrow : (runAlertsOnce ex_down_host ex_env ex_force ex_cooling).1
                   = Throw SnapshotsError).
  { apply Hthrows. split; reflexivity. }
  split; [exact Hthrow|exact (Hworld Hthrow)].
Defined.

(* ===================================================================== *)
(** * The symbols of a run, again                                          *)
(* ===================================================================== *)

Lemma filter_nonempty_all_blank {A : Type} (f : A → string) (l : list A) :
  Forall (λ x, f x = "") l → List.filter nonempty (List.map f l) = [].
Proof.
  induction 1 as [|x l Hx _ IH]; [reflexivity|]. cbn. now rewrite Hx.
Qed.

(** X17. No symbol of a run is the empty string.  A [symbols] override
    that is not empty but whose entries are all blank after trimming does
    not fall back to the watchlist: the run is over no symbol, asks the
    provider for an empty list, and when that succeeds returns the summary
    with [symbols] 0, [sent] 0 and no detail, leaving the world as it
    was. *)
Theorem blank_override_runs_no_symbol `{Builtins} (host : Host) (env : Env)
    (w : World) :
  (∀ opts symbol, symbol ∈ run_symbols env opts → symbol ≠ "")
  ∧ (∀ force override snapshots,
       override ≠ [] →
       Forall (λ s, toUpperCase (trim s) = "") override →
       alpaca host [] = Some snapshots →
       run_symbols env (Some {| force := force; symbols := Some override |}) = []
       ∧ runAlertsOnce host env
           (Some {| force := force; symbols := Some override |}) w
         = (Normal (Summary.mk true 0 0 []), w)).
Proof.
  split.
  - intros opts symbol Hsymbol Hempty. subst symbol.
    assert (Hne : ∀ l : list string, "" ∈ List.filter nonempty l → False).
    { intros l Hin. apply list_elem_of_In, List.filter_In in Hin as [_ Hin].
      discriminate. }
    unfold run_symbols, watchlist in Hsymbol.
    destruct (opts ≫= symbols) as [[|s l]|]; now apply Hne in Hsymbol.
  - intros force override snapshots Hne Hblank Hfetch.
    assert (Hsymbols :
      run_symbols env (Some {| force := force; symbols := Some override |}) = []).
    { destruct override as [|s l]; [congruence|].
      change (run_symbols env (Some {| force := force; symbols := Some (s :: l) |}))
        with (List.filter nonempty
                (List.map (λ s, toUpperCase (trim s)) (s :: l))).
      now apply filter_nonempty_all_blank. }
    split; [exact Hsymbols|].
    rewrite (runAlertsOnce_fetched host env _ w snapshots)
      by (now rewrite Hsymbols).
    cbn zeta. rewrite Hsymbols. reflexivity.
Qed.

Lemma blank_override_runs_no_symbol_witness :
  runAlertsOnce (ex_host (λ _, true)) ex_env
    (Some {| force := Some true; symbols := Some [" "; ""] |}) ex_cooling
  = (Normal (Summary.mk true 0 0 []), ex_cooling).
Proof.
  apply (proj2 (blank_override_runs_no_symbol (ex_host (λ _, true)) ex_env
                  ex_cooling) (Some true) [" "; ""] ex_snapshots).
  - discriminate.
  - repeat constructor.
  - reflexivity.
Defined.

(* ===================================================================== *)
(** * Symbols outside a run                                                *)
(* ===================================================================== *)

Section Outside.
Context `{Builtins} (host : Host) (env : Env) (opts : option Opts).
Context (snapshots : gmap string AlpacaSnapshot) (symbol : string).

Lemma run_step_other (r : Run) (details : list Detail.t) (other : string) :
  other ≠ symbol →
  let r' := (run_step host env opts snapshots (r, details) other).1 in
  notified symbol (world r') = notified symbol (world r)
  ∧ STOCK_STATE (world r') !! stateKey symbol
    = STOCK_STATE (world r) !! stateKey symbol.
Proof.
  intros Hother. unfold run_step.
  destruct (process_symbol_effects host env opts snapshots
              (priceLevels_of env) (pctThreshold_of env) (cooldownMs_of env)
              r details other) as (r' & d & -> & _ & _ & Hf & _ & _ & Hframe).
  cbn [fst]. split.
  - apply (fires_notified _ symbol (fresh_keys r) r' Hf).
    intros a Ha. apply cycle_alerts_about in Ha as [-> _]. exact Hother.
  - apply Hframe. intros Heq. apply stateKey_inj in Heq. congruence.
Qed.

Lemma run_other (symbols : list string) (acc : Run * list Detail.t) :
  symbol ∉ symbols →
  let acc' := foldl (run_step host env opts snapshots) acc symbols in
  notified symbol (world acc'.1) = notified symbol (world acc.1)
  ∧ STOCK_STATE (world acc'.1) !! stateKey symbol
    = STOCK_STATE (world acc.1) !! stateKey symbol.
Proof.
  intros Hout.
  apply (foldl_invariant (run_step host env opts snapshots)
           (λ acc' : Run * list Detail.t,
              notified symbol (world acc'.1) = notified symbol (world acc.1)
              ∧ STOCK_STATE (world acc'.1) !! stateKey symbol
                = STOCK_STATE (world acc.1) !! stateKey symbol)).
  - now split.
  - intros [r details] other Hin [IHn IHkv].
    assert (Hother : other ≠ symbol) by (intros ->; contradiction).
    destruct (run_step_other r details other Hother) as [Hn Hkv].
    cbn zeta in Hn, Hkv. cbn [fst] in *. split; congruence.
Qed.

End Outside.

(** X18. A run concerns its symbols only: for a symbol that is not among
    the symbols of the run (the normalized [symbols] override when it is
    not empty, the watchlist otherwise), [runAlertsOnce] delivers no
    message about it and leaves its stored state as it was, in either
    mode and whatever the fetch and the deliveries do; and a non-empty
    override is used whole, each entry trimmed and upper-cased, blank
    entries dropped, order and repetitions kept. *)
Theorem run_concerns_its_symbols_only `{Builtins} (host : Host) (env : Env)
    (opts : option Opts) (w : World) (symbol : string) :
  (symbol ∉ run_symbols env opts →
   notified symbol (runAlertsOnce host env opts w).2 = notified symbol w
   ∧ STOCK_STATE (runAlertsOnce host env opts w).2 !! stateKey symbol
     = STOCK_STATE w !! stateKey symbol)
  ∧ (∀ force override,
       override ≠ [] →
       run_symbols env (Some {| force := force; symbols := Some override |})
       = List.filter nonempty (List.map (λ s, toUpperCase (trim s)) override)).
Proof.
  split.
  - intros Hout.
    destruct (alpaca host (run_symbols env opts)) as [snapshots|] eqn:Hfetch.
    + rewrite (runAlertsOnce_fetched host env opts w snapshots Hfetch).
      cbn zeta. cbn [snd].
      apply (run_other host env opts snapshots symbol (run_symbols env opts)
               ({| world := w; sent := 0; sentKeys := [] |}, []) Hout).
    + rewrite (runAlertsOnce_fetch_failed host env opts w Hfetch). now split.
  - intros force override Hne. destruct override as [|s l]; [congruence|].
    reflexivity.
Qed.

Lemma run_concerns_its_symbols_only_witness :
  run_symbols ex_env (Some {| force := Some true; symbols := Some [" tsla"; "msft "] |})
  = ["TSLA"; "MSFT"]
  ∧ notified "AAPL"
      (runAlertsOnce (ex_host (λ _, true)) ex_env
         (Some {| force := Some true; symbols := Some [" tsla"; "msft "] |})
         ex_world).2
    = notified "AAPL" ex_world
  ∧ STOCK_STATE
      (runAlertsOnce (ex_host (λ _, true)) ex_env
         (Some {| force := Some true; symbols := Some [" tsla"; "msft "] |})
         ex_world).2 !! stateKey "AAPL"
    = STOCK_STATE ex_world !! stateKey "AAPL".
Proof.
  split; [vm_compute; reflexivity|].
  apply (proj1 (run_concerns_its_symbols_only (ex_host (λ _, true)) ex_env
                  (Some {| force := Some true; symbols := Some [" tsla"; "msft "] |})
                  ex_world "AAPL")).
  vm_compute. intros Hin.
  apply elem_of_cons in Hin as [Hin|Hin]; [discriminate|].
  apply list_elem_of_singleton in Hin. discriminate.
Defined.

(* ===================================================================== *)
(** * The stored times are delivery times                                  *)
(* ===================================================================== *)

Lemma checked_none (alerts : list Alert) (key : string) :
  checked alerts key = None → Forall (λ a : Alert, a.1.1 ≠ key) alerts.
Proof.
  induction alerts as [|[[k cond] message] alerts IH]; [constructor|].
  cbn. case_decide; [discriminate|]. intros Hrest.
  constructor; [assumption|now apply IH].
Qed.

Section Unchecked.
Context `{Builtins} (host : Host) (env : Env) (opts : option Opts).
Context (snapshots : gmap string AlpacaSnapshot) (priceLevels : gmap string Rules).
Context (pctThreshold cooldownMs : number) (symbol key : string).
Hypothesis Hnormal : forced opts = false.

(** A condition the cycle does not check keeps its flag and its time. *)
Lemma cycle_unchecked (w : World) :
  cycle_cond (mkCycle false host env opts snapshots priceLevels pctThreshold
                cooldownMs symbol) key = None →
  let w' := cycle_step w (mkCycle false host env opts snapshots priceLevels
                            pctThreshold cooldownMs symbol) in
  wasMet w' symbol key = wasMet w symbol key
  ∧ lastFiredAt w' symbol key = lastFiredAt w symbol key.
Proof.
  unfold cycle_step, cycle_cond, cycle_alerts, process_symbol. cbn.
  destruct (snapshots !! symbol) as [snap|]; cbn; [|now split].
  destruct (currentPrice_of snap) as [currentPrice|]; cbn; [|now split].
  intros Hcond. apply checked_none in Hcond.
  assert (Hcheck : triple
            (check_conditions host env opts priceLevels pctThreshold cooldownMs
               symbol currentPrice (prevClose_of snap))
            {| world := w; sent := 0; sentKeys := [] |}
            (λ _ r', wasMet (world r') symbol key = wasMet w symbol key
                     ∧ lastFiredAt (world r') symbol key = lastFiredAt w symbol key)
            (λ r', STOCK_STATE (world r') = STOCK_STATE w)).
  { unfold triple. rewrite check_conditions_alerts.
    unfold mbind at 1. unfold M_bind at 1. unfold kv_get, gets.
    unfold mbind at 1. unfold M_bind at 1. cbn [world].
    set (alerts := alerts_of _ _ _ _ _) in *.
    set (state := init_state (STOCK_STATE w !! stateKey symbol)).
    assert (Hall : Forall (λ a : Alert, a.1.1 ≠ key ∧ m_key a.2 = a.1.1) alerts).
    { apply Forall_and. split; [exact Hcond|apply alerts_of_keyed]. }
    pose proof (run_alerts_other host env opts cooldownMs symbol key Hnormal
                  alerts state {| world := w; sent := 0; sentKeys := [] |}
                  (init_state_well_formed _) Hall) as Hother.
    pose proof (run_alerts_effects host env opts cooldownMs alerts state
                  {| world := w; sent := 0; sentKeys := [] |}
                  (init_state_well_formed _)) as Heff.
    unfold triple in Hother, Heff.
    destruct (run_alerts _ alerts state _) as [[state'|e] r'].
    - destruct Hother as (_ & Hprev & Hlast & _). rewrite Hnormal. cbn.
      unfold wasMet, lastFiredAt, stored. cbn. rewrite lookup_insert_eq. cbn.
      rewrite Hprev, Hlast. unfold state.
      now rewrite prev_of_init, last_of_init.
    - destruct Heff as [Hkv _]. exact Hkv. }
  unfold triple in Hcheck.
  destruct (check_conditions _ _ _ _ _ _ _ _ _ _) as [[[]|e] r']; cbn;
    [exact Hcheck|].
  unfold wasMet, lastFiredAt, stored. now rewrite Hcheck.
Qed.

End Unchecked.

(** X19. In a normal cycle the stored time of the last notification of a
    condition changes only together with a delivery: either it is what it
    was, or exactly one message about the condition was delivered in the
    cycle and the stored time is the value of the clock read made at the
    condition's own check (the read that follows those of the checks made
    before it in the cycle).  The flag and the time of a condition the
    cycle does not check (no snapshot, no price, or no level for a price
    condition) are left as they were. *)
Theorem stored_time_changes_with_a_delivery `{Builtins} (cy : Cycle)
    (key : string) (w : World) :
  normal cy →
  let symbol := cy_symbol cy in
  let w' := cycle_step w cy in
  (lastFiredAt w' symbol key = lastFiredAt w symbol key
   ∨ ∃ message,
       m_symbol message = symbol ∧ m_key message = key
       ∧ lastFiredAt w' symbol key = dateNow (cy_host cy) (cycle_read w cy key)
       ∧ fired symbol key w' = fired symbol key w ++ [message])
  ∧ (cycle_cond cy key = None →
     wasMet w' symbol key = wasMet w symbol key
     ∧ lastFiredAt w' symbol key = lastFiredAt w symbol key).
Proof.
  intros Hnormal symbol w'.
  assert (Hnone : cycle_cond cy key = None →
            wasMet w' symbol key = wasMet w symbol key
            ∧ lastFiredAt w' symbol key = lastFiredAt w symbol key).
  { unfold w', symbol. destruct (cy_scheduled cy) eqn:Hs.
    - destruct (scheduled_cycle_observed (cy_symbol cy) key cy w Hs)
        as (-> & -> & _).
      apply (cycle_unchecked (cy_host cy) (cy_env cy) None (cy_snapshots cy)
               (cy_priceLevels cy) (cy_pctThreshold cy) (cy_cooldownMs cy)
               (cy_symbol cy) key eq_refl w).
    - destruct Hnormal as [Hsched|Hforced]; [congruence|].
      destruct cy as [sched host env opts snaps pl pct cd s]. cbn in *.
      subst sched. now apply cycle_unchecked. }
  split; [|exact Hnone].
  destruct (cycle_cond cy key) as [cond|] eqn:Hcond; [|left; now apply Hnone].
  destruct (normal_cycle_exact cy key w cond Hnormal Hcond)
    as (message & Hsym & Hkey & _ & Haborted & Hrecorded).
  cbn zeta in Haborted, Hrecorded. fold symbol w' in Haborted, Hrecorded.
  destruct (cycle_aborted w cy).
  - left. unfold lastFiredAt, stored. now rewrite (Haborted eq_refl).
  - destruct (Hrecorded eq_refl) as (_ & Hlast & Hfired).
    destruct (cond && negb (wasMet w symbol key) && _); [right|now left].
    exists message. now repeat split.
Qed.

Lemma stored_time_changes_with_a_delivery_witness :
  cycle_read ex_cooling ex_late_cycle "pct_down" = 3%nat
  ∧ (lastFiredAt (cycle_step ex_cooling ex_late_cycle) "AAPL" "pct_down"
     = lastFiredAt ex_cooling "AAPL" "pct_down"
     ∨ ∃ message,
         m_symbol message = "AAPL" ∧ m_key message = "pct_down"
         ∧ lastFiredAt (cycle_step ex_cooling ex_late_cycle) "AAPL" "pct_down"
           = dateNow ex_late_host 3
         ∧ fired "AAPL" "pct_down" (cycle_step ex_cooling ex_late_cycle)
           = fired "AAPL" "pct_down" ex_cooling ++ [message]).
Proof.
  split; [reflexivity|].
  apply (stored_time_changes_with_a_delivery ex_late_cycle "pct_down"
           ex_cooling).
  right. reflexivity.
Defined.
